(** * The service layer of the open-pioneer runtime

    A shallow embedding of [src/packages/runtime/services/ServiceLayer.ts]:
    the dependency-injection layer that constructs services in dependency
    order, shares them through a use count, destroys them again and guards
    dynamic lookups by the declarations of the requesting package.

    Service objects are mutable and shared, so they live in a heap that is
    threaded through every operation.  An exception keeps the heap as it was
    when the exception was raised: nothing is rolled back. *)

From Stdlib Require Import ZArith Lia.
From stdpp Require Import base option list strings gmap relations.

Local Open Scope string_scope.
Local Open Scope Z_scope.

(** ** Interface specifications and service declarations *)

(** Modelled from the spec: [InterfaceSpec] (InterfaceSpec.ts is not part of
    the sources), section 3: an interface name and an optional qualifier.
    The test [spec.qualifier == null] of the source is [qualifier spec =
    None]. *)
Record InterfaceSpec := mkInterfaceSpec {
  interfaceName : string;
  qualifier : option string
}.

Global Instance InterfaceSpec_eq_dec : EqDecision InterfaceSpec.
Proof. solve_decision. Defined.

(** Modelled from the spec: an entry of [service.dependencies], section 3:
    an interface specification together with the name under which the
    instance is handed to the constructor.  The source reads
    [d.referenceName] and passes [d] itself to the lookup. *)
Record ReferenceSpec := mkReferenceSpec {
  referenceName : string;
  required : InterfaceSpec
}.

(** A constructed service instance is a JavaScript object; it is identified
    by its allocation number. *)
Definition Instance := nat.

Definition Properties := list (string * string).

(** Modelled from the spec: the read-only part of a [ServiceRepr]
    (ServiceRepr.ts is not part of the sources), section 3.  The source reads
    [service.dependencies] and [service.properties].  A [ServiceRepr] object
    is identified by its position in [allServices]; its mutable part is the
    [ServiceCell] at that position of the heap. *)
Record ServiceRepr := mkServiceRepr {
  serviceId : string;
  interfaces : list InterfaceSpec;
  dependencies : list ReferenceSpec;
  properties : Properties
}.

Inductive ServiceState :=
| NotConstructed
| Constructing
| Constructed
| Destroyed.

Global Instance ServiceState_eq_dec : EqDecision ServiceState.
Proof. solve_decision. Defined.

(** Modelled from the spec: the mutable part of a [ServiceRepr], section 3:
    its state, its reference count and its instance.  The count is a
    JavaScript number; [destroyService] tests it with [<= 0]. *)
Record ServiceCell := mkServiceCell {
  state : ServiceState;
  useCount : Z;
  instance : option Instance
}.

Definition initialCell : ServiceCell :=
  {| state := NotConstructed; useCount := 0; instance := None |}.

(** Modelled from the spec: [PackageRepr] (PackageRepr.ts is not part of the
    sources), section 3.  The source reads [pkg.name], [pkg.services] and
    [pkg.uiReferences]. *)
Record PackageRepr := mkPackageRepr {
  name : string;
  services : list ServiceRepr;
  uiReferences : list InterfaceSpec
}.

(** Modelled from the spec: [ServiceLookupResult] (ServiceLookup.ts is not
    part of the sources), section 3: found, not-found or ambiguous.  The
    source tests [result.type] against "found" and reads [result.service];
    [Found] carries the reference of the service. *)
Inductive ServiceLookupResult :=
| Found (service : nat)
| NotFound
| Ambiguous.

Definition resultType (r : ServiceLookupResult) : string :=
  match r with
  | Found _ => "found"
  | NotFound => "not-found"
  | Ambiguous => "ambiguous"
  end.

(** [DynamicLookupResult = ServiceLookupResult | UndeclaredDependency]. *)
Inductive DynamicLookupResult :=
| Looked (r : ServiceLookupResult)
| Undeclared.

Record DependencyDeclarations := mkDependencyDeclarations {
  unqualified : bool;
  qualifiers : gset string
}.

(** ** Errors *)

(** Modelled from the spec: [ErrorId] (errors.ts is not part of the
    sources).  [INTERNAL] is the only identifier the layer itself raises;
    [RESOLUTION] stands for the build-time resolution error of section 7. *)
Inductive ErrorId :=
| INTERNAL
| RESOLUTION.

(** The message of an error: a literal text, or the text of [mustGet], which
    renders the interface and the type of the lookup result. *)
Inductive Message :=
| Text (s : string)
| FailedToFindService (spec : InterfaceSpec) (type : string).

Inductive Error := mkError (errorId : ErrorId) (message : Message).

(** ** The store *)

(** The record [instances] that [createService] fills and hands to the
    constructor is a plain JavaScript object: its own keys, and its
    prototype once an assignment has replaced it.  [None] stands for the
    prototype every object literal starts with. *)
Record ReferenceRecord := mkReferenceRecord {
  ownKeys : gmap string Instance;
  prototype : option Instance
}.

(** The object literal [{}]. *)
Global Instance ReferenceRecord_empty : Empty ReferenceRecord :=
  {| ownKeys := ∅; prototype := None |}.

(** The assignment [instances[key] = inst].  The name [__proto__] is the
    accessor that every plain object inherits: assigning an object under it
    makes that object the prototype of the record and creates no key.  Any
    other name becomes an own key, replacing an earlier value. *)
Definition assignReference (key : string) (inst : Instance) (instances : ReferenceRecord)
    : ReferenceRecord :=
  if decide (key = "__proto__")
  then {| ownKeys := ownKeys instances; prototype := Some inst |}
  else {| ownKeys := <[key := inst]> (ownKeys instances); prototype := prototype instances |}.

(** What the assignments have left in the record for [key]: the own key,
    or the prototype for the name [__proto__].  For a name that was
    assigned, this is what reading [instances[key]] gives back. *)
Definition assigned (instances : ReferenceRecord) (key : string) : option Instance :=
  if decide (key = "__proto__") then prototype instances else ownKeys instances !! key.

Record ServiceOptions := mkServiceOptions {
  references : ReferenceRecord;
  optProperties : Properties
}.

(** The calls received by the service objects, in the order they happen.
    The layer never reads this record; it is kept to state what was called,
    with which arguments, and when. *)
Inductive Event :=
| CallBeforeCreate (service : nat)
| CallCreate (service : nat) (options : ServiceOptions) (result : Instance)
| CallAddRef (service : nat)
| CallRemoveRef (service : nat) (result : Z)
| CallDestroy (service : nat).

Inductive LayerState :=
| NotStarted
| Started
| LayerDestroyed.

Global Instance LayerState_eq_dec : EqDecision LayerState.
Proof. solve_decision. Defined.

(** Everything that changes: the cells of the service objects, the [state]
    field of the layer, the calls made so far and the allocation counter. *)
Record World := mkWorld {
  heap : list ServiceCell;
  layerState : LayerState;
  trace : list Event;
  nextInstance : nat
}.

(** The fields of a [ServiceLayer] that are assigned once, in its
    constructor. *)
Record ServiceLayer := mkServiceLayer {
  serviceLookup : InterfaceSpec → ServiceLookupResult;
  declaredDependencies : gmap string (gmap string DependencyDeclarations);
  allServices : list ServiceRepr
}.

(** ** Computations that may throw *)

Inductive Outcome (A : Type) :=
| Done (a : A) (w : World)
| Throw (e : Error) (w : World)
| OutOfFuel.
Arguments Done {A} a w.
Arguments Throw {A} e w.
Arguments OutOfFuel {A}.

Definition Action (A : Type) := World → Outcome A.

Definition ret {A} (a : A) : Action A := λ w, Done a w.

Definition bind {A B} (m : Action A) (k : A → Action B) : Action B :=
  λ w, match m w with
       | Done a w' => k a w'
       | Throw e w' => Throw e w'
       | OutOfFuel => OutOfFuel
       end.

Definition throw {A} (e : Error) : Action A := λ w, Throw e w.

Notation "'let*' x ':=' m 'in' k" := (bind m (λ x, k))
  (at level 10, x name, m at level 100, k at level 200).
Notation "m ';;' k" := (bind m (λ _, k))
  (at level 100, k at level 200, right associativity).

(** [list.forEach(f)]. *)
Fixpoint forEach {A} (l : list A) (f : A → Action unit) : Action unit :=
  match l with
  | [] => ret tt
  | x :: rest => f x ;; forEach rest f
  end.

(** [list.forEach] whose callback updates a local variable of the caller. *)
Fixpoint forEachAcc {A B} (l : list A) (f : B → A → Action B) (acc : B) : Action B :=
  match l with
  | [] => ret acc
  | x :: rest => let* acc' := f acc x in forEachAcc rest f acc'
  end.

(** ** Service objects *)

(** The cell of a service.  A reference outside the heap does not arise
    (see [lookupValid] below); reading one yields the initial cell. *)
Definition cell (w : World) (service : nat) : ServiceCell :=
  default initialCell (heap w !! service).

Definition setCell (service : nat) (c : ServiceCell) (w : World) : World :=
  {| heap := <[service := c]> (heap w);
     layerState := layerState w;
     trace := trace w;
     nextInstance := nextInstance w |}.

Definition record (e : Event) (w : World) : World :=
  {| heap := heap w;
     layerState := layerState w;
     trace := (trace w ++ [e])%list;
     nextInstance := nextInstance w |}.

(** A method that updates the store and cannot throw. *)
Definition perform (f : World → World) : Action unit := λ w, Done tt (f w).

(** Modelled from the spec: the methods of [ServiceRepr] (ServiceRepr.ts is
    not part of the sources).  Section 4.2 step 4: "mark state =
    constructing". *)
Definition markConstructing (service : nat) (w : World) : World :=
  let c := cell w service in
  record (CallBeforeCreate service)
    (setCell service
       {| state := Constructing; useCount := useCount c; instance := instance c |} w).

(** [service.beforeCreate()]. *)
Definition beforeCreate (service : nat) : Action unit := perform (markConstructing service).

(** Modelled from the spec: section 4.2 step 4, "invoke the service's own
    constructor with {references, properties}, set state = constructed,
    refCount = 1, store instance, and return it".  The constructor of the
    service returns a new object. *)
Definition construct (service : nat) (options : ServiceOptions) (w : World) : World :=
  let inst := nextInstance w in
  record (CallCreate service options inst)
    (setCell service {| state := Constructed; useCount := 1; instance := Some inst |}
       {| heap := heap w;
          layerState := layerState w;
          trace := trace w;
          nextInstance := S inst |}).

(** [service.create(options)]. *)
Definition create (service : nat) (options : ServiceOptions) : Action Instance :=
  λ w, Done (nextInstance w) (construct service options w).

(** Modelled from the spec: [service.getInstanceOrThrow()]; section 3,
    "instance: present iff state = constructed".  The method throws when the
    instance is absent; the text of its message is not known. *)
Definition getInstanceOrThrow (service : nat) : Action Instance :=
  λ w, match instance (cell w service) with
       | Some inst => Done inst w
       | None => Throw (mkError INTERNAL (Text "Service instance is not present.")) w
       end.

(** Modelled from the spec: section 4.2 step 1, "increment refCount". *)
Definition incrementRef (service : nat) (w : World) : World :=
  let c := cell w service in
  record (CallAddRef service)
    (setCell service
       {| state := state c; useCount := useCount c + 1; instance := instance c |} w).

(** [service.addRef()]. *)
Definition addRef (service : nat) : Action unit := perform (incrementRef service).

(** Modelled from the spec: section 4.3 step 2, "decrement refCount"; the
    method returns the resulting count. *)
Definition decrementRef (service : nat) (w : World) : World :=
  let c := cell w service in
  record (CallRemoveRef service (useCount c - 1))
    (setCell service
       {| state := state c; useCount := useCount c - 1; instance := instance c |} w).

(** [service.removeRef()]. *)
Definition removeRef (service : nat) : Action Z :=
  λ w, Done (useCount (cell w service) - 1) (decrementRef service w).

(** Modelled from the spec: section 4.3 step 2, "call the service's own
    destructor and set state = destroyed"; the instance is absent in every
    state but constructed. *)
Definition markDestroyed (service : nat) (w : World) : World :=
  let c := cell w service in
  record (CallDestroy service)
    (setCell service
       {| state := Destroyed; useCount := useCount c; instance := None |} w).

(** [service.destroy()]. *)
Definition destroyRepr (service : nat) : Action unit := perform (markDestroyed service).

(** [service.state]. *)
Definition getState (service : nat) : Action ServiceState :=
  λ w, Done (state (cell w service)) w.

(** ** ServiceLayer *)

(** The read-only part of the service behind a reference. *)
Definition repr (layer : ServiceLayer) (service : nat) : ServiceRepr :=
  default (mkServiceRepr EmptyString [] [] []) (allServices layer !! service).

Definition internal (text : string) : Error := mkError INTERNAL (Text text).

(** [mustGet]: called to retrieve a service implementation for which we know
    that it exists (due to prior validation). *)
Definition mustGet (layer : ServiceLayer) (spec : InterfaceSpec) : Action nat :=
  let result := serviceLookup layer spec in
  match result with
  | Found service => ret service
  | _ => throw (mkError INTERNAL (FailedToFindService spec (resultType result)))
  end.

(** The callback of the loop over [service.dependencies] in
    [createService]; [construct] is the recursive call, [instances] the
    record the callback fills. *)
Definition injectDependency (construct : nat → Action Instance) (layer : ServiceLayer)
    (instances : ReferenceRecord) (d : ReferenceSpec) : Action ReferenceRecord :=
  let* serviceRef := mustGet layer (required d) in
  let* inst := construct serviceRef in
  ret (assignReference (referenceName d) inst instances).

(** [createService]: initializes the given service and its dependencies.
    The recursion of the source follows the dependency graph; [fuel] bounds
    its depth. *)
Fixpoint createService (fuel : nat) (layer : ServiceLayer) (service : nat) : Action Instance :=
  match fuel with
  | O => λ _, OutOfFuel
  | S fuel' =>
      let* st := getState service in
      match st with
      | Constructed =>
          let* inst := getInstanceOrThrow service in
          addRef service ;;
          ret inst
      | Constructing => throw (internal "Cycle during service construction.")
      | Destroyed => throw (internal "Invalid service state.")
      | NotConstructed =>
          beforeCreate service ;;
          let* instances :=
            forEachAcc (dependencies (repr layer service))
              (injectDependency (createService fuel' layer) layer)
              (∅ : ReferenceRecord) in
          create service
            {| references := instances; optProperties := properties (repr layer service) |}
      end
  end.

(** The callback of the loop over [service.dependencies] in
    [destroyService]; [destruct] is the recursive call. *)
Definition releaseDependency (destruct : nat → Action unit) (layer : ServiceLayer)
    (d : ReferenceSpec) : Action unit :=
  match serviceLookup layer (required d) with
  | Found dependency => destruct dependency
  | _ => ret tt
  end.

(** [destroyService]: destroys the given service and its dependencies. *)
Fixpoint destroyService (fuel : nat) (layer : ServiceLayer) (service : nat) : Action unit :=
  match fuel with
  | O => λ _, OutOfFuel
  | S fuel' =>
      let* st := getState service in
      match st with
      | Destroyed => ret tt
      | _ =>
          (let* n := removeRef service in
           if decide (n ≤ 0) then destroyRepr service else ret tt) ;;
          forEach (dependencies (repr layer service))
            (releaseDependency (destroyService fuel' layer) layer)
      end
  end.

(** [this.state = s] and [this.state]. *)
Definition setLayerState (s : LayerState) : Action unit :=
  λ w, Done tt {| heap := heap w; layerState := s; trace := trace w; nextInstance := nextInstance w |}.

Definition getLayerState : Action LayerState := λ w, Done (layerState w) w.

(** The references held by [allServices], in order. *)
Definition serviceRefs (layer : ServiceLayer) : list nat := seq 0 (length (allServices layer)).

(** [destroy()]. *)
Definition destroy (fuel : nat) (layer : ServiceLayer) : Action unit :=
  forEach (serviceRefs layer) (λ value, destroyService fuel layer value) ;;
  setLayerState LayerDestroyed.

(** [start()]. *)
Definition start (fuel : nat) (layer : ServiceLayer) : Action unit :=
  let* st := getLayerState in
  if decide (st ≠ NotStarted) then throw (internal "Service layer was already started.")
  else
    forEach (serviceRefs layer) (λ value, createService fuel layer value ;; ret tt) ;;
    setLayerState Started.

(** [isDeclaredDependency(packageName, spec)]. *)
Definition isDeclaredDependency (layer : ServiceLayer) (packageName : string)
    (spec : InterfaceSpec) : bool :=
  match declaredDependencies layer !! packageName with
  | None => false
  | Some packageEntry =>
      match packageEntry !! interfaceName spec with
      | None => false
      | Some interfaceEntry =>
          match qualifier spec with
          | None => unqualified interfaceEntry
          | Some q => bool_decide (q ∈ qualifiers interfaceEntry)
          end
      end
  end.

(** [getService(packageName, spec)]: returns a service implementing the
    given interface, after checking that the package declared it. *)
Definition getService (layer : ServiceLayer) (packageName : string) (spec : InterfaceSpec)
    : Action DynamicLookupResult :=
  let* st := getLayerState in
  if decide (st ≠ Started) then throw (internal "Service layer is not started.")
  else if negb (isDeclaredDependency layer packageName spec) then ret Undeclared
  else ret (Looked (serviceLookup layer spec)).

(** [buildDependencyIndex]: the declarations of one package, then of all. *)
Definition registerReference (packageEntry : gmap string DependencyDeclarations)
    (uiReference : InterfaceSpec) : gmap string DependencyDeclarations :=
  let interfaceEntry :=
    default {| unqualified := false; qualifiers := ∅ |}
      (packageEntry !! interfaceName uiReference) in
  <[interfaceName uiReference :=
      match qualifier uiReference with
      | None => {| unqualified := true; qualifiers := qualifiers interfaceEntry |}
      | Some q => {| unqualified := unqualified interfaceEntry;
                     qualifiers := {[q]} ∪ qualifiers interfaceEntry |}
      end]> packageEntry.

Definition buildDependencyIndex (packages : list PackageRepr)
    : gmap string (gmap string DependencyDeclarations) :=
  fold_left
    (λ index pkg, <[name pkg := fold_left registerReference (uiReferences pkg) ∅]> index)
    packages ∅.

(** Modelled from the spec: the Service Lookup Index built by
    [verifyDependencies] (verifyDependencies.ts and ServiceLookup.ts are not
    part of the sources).  Section 4.1: a specification resolves to the
    unique service providing it, to "not found", or to "ambiguous" when more
    than one service provides the same interface and qualifier; qualifiers
    match exactly. *)
Fixpoint providersFrom (k : nat) (all : list ServiceRepr) (spec : InterfaceSpec) : list nat :=
  match all with
  | [] => []
  | s :: rest =>
      if bool_decide (spec ∈ interfaces s)
      then k :: providersFrom (S k) rest spec
      else providersFrom (S k) rest spec
  end.

Definition lookupIn (all : list ServiceRepr) (spec : InterfaceSpec) : ServiceLookupResult :=
  match providersFrom 0 all spec with
  | [] => NotFound
  | [service] => Found service
  | _ => Ambiguous
  end.

Definition resolves (all : list ServiceRepr) (spec : InterfaceSpec) : bool :=
  match lookupIn all spec with
  | Found _ => true
  | _ => false
  end.

(** Modelled from the spec: section 4.1, the validation of
    [verifyDependencies]: every declared dependency of every service and
    every consumer reference must resolve, or the layer fails to build.
    Section 4.1 asks for no other check; the results below take what they
    need of the lookup as hypotheses ([lookupValid], [resolvable]) and hold
    for any lookup that meets them. *)
Definition verifyDependencies (all : list ServiceRepr) (uiDependencies : list InterfaceSpec)
    : Error + (InterfaceSpec → ServiceLookupResult) :=
  match
    filter (λ spec, resolves all spec = false)
      (flat_map (λ s, map required (dependencies s)) all ++ uiDependencies)%list
  with
  | [] => inr (lookupIn all)
  | spec :: _ =>
      inl (mkError RESOLUTION (FailedToFindService spec (resultType (lookupIn all spec))))
  end.

(** The constructor of [ServiceLayer]. *)
Definition newServiceLayer (packages : list PackageRepr) : Error + ServiceLayer :=
  let all := flat_map services packages in
  match verifyDependencies all (flat_map uiReferences packages) with
  | inl e => inl e
  | inr lookup =>
      inr {| serviceLookup := lookup;
             declaredDependencies := buildDependencyIndex packages;
             allServices := all |}
  end.

(** The store as it is when the layer has just been built: every service is
    not constructed, and the layer is not started. *)
Definition initialWorld (layer : ServiceLayer) : World :=
  {| heap := map (λ _, initialCell) (allServices layer);
     layerState := NotStarted;
     trace := [];
     nextInstance := 0 |}.

(** ** The dependency graph *)

Global Instance ServiceLookupResult_eq_dec : EqDecision ServiceLookupResult.
Proof. solve_decision. Defined.

(** [dependsOn layer s t]: a declared dependency of [s] resolves to [t]. *)
Definition dependsOn (layer : ServiceLayer) (s t : nat) : Prop :=
  ∃ d, d ∈ dependencies (repr layer s) ∧ serviceLookup layer (required d) = Found t.

Definition acyclic (layer : ServiceLayer) : Prop :=
  ∀ s, ¬ tc (dependsOn layer) s s.

Definition onCycle (layer : ServiceLayer) (s : nat) : Prop :=
  tc (dependsOn layer) s s.

(** Every declared dependency resolves to a service. *)
Definition resolvable (layer : ServiceLayer) : Prop :=
  ∀ s d, d ∈ dependencies (repr layer s) →
    ∃ t, serviceLookup layer (required d) = Found t.

(** The lookup only answers with services of the layer. *)
Definition lookupValid (layer : ServiceLayer) : Prop :=
  ∀ spec t, serviceLookup layer spec = Found t → (t < length (allServices layer))%nat.

(** The number of entries of [deps] that resolve to [x]. *)
Definition resolveCount (layer : ServiceLayer) (deps : list ReferenceSpec) (x : nat) : Z :=
  Z.of_nat (length (filter (λ d, serviceLookup layer (required d) = Found x) deps)).

(** The number of dependency declarations of [s] that resolve to [x]. *)
Definition edges (layer : ServiceLayer) (s x : nat) : Z :=
  resolveCount layer (dependencies (repr layer s)) x.

Fixpoint sumTo (n : nat) (f : nat → Z) : Z :=
  match n with
  | O => 0
  | S k => sumTo k f + f k
  end.

(** The number of dependency declarations in the layer that resolve to [x]. *)
Definition dependents (layer : ServiceLayer) (x : nat) : Z :=
  sumTo (length (allServices layer)) (λ s, edges layer s x).

(** ** Big-step description of the two recursive walks *)

Definition absentInstance : Error :=
  mkError INTERNAL (Text "Service instance is not present.").
Definition cycleError : Error := internal "Cycle during service construction.".
Definition invalidStateError : Error := internal "Invalid service state.".
Definition notFoundError (layer : ServiceLayer) (spec : InterfaceSpec) : Error :=
  mkError INTERNAL (FailedToFindService spec (resultType (serviceLookup layer spec))).

Definition optionsFor (layer : ServiceLayer) (service : nat) (instances : ReferenceRecord)
    : ServiceOptions :=
  {| references := instances; optProperties := properties (repr layer service) |}.

(** [creates layer s w out]: a call [createService(s)] in store [w] ends in
    [out]; [injects] is its loop over the dependencies. *)
Inductive creates (layer : ServiceLayer) : nat → World → Outcome Instance → Prop :=
| creates_shared service w inst :
    state (cell w service) = Constructed →
    instance (cell w service) = Some inst →
    creates layer service w (Done inst (incrementRef service w))
| creates_absent service w :
    state (cell w service) = Constructed →
    instance (cell w service) = None →
    creates layer service w (Throw absentInstance w)
| creates_cycle service w :
    state (cell w service) = Constructing →
    creates layer service w (Throw cycleError w)
| creates_invalid service w :
    state (cell w service) = Destroyed →
    creates layer service w (Throw invalidStateError w)
| creates_new service w instances w' :
    state (cell w service) = NotConstructed →
    injects layer (dependencies (repr layer service)) ∅ (markConstructing service w)
      (Done instances w') →
    creates layer service w
      (Done (nextInstance w') (construct service (optionsFor layer service instances) w'))
| creates_failed service w e w' :
    state (cell w service) = NotConstructed →
    injects layer (dependencies (repr layer service)) ∅ (markConstructing service w)
      (Throw e w') →
    creates layer service w (Throw e w')
with injects (layer : ServiceLayer)
  : list ReferenceSpec → ReferenceRecord → World → Outcome ReferenceRecord → Prop :=
| injects_nil acc w :
    injects layer [] acc w (Done acc w)
| injects_unresolved d rest acc w :
    (∀ t, serviceLookup layer (required d) ≠ Found t) →
    injects layer (d :: rest) acc w (Throw (notFoundError layer (required d)) w)
| injects_throw d rest acc w t e w' :
    serviceLookup layer (required d) = Found t →
    creates layer t w (Throw e w') →
    injects layer (d :: rest) acc w (Throw e w')
| injects_step d rest acc w t inst w' out :
    serviceLookup layer (required d) = Found t →
    creates layer t w (Done inst w') →
    injects layer rest (assignReference (referenceName d) inst acc) w' out →
    injects layer (d :: rest) acc w out.

Scheme creates_mut := Minimality for creates Sort Prop
  with injects_mut := Minimality for injects Sort Prop.
Combined Scheme creates_injects_ind from creates_mut, injects_mut.

(** The first step of [destroyService] on a service that is not destroyed:
    [removeRef], then [destroy] when the count is used up. *)
Definition release (service : nat) (w : World) : World :=
  let w1 := decrementRef service w in
  if decide (useCount (cell w service) - 1 ≤ 0) then markDestroyed service w1 else w1.

(** [destroys layer s w w']: a call [destroyService(s)] in store [w] returns
    in store [w']; [releases] is its loop over the dependencies. *)
Inductive destroys (layer : ServiceLayer) : nat → World → World → Prop :=
| destroys_gone service w :
    state (cell w service) = Destroyed →
    destroys layer service w w
| destroys_live service w w' :
    state (cell w service) ≠ Destroyed →
    releases layer (dependencies (repr layer service)) (release service w) w' →
    destroys layer service w w'
with releases (layer : ServiceLayer) : list ReferenceSpec → World → World → Prop :=
| releases_nil w :
    releases layer [] w w
| releases_skip d rest w w' :
    (∀ t, serviceLookup layer (required d) ≠ Found t) →
    releases layer rest w w' →
    releases layer (d :: rest) w w'
| releases_step d rest w t w1 w' :
    serviceLookup layer (required d) = Found t →
    destroys layer t w w1 →
    releases layer rest w1 w' →
    releases layer (d :: rest) w w'.

Scheme destroys_mut := Minimality for destroys Sort Prop
  with releases_mut := Minimality for releases Sort Prop.
Combined Scheme destroys_releases_ind from destroys_mut, releases_mut.

(** ** Measures and invariants of the store *)

(** The number of services that are still not constructed: it bounds the
    depth of [createService]. *)
Definition notConstructedCount (w : World) : nat :=
  sum_list_with (λ c, if decide (state c = NotConstructed) then 1%nat else 0%nat) (heap w).

(** The number of decrements that can still happen before every service is
    destroyed: it bounds the depth of [destroyService]. *)
Definition pendingReleases (w : World) : nat :=
  sum_list_with
    (λ c, if decide (state c = Destroyed) then 0%nat else Z.to_nat (Z.max 1 (useCount c)))
    (heap w).

(** A cell as construction leaves it: never destroyed, and with an instance
    and a positive count once constructed. *)
Definition healthyCell (c : ServiceCell) : Prop :=
  state c ≠ Destroyed
  ∧ (state c = Constructed → is_Some (instance c) ∧ 1 ≤ useCount c).

Definition healthy (w : World) : Prop := ∀ i, healthyCell (cell w i).

(** How [createService] may change the store, whether it returns or throws. *)
Definition grows (w w' : World) : Prop :=
  length (heap w') = length (heap w)
  ∧ layerState w' = layerState w
  ∧ (notConstructedCount w' ≤ notConstructedCount w)%nat
  ∧ ∀ i, match state (cell w i) with
         | Constructed =>
             state (cell w' i) = Constructed
             ∧ instance (cell w' i) = instance (cell w i)
             ∧ useCount (cell w i) ≤ useCount (cell w' i)
         | Constructing | Destroyed => cell w' i = cell w i
         | NotConstructed => healthyCell (cell w' i)
         end.

(** A call that returns leaves no service under construction that was not
    already under construction when it was made. *)
Definition settled (w w' : World) : Prop :=
  ∀ i, state (cell w' i) = Constructing → state (cell w i) = Constructing.

(** What a call of [createService] guarantees about the store it leaves. *)
Definition createdOk (layer : ServiceLayer) (s : nat) (w : World) (out : Outcome Instance) : Prop :=
  match out with
  | Done inst w' =>
      grows w w' ∧ settled w w'
      ∧ state (cell w' s) = Constructed ∧ instance (cell w' s) = Some inst
  | Throw _ w' => grows w w'
  | OutOfFuel => True
  end.

(** What the loop over the dependencies guarantees: when it completes, every
    resolved dependency is constructed. *)
Definition injectedOk (layer : ServiceLayer) (deps : list ReferenceSpec) (w : World)
    (out : Outcome ReferenceRecord) : Prop :=
  match out with
  | Done _ w' =>
      grows w w' ∧ settled w w'
      ∧ Forall (λ d, ∀ t, serviceLookup layer (required d) = Found t →
                          state (cell w' t) = Constructed) deps
  | Throw _ w' => grows w w'
  | OutOfFuel => True
  end.

(** What [destroyService] and its loop may end in: never an exception. *)
Definition destroysTo (layer : ServiceLayer) (s : nat) (w : World) (out : Outcome unit) : Prop :=
  match out with
  | Done _ w' => destroys layer s w w'
  | Throw _ _ => False
  | OutOfFuel => True
  end.

Definition releasesTo (layer : ServiceLayer) (deps : list ReferenceSpec) (w : World)
    (out : Outcome unit) : Prop :=
  match out with
  | Done _ w' => releases layer deps w w'
  | Throw _ _ => False
  | OutOfFuel => True
  end.

(** No service on a dependency cycle is constructed, and the constructor of
    none of them has been called. *)
Definition cycleFree (layer : ServiceLayer) (w : World) : Prop :=
  ∀ s, onCycle layer s →
    state (cell w s) ≠ Constructed ∧ ∀ o r, CallCreate s o r ∉ trace w.

Definition keepsCycleFree {A} (layer : ServiceLayer) (out : Outcome A) : Prop :=
  match out with
  | Done _ w' | Throw _ w' => cycleFree layer w'
  | OutOfFuel => True
  end.

(** The cell of a service after the first step of [destroyService]. *)
Definition releasedCell (c : ServiceCell) : ServiceCell :=
  if decide (useCount c - 1 ≤ 0)
  then {| state := Destroyed; useCount := useCount c - 1; instance := None |}
  else {| state := state c; useCount := useCount c - 1; instance := instance c |}.

(** How [destroyService] may change the store. *)
Definition shrinks (w w' : World) : Prop :=
  length (heap w') = length (heap w)
  ∧ (pendingReleases w' ≤ pendingReleases w)%nat
  ∧ ∀ i, (state (cell w i) = Destroyed → cell w' i = cell w i)
         ∧ (state (cell w' i) ≠ Destroyed →
              state (cell w' i) = state (cell w i)
              ∧ instance (cell w' i) = instance (cell w i)
              ∧ useCount (cell w' i) ≤ useCount (cell w i)
              ∧ (cell w' i = cell w i ∨ 1 ≤ useCount (cell w' i))).

(** Every service that is not destroyed holds a positive count. *)
Definition alivePositive (w : World) : Prop :=
  ∀ i, (i < length (heap w))%nat →
    state (cell w i) ≠ Destroyed → 1 ≤ useCount (cell w i).

(** ** Declarations of consumers, in the words of the specification *)

(** A consumer reference matches a specification by the exact-qualifier
    rule: the same interface name, and either both without qualifier or both
    with the same qualifier string. *)
Definition matchesDeclaration (declared spec : InterfaceSpec) : Prop :=
  interfaceName declared = interfaceName spec
  ∧ match qualifier spec with
    | None => qualifier declared = None
    | Some q => qualifier declared = Some q
    end.

(** The package called [packageName] declared a reference matching [spec]. *)
Definition declaredBy (packages : list PackageRepr) (packageName : string)
    (spec : InterfaceSpec) : Prop :=
  ∃ pkg declared,
    pkg ∈ packages ∧ name pkg = packageName
    ∧ declared ∈ uiReferences pkg ∧ matchesDeclaration declared spec.

(** The test of [isDeclaredDependency] on the entry of one package. *)
Definition entryDeclares (packageEntry : gmap string DependencyDeclarations)
    (spec : InterfaceSpec) : bool :=
  match packageEntry !! interfaceName spec with
  | None => false
  | Some interfaceEntry =>
      match qualifier spec with
      | None => unqualified interfaceEntry
      | Some q => bool_decide (q ∈ qualifiers interfaceEntry)
      end
  end.

(** ** Counting references *)

Definition indicator (x s : nat) : Z := if decide (x = s) then 1 else 0.

(** The count of a service, read as zero until it is constructed. *)
Definition constructedCount (w : World) (x : nat) : Z :=
  if decide (state (cell w x) = Constructed) then useCount (cell w x) else 0.

(** The dependency declarations of the constructed services that resolve to
    [x]. *)
Definition builtEdges (layer : ServiceLayer) (w : World) (x : nat) : Z :=
  sumTo (length (allServices layer))
    (λ s, if decide (state (cell w s) = Constructed) then edges layer s x else 0).

(** The loop of [start] over [allServices]. *)
Inductive constructsAll (layer : ServiceLayer) : list nat → World → Outcome unit → Prop :=
| constructsAll_nil w :
    constructsAll layer [] w (Done tt w)
| constructsAll_throw s rest w e w' :
    creates layer s w (Throw e w') →
    constructsAll layer (s :: rest) w (Throw e w')
| constructsAll_step s rest w inst w' out :
    creates layer s w (Done inst w') →
    constructsAll layer rest w' out →
    constructsAll layer (s :: rest) w out.

(** The loop of [destroy] over [allServices]. *)
Inductive destroysAll (layer : ServiceLayer) : list nat → World → World → Prop :=
| destroysAll_nil w :
    destroysAll layer [] w w
| destroysAll_step s rest w w1 w' :
    destroys layer s w w1 →
    destroysAll layer rest w1 w' →
    destroysAll layer (s :: rest) w w'.

(** [touched w s]: [removeRef] has been called on [s], that is, a call of
    [destroyService(s)] found [s] not destroyed. *)
Definition isRemoveRefOf (s : nat) (e : Event) : bool :=
  match e with
  | CallRemoveRef s' _ => bool_decide (s' = s)
  | _ => false
  end.

Definition touched (w : World) (s : nat) : bool := existsb (isRemoveRefOf s) (trace w).

(** The dependency declarations of the touched services that resolve to [x]. *)
Definition releasedEdges (layer : ServiceLayer) (w : World) (x : nat) : Z :=
  sumTo (length (allServices layer))
    (λ s, if touched w s then edges layer s x else 0).

(** The events of the first step of [destroyService]. *)
Definition releaseEvents (s : nat) (w : World) : list Event :=
  CallRemoveRef s (useCount (cell w s) - 1)
  :: (if decide (useCount (cell w s) - 1 ≤ 0) then [CallDestroy s] else []).

(** ** The instances handed to constructors *)

(** The record [instances] that the loop of [createService] builds over
    [deps], read off the store: each reference name is bound to the instance
    of the service its specification resolves to. *)
Definition wiringFrom (layer : ServiceLayer) (w : World) (deps : list ReferenceSpec)
    (acc : ReferenceRecord) : ReferenceRecord :=
  fold_left
    (λ acc d,
       match serviceLookup layer (required d) with
       | Found t =>
           match instance (cell w t) with
           | Some inst => assignReference (referenceName d) inst acc
           | None => acc
           end
       | _ => acc
       end)
    deps acc.

(** Every recorded constructor call received the instances of the services
    its dependencies resolve to, all of them constructed; and every
    constructed service holds the instance its constructor returned. *)
Definition wired (layer : ServiceLayer) (w : World) : Prop :=
  (∀ s o r, CallCreate s o r ∈ trace w →
     o = optionsFor layer s (wiringFrom layer w (dependencies (repr layer s)) ∅)
     ∧ ∀ d t, d ∈ dependencies (repr layer s) →
         serviceLookup layer (required d) = Found t →
         state (cell w t) = Constructed)
  ∧ (∀ s, state (cell w s) = Constructed →
       ∃ o r, CallCreate s o r ∈ trace w ∧ instance (cell w s) = Some r).

(** Constructed services stay constructed, with the same instance. *)
Definition keeps (w w' : World) : Prop :=
  ∀ i, state (cell w i) = Constructed →
    state (cell w' i) = Constructed ∧ instance (cell w' i) = instance (cell w i).

(** ** Reading the record of calls *)

Definition isDestroyOf (s : nat) (e : Event) : bool :=
  match e with
  | CallDestroy s' => bool_decide (s' = s)
  | _ => false
  end.

(** The number of times the destructor of [s] was called. *)
Definition destructorCalls (s : nat) (calls : list Event) : nat :=
  length (filter (λ e, isDestroyOf s e = true) calls).

(** The calls before the first call of the destructor of [s], and the calls
    after it. *)
Fixpoint untilDestroy (s : nat) (calls : list Event) : option (list Event * list Event) :=
  match calls with
  | [] => None
  | e :: rest =>
      if isDestroyOf s e then Some ([], rest)
      else match untilDestroy s rest with
           | Some (before, after) => Some (e :: before, after)
           | None => None
           end
  end.

(** The calls of [removeRef] and [destroy] received by [s]: the count each
    decrement returned, and where the destructor ran. *)
Inductive Release :=
| Decremented (result : Z)
| DestructorRan.

Fixpoint releasesOf (s : nat) (calls : list Event) : list Release :=
  match calls with
  | [] => []
  | CallRemoveRef s' r :: rest =>
      if bool_decide (s' = s) then Decremented r :: releasesOf s rest else releasesOf s rest
  | CallDestroy s' :: rest =>
      if bool_decide (s' = s) then DestructorRan :: releasesOf s rest else releasesOf s rest
  | _ :: rest => releasesOf s rest
  end.

(** ** Example layers *)

(** The layer over [packages], without the check of the constructor. *)
Definition layerOf (packages : list PackageRepr) : ServiceLayer :=
  {| serviceLookup := lookupIn (flat_map services packages);
     declaredDependencies := buildDependencyIndex packages;
     allServices := flat_map services packages |}.

(** The position in [allServices] of the service called [sid]. *)
Definition refOf (layer : ServiceLayer) (sid : string) : nat :=
  match list_find (λ s, serviceId s = sid) (allServices layer) with
  | Some (i, _) => i
  | None => length (allServices layer)
  end.

Definition providerSpec : InterfaceSpec := mkInterfaceSpec "example.Provider" None.

(** The provider P: it provides one interface and needs nothing. *)
Definition providerService : ServiceRepr :=
  mkServiceRepr "P" [providerSpec] [] [].

(** A service that requires the provider under the name "provider". *)
Definition consumerService (sid : string) : ServiceRepr :=
  mkServiceRepr sid [mkInterfaceSpec sid None] [mkReferenceSpec "provider" providerSpec] [].

(** S1 and S2 both require P. *)
Definition sharingServices : list ServiceRepr :=
  [consumerService "S1"; consumerService "S2"; providerService].

(** One package that holds the three services in the given order and
    declares a consumer reference to the provider's interface. *)
Definition sharingPackages (order : list ServiceRepr) : list PackageRepr :=
  [mkPackageRepr "app" order [providerSpec]].

Definition sharingLayer (order : list ServiceRepr) : ServiceLayer :=
  layerOf (sharingPackages order).

(** A needs B and B needs A; P stands apart. *)
Definition cyclicPackages : list PackageRepr :=
  [mkPackageRepr "app"
     [providerService;
      mkServiceRepr "A" [mkInterfaceSpec "example.A" None]
        [mkReferenceSpec "b" (mkInterfaceSpec "example.B" None)] [];
      mkServiceRepr "B" [mkInterfaceSpec "example.B" None]
        [mkReferenceSpec "a" (mkInterfaceSpec "example.A" None)] []]
     []].

Definition cyclicLayer : ServiceLayer := layerOf cyclicPackages.

(** A layer that skipped the check of the constructor: X requires an
    interface that nothing provides. *)
Definition brokenPackages : list PackageRepr :=
  [mkPackageRepr "app"
     [mkServiceRepr "X" [mkInterfaceSpec "example.X" None]
        [mkReferenceSpec "missing" (mkInterfaceSpec "example.Missing" None);
         mkReferenceSpec "provider" providerSpec] [];
      providerService]
     []].

Definition brokenLayer : ServiceLayer := layerOf brokenPackages.

(** A ranking of the services along which every dependency descends: a
    checkable certificate of acyclicity. *)
Definition rankedBy (layer : ServiceLayer) (rank : nat → nat) : bool :=
  forallb
    (λ s, forallb
            (λ d, match serviceLookup layer (required d) with
                  | Found t => bool_decide (rank t < rank s)%nat
                  | _ => true
                  end)
            (dependencies (repr layer s)))
    (serviceRefs layer).

(** The store after start() on the freshly built layer. *)
Definition afterStart (fuel : nat) (layer : ServiceLayer) : World :=
  match start fuel layer (initialWorld layer) with
  | Done _ w | Throw _ w => w
  | OutOfFuel => initialWorld layer
  end.

(** The store after start() and then destroy(). *)
Definition afterDestroy (fuel : nat) (layer : ServiceLayer) : World :=
  match destroy fuel layer (afterStart fuel layer) with
  | Done _ w | Throw _ w => w
  | OutOfFuel => afterStart fuel layer
  end.

(** Package pkgA declares a consumer reference to X with qualifier v1;
    package pkgB provides it. *)
Definition qualifiedPackages : list PackageRepr :=
  [mkPackageRepr "pkgA" [] [mkInterfaceSpec "X" (Some "v1")];
   mkPackageRepr "pkgB" [mkServiceRepr "x1" [mkInterfaceSpec "X" (Some "v1")] [] []] []].

Definition qualifiedLayer : ServiceLayer := layerOf qualifiedPackages.

(** The store after [destroyService(s)] on the store start() left. *)
Definition afterDestroyOf (fuel : nat) (layer : ServiceLayer) (s : nat) : World :=
  match destroyService fuel layer s (afterStart fuel layer) with
  | Done _ w | Throw _ w => w
  | OutOfFuel => afterStart fuel layer
  end.

(** The store after [createService(s)] in store [w]. *)
Definition afterCreate (fuel : nat) (layer : ServiceLayer) (s : nat) (w : World) : World :=
  match createService fuel layer s w with
  | Done _ w' | Throw _ w' => w'
  | OutOfFuel => w
  end.

(** What the loop of [destroy] has achieved once it has visited [pre]. *)
Definition released (layer : ServiceLayer) (w0 : World) (pre : list nat) (w : World) : Prop :=
  length (heap w) = length (allServices layer)
  ∧ shrinks w0 w
  ∧ (alivePositive w0 → alivePositive w)
  ∧ ∀ s, s ∈ pre →
      state (cell w s) = Destroyed ∨ useCount (cell w s) < useCount (cell w0 s).

(** The dependency declarations of the services whose construction has
    begun that resolve to [x]. *)
Definition startedEdges (layer : ServiceLayer) (w : World) (x : nat) : Z :=
  sumTo (length (allServices layer))
    (λ s, if decide (state (cell w s) = NotConstructed) then 0 else edges layer s x).

(** A store that destroy() clears completely: [removeRef] was never called,
    no service is destroyed, and no count exceeds one plus the number of
    dependency declarations that resolve to the service. *)
Definition balanced (layer : ServiceLayer) (w : World) : Prop :=
  (∀ i, touched w i = false)
  ∧ ∀ x, (x < length (allServices layer))%nat →
      state (cell w x) ≠ Destroyed
      ∧ useCount (cell w x) ≤ 1 + dependents layer x.

(** What construction guarantees about the counts, whether it returns or
    throws: they stay non-negative, and the count of [x] grows by no more
    than [extra] plus the declarations, resolving to [x], of the services
    whose construction began on the way. *)
Definition countedTo {A} (layer : ServiceLayer) (extra : nat → Z) (w : World)
    (out : Outcome A) : Prop :=
  match out with
  | Done _ w' | Throw _ w' =>
      (∀ i, 0 ≤ useCount (cell w' i))
      ∧ ∀ x, useCount (cell w' x)
             ≤ useCount (cell w x) + startedEdges layer w' x - startedEdges layer w x
               + extra x
  | OutOfFuel => True
  end.

(** A check that every declared dependency resolves. *)
Definition resolvedAll (layer : ServiceLayer) : bool :=
  forallb
    (λ s, forallb
            (λ d, match serviceLookup layer (required d) with
                  | Found _ => true
                  | _ => false
                  end)
            (dependencies (repr layer s)))
    (serviceRefs layer).

(** ** What the exceptions of start() report *)

(** An exception [e] raised in a store [w'] is accurate: either it is the
    cycle error and a service of a dependency cycle is under construction,
    or it is the error of [mustGet] for a declared dependency, not resolved
    by the lookup, of a service under construction. *)
Definition accurate (layer : ServiceLayer) (e : Error) (w' : World) : Prop :=
  (e = cycleError ∧ ∃ c, onCycle layer c ∧ state (cell w' c) = Constructing)
  ∨ (∃ s d, d ∈ dependencies (repr layer s)
            ∧ (∀ t, serviceLookup layer (required d) ≠ Found t)
            ∧ e = notFoundError layer (required d)
            ∧ state (cell w' s) = Constructing).

(** The declared dependencies of every constructed service resolve. *)
Definition resolvedBuilt (layer : ServiceLayer) (w : World) : Prop :=
  ∀ s, state (cell w s) = Constructed →
    ∀ d, d ∈ dependencies (repr layer s) →
      ∃ t, serviceLookup layer (required d) = Found t.

(** The store after [addRef] on each service of [refs], in order. *)
Definition addRefs (refs : list nat) (w : World) : World :=
  fold_left (λ w s, incrementRef s w) refs w.

(** X requires an interface that nothing provides; P, listed before it, is
    constructed before the construction of X fails. *)
Definition strandedPackages : list PackageRepr :=
  [mkPackageRepr "app"
     [providerService;
      mkServiceRepr "X" [mkInterfaceSpec "example.X" None]
        [mkReferenceSpec "provider" providerSpec;
         mkReferenceSpec "missing" (mkInterfaceSpec "example.Missing" None)] []]
     []].

Definition strandedLayer : ServiceLayer := layerOf strandedPackages.

(** ** Constructor calls *)

Definition isCreateOf (s : nat) (e : Event) : bool :=
  match e with
  | CallCreate s' _ _ => bool_decide (s' = s)
  | _ => false
  end.

(** The number of times the constructor of [s] was called. *)
Definition constructorCalls (s : nat) (calls : list Event) : nat :=
  length (filter (λ e, isCreateOf s e = true) calls).

(** The constructor of a service has been called once if the service is
    constructed, and never otherwise. *)
Definition constructedOnce (w : World) : Prop :=
  ∀ s, constructorCalls s (trace w)
       = if decide (state (cell w s) = Constructed) then 1%nat else 0%nat.

(** ** The calls a service receives until it is destroyed *)

Global Instance Release_eq_dec : EqDecision Release.
Proof. solve_decision. Defined.

(** [k + 1] decrements that start from the count [c], then the destructor. *)
Fixpoint countdownFrom (k : nat) (c : Z) : list Release :=
  match k with
  | O => [Decremented (c - 1); DestructorRan]
  | S k' => Decremented (c - 1) :: countdownFrom k' (c - 1)
  end.

(** What a service that holds the count [c] receives from [destroyService]
    until it is destroyed: decrements that return [c - 1], [c - 2], ... down
    to the first result that is not positive, and then its destructor.  A
    count of 3 gives the results 2, 1 and 0; a count of 0 gives -1. *)
Definition countdown (c : Z) : list Release := countdownFrom (Z.to_nat (c - 1)) c.

(** What [destroyService] still has to call on [s] in the store [w]. *)
Definition remaining (w : World) (s : nat) : list Release :=
  if decide (state (cell w s) = Destroyed) then [] else countdown (useCount (cell w s)).

(** The number of destructor runs in a list of releases. *)
Definition destructorRuns (l : list Release) : nat :=
  length (filter (λ r, r = DestructorRan) l).

(** A service that is not constructed holds no reference. *)
Definition idle (w : World) : Prop :=
  ∀ s, state (cell w s) ≠ Constructed → useCount (cell w s) = 0.

(** C, then B, which requires C, then A, which requires B: a chain, listed
    from its end. *)
Definition chainPackages : list PackageRepr :=
  [mkPackageRepr "app"
     [mkServiceRepr "C" [mkInterfaceSpec "example.C" None] [] [];
      mkServiceRepr "B" [mkInterfaceSpec "example.B" None]
        [mkReferenceSpec "c" (mkInterfaceSpec "example.C" None)] [];
      mkServiceRepr "A" [mkInterfaceSpec "example.A" None]
        [mkReferenceSpec "b" (mkInterfaceSpec "example.B" None)] []]
     []].

Definition chainLayer : ServiceLayer := layerOf chainPackages.

(** The store after destroy() in store [w]. *)
Definition afterCleanup (fuel : nat) (layer : ServiceLayer) (w : World) : World :=
  match destroy fuel layer w with
  | Done _ w' | Throw _ w' => w'
  | OutOfFuel => w
  end.

(** ** The record of references *)

(** The last entry of [deps] declared under the reference name [key].  The
    loop of [createService] assigns [instances[d.referenceName]] for each
    entry in turn, so a later entry overwrites an earlier one of the same
    name. *)
Fixpoint lastNamed (key : string) (deps : list ReferenceSpec) : option ReferenceSpec :=
  match deps with
  | [] => None
  | d :: rest =>
      match lastNamed key rest with
      | Some d' => Some d'
      | None => if decide (referenceName d = key) then Some d else None
      end
  end.

(** The instance of the service that [d] resolves to. *)
Definition resolvedInstance (layer : ServiceLayer) (w : World) (d : ReferenceSpec)
    : option Instance :=
  match serviceLookup layer (required d) with
  | Found t => instance (cell w t)
  | _ => None
  end.

(** The first recorded call of the constructor of [s]. *)
Fixpoint constructorCall (s : nat) (calls : list Event) : option (ServiceOptions * Instance) :=
  match calls with
  | [] => None
  | CallCreate s' options result :: rest =>
      if bool_decide (s' = s) then Some (options, result) else constructorCall s rest
  | _ :: rest => constructorCall s rest
  end.

(** S declares two dependencies under the same reference name: the first
    resolves to P, the second to Q. *)
Definition shadowPackages : list PackageRepr :=
  [mkPackageRepr "app"
     [providerService;
      mkServiceRepr "Q" [mkInterfaceSpec "example.Q" None] [] [];
      mkServiceRepr "S" [mkInterfaceSpec "example.S" None]
        [mkReferenceSpec "dep" providerSpec;
         mkReferenceSpec "dep" (mkInterfaceSpec "example.Q" None);
         mkReferenceSpec "provider" providerSpec]
        [("mode", "test")]]
     []].

Definition shadowLayer : ServiceLayer := layerOf shadowPackages.

(** ** Packages that share a name *)

(** The last package of [packages] called [packageName]:
    [buildDependencyIndex] does [index.set(packageName, packageEntry)] for
    each package in turn, so a later package replaces the entry of an
    earlier one of the same name. *)
Fixpoint lastPackage (packageName : string) (packages : list PackageRepr) : option PackageRepr :=
  match packages with
  | [] => None
  | pkg :: rest =>
      match lastPackage packageName rest with
      | Some pkg' => Some pkg'
      | None => if decide (name pkg = packageName) then Some pkg else None
      end
  end.

(** Two packages called pkgA: the first declares a consumer reference to X,
    the second one to Y. *)
Definition duplicatePackages : list PackageRepr :=
  [mkPackageRepr "pkgA" [] [mkInterfaceSpec "X" None];
   mkPackageRepr "pkgB" [mkServiceRepr "x" [mkInterfaceSpec "X" None] [] [];
                         mkServiceRepr "y" [mkInterfaceSpec "Y" None] [] []] [];
   mkPackageRepr "pkgA" [] [mkInterfaceSpec "Y" None]].

Definition duplicateLayer : ServiceLayer := layerOf duplicatePackages.

(** The store after [destroyService(s)] in store [w]. *)
Definition afterRelease (fuel : nat) (layer : ServiceLayer) (s : nat) (w : World) : World :=
  match destroyService fuel layer s w with
  | Done _ w' | Throw _ w' => w'
  | OutOfFuel => w
  end.

(** ** The order of destruction *)

(** No service that has a dependency is itself a dependency of a service:
    the dependency graph has no path of two steps. *)
Definition flat (layer : ServiceLayer) : Prop :=
  ∀ s t u, dependsOn layer s t → ¬ dependsOn layer u s.

(** The dependency declarations, resolving to [x], of the services that are
    not destroyed. *)
Definition liveEdges (layer : ServiceLayer) (w : World) (x : nat) : Z :=
  sumTo (length (allServices layer))
    (λ s, if decide (state (cell w s) = Destroyed) then 0 else edges layer s x).

(** In the record of calls, the destructor of a service is called only
    after the destructors of all the services that depend on it. *)
Definition dependentsFirst (layer : ServiceLayer) (calls : list Event) : Prop :=
  ∀ k t s, calls !! k = Some (CallDestroy t) → dependsOn layer s t →
    ∃ j, (j < k)%nat ∧ calls !! j = Some (CallDestroy s).

(** The store during destroy() on a flat layer: a service that is not
    destroyed holds one reference for each declaration of a live service
    that resolves to it and one for each call of [destroyService] that is
    still [pending] for it; the destructors called so far came in order; and
    the destructor of every destroyed service was called. *)
Definition orderly (layer : ServiceLayer) (pending : nat → Z) (w : World) : Prop :=
  (∀ t, (t < length (allServices layer))%nat → state (cell w t) ≠ Destroyed →
        useCount (cell w t) = liveEdges layer w t + pending t)
  ∧ dependentsFirst layer (trace w)
  ∧ ∀ s, state (cell w s) = Destroyed → CallDestroy s ∈ trace w.

(** A check that no declared dependency of [t] resolves. *)
Definition isLeaf (layer : ServiceLayer) (t : nat) : bool :=
  forallb
    (λ d, match serviceLookup layer (required d) with
          | Found _ => false
          | _ => true
          end)
    (dependencies (repr layer t)).

(** A check that every resolved dependency is a leaf: a checkable
    certificate of flatness. *)
Definition flatChecked (layer : ServiceLayer) : bool :=
  forallb
    (λ u, forallb
            (λ d, match serviceLookup layer (required d) with
                  | Found s => isLeaf layer s
                  | _ => true
                  end)
            (dependencies (repr layer u)))
    (serviceRefs layer).

(** ** Sessions *)

(** The calls a client can make on a layer. *)
Inductive Request :=
| RequestStart
| RequestDestroy
| RequestService (packageName : string) (spec : InterfaceSpec).

(** The store a call leaves, whether it returned or threw. *)
Definition storeOf {A} (out : Outcome A) : option World :=
  match out with
  | Done _ w | Throw _ w => Some w
  | OutOfFuel => None
  end.

(** [session layer requests w w']: the requests, made one after the other
    from the store [w], leave the store [w'].  An exception ends a call, not
    the session: the next request finds the store as the exception left
    it. *)
Inductive session (layer : ServiceLayer) : list Request → World → World → Prop :=
| session_done w :
    session layer [] w w
| session_start fuel rest w w1 w' :
    storeOf (start fuel layer w) = Some w1 →
    session layer rest w1 w' →
    session layer (RequestStart :: rest) w w'
| session_destroy fuel rest w w1 w' :
    storeOf (destroy fuel layer w) = Some w1 →
    session layer rest w1 w' →
    session layer (RequestDestroy :: rest) w w'
| session_service packageName spec rest w w1 w' :
    storeOf (getService layer packageName spec w) = Some w1 →
    session layer rest w1 w' →
    session layer (RequestService packageName spec :: rest) w w'.

(** The states of a service and of the layer, in the order of the life
    cycle. *)
Definition stateRank (s : ServiceState) : nat :=
  match s with
  | NotConstructed => 0
  | Constructing => 1
  | Constructed => 2
  | Destroyed => 3
  end.

Definition layerRank (s : LayerState) : nat :=
  match s with
  | NotStarted => 0
  | Started => 1
  | LayerDestroyed => 2
  end.

(** The constructor of a service was called at most once, and never while
    the service is not constructed or under construction. *)
Definition calledOnce (w : World) : Prop :=
  ∀ s, (constructorCalls s (trace w) ≤ 1)%nat
       ∧ (state (cell w s) = NotConstructed ∨ state (cell w s) = Constructing →
          constructorCalls s (trace w) = 0%nat).

(** The destructor of a service was called once if the service is
    destroyed, and never otherwise. *)
Definition destroyedOnce (w : World) : Prop :=
  ∀ s, destructorCalls s (trace w)
       = if decide (state (cell w s) = Destroyed) then 1%nat else 0%nat.

(** start() throws, the client tries again, gives up and calls destroy()
    twice. *)
Definition strandedRequests : list Request :=
  [RequestService "app" providerSpec; RequestStart; RequestStart;
   RequestDestroy; RequestStart; RequestDestroy].

(** The store a request leaves when it is made with the given fuel. *)
Definition answer (fuel : nat) (layer : ServiceLayer) (request : Request) (w : World)
    : option World :=
  match request with
  | RequestStart => storeOf (start fuel layer w)
  | RequestDestroy => storeOf (destroy fuel layer w)
  | RequestService packageName spec => storeOf (getService layer packageName spec w)
  end.

(** The store after a list of requests, when the fuel suffices for each. *)
Fixpoint afterRequests (fuel : nat) (layer : ServiceLayer) (requests : list Request)
    (w : World) : option World :=
  match requests with
  | [] => Some w
  | request :: rest =>
      match answer fuel layer request w with
      | Some w1 => afterRequests fuel layer rest w1
      | None => None
      end
  end.

(** The store after the requests of [strandedRequests] on the layer of
    [strandedPackages]. *)
Definition afterStranded : World :=
  default (initialWorld strandedLayer)
    (afterRequests 4 strandedLayer strandedRequests (initialWorld strandedLayer)).

(** Q and P are constructed, then the construction of X fails on its
    second dependency; nothing depends on Q. *)
Definition leakingPackages : list PackageRepr :=
  [mkPackageRepr "app"
     [mkServiceRepr "Q" [mkInterfaceSpec "example.Q" None] [] [];
      providerService;
      mkServiceRepr "X" [mkInterfaceSpec "example.X" None]
        [mkReferenceSpec "provider" providerSpec;
         mkReferenceSpec "missing" (mkInterfaceSpec "example.Missing" None)] []]
     []].

Definition leakingLayer : ServiceLayer := layerOf leakingPackages.

(** The store after a first start() and a second one. *)
Definition afterRetry (fuel : nat) (layer : ServiceLayer) : World :=
  match start fuel layer (afterStart fuel layer) with
  | Done _ w | Throw _ w => w
  | OutOfFuel => afterStart fuel layer
  end.

(** The store after a first start(), a second one and destroy(). *)
Definition afterLeak (fuel : nat) (layer : ServiceLayer) : World :=
  match destroy fuel layer (afterRetry fuel layer) with
  | Done _ w | Throw _ w => w
  | OutOfFuel => afterRetry fuel layer
  end.

(** ** A reference name declared twice *)

(** S1 declares P and then Q under the same reference name; S2 declares P. *)
Definition replacedPackages : list PackageRepr :=
  [mkPackageRepr "app"
     [providerService;
      mkServiceRepr "Q" [mkInterfaceSpec "example.Q" None] [] [];
      mkServiceRepr "S1" [mkInterfaceSpec "example.S1" None]
        [mkReferenceSpec "dep" providerSpec;
         mkReferenceSpec "dep" (mkInterfaceSpec "example.Q" None)]
        [];
      mkServiceRepr "S2" [mkInterfaceSpec "example.S2" None]
        [mkReferenceSpec "dep" providerSpec]
        []]
     []].

Definition replacedLayer : ServiceLayer := layerOf replacedPackages.

(** S declares P under the reference name [__proto__], and Q under the
    name [q]. *)
Definition protoPackages : list PackageRepr :=
  [mkPackageRepr "app"
     [providerService;
      mkServiceRepr "Q" [mkInterfaceSpec "example.Q" None] [] [];
      mkServiceRepr "S" [mkInterfaceSpec "example.S" None]
        [mkReferenceSpec "__proto__" providerSpec;
         mkReferenceSpec "q" (mkInterfaceSpec "example.Q" None)]
        []]
     []].

Definition protoLayer : ServiceLayer := layerOf protoPackages.

(** ** A dependent that is itself depended on *)



(** The calls of [removeRef] and of destructors in a record of calls. *)
Definition isTeardownCall (e : Event) : bool :=
  match e with
  | CallRemoveRef _ _ | CallDestroy _ => true
  | _ => false
  end.

Definition teardownCalls (calls : list Event) : list Event :=
  filter (λ e, isTeardownCall e = true) calls.

(** The store of the layer of X and P after P alone was constructed. *)
Definition providedWorld : World :=
  afterCreate 2 brokenLayer (refOf brokenLayer "P") (initialWorld brokenLayer).

(** * Properties *)

(** ** The walks compute what the big-step relations describe *)

Lemma bind_eq {A B} (m : Action A) (k : A → Action B) w :
  bind m k w =
  match m w with
  | Done a w' => k a w'
  | Throw e w' => Throw e w'
  | OutOfFuel => OutOfFuel
  end.
Proof. reflexivity. Qed.

Section Soundness.
Context (layer : ServiceLayer).

Lemma injectDependency_eq (construct : nat → Action Instance) acc d w :
  injectDependency construct layer acc d w =
  match serviceLookup layer (required d) with
  | Found t =>
      match construct t w with
      | Done inst w' => Done (assignReference (referenceName d) inst acc) w'
      | Throw e w' => Throw e w'
      | OutOfFuel => OutOfFuel
      end
  | _ => Throw (notFoundError layer (required d)) w
  end.
Proof.
  unfold injectDependency, mustGet, notFoundError. rewrite bind_eq.
  by destruct (serviceLookup layer (required d)).
Qed.

Lemma forEachAcc_injects fuel :
  (∀ s w, createService fuel layer s w = OutOfFuel
          ∨ creates layer s w (createService fuel layer s w)) →
  ∀ deps acc w,
    forEachAcc deps (injectDependency (createService fuel layer) layer) acc w = OutOfFuel
    ∨ injects layer deps acc w
        (forEachAcc deps (injectDependency (createService fuel layer) layer) acc w).
Proof.
  intros IH deps. induction deps as [|d rest IHrest]; intros acc w.
  - right. constructor.
  - cbn [forEachAcc]. rewrite bind_eq, injectDependency_eq.
    destruct (serviceLookup layer (required d)) as [t| |] eqn:Hlook.
    + destruct (IH t w) as [Hout|Hc].
      * rewrite Hout. by left.
      * destruct (createService fuel layer t w) as [inst w'|e w'|] eqn:Hcall.
        -- destruct (IHrest (assignReference (referenceName d) inst acc) w') as [Hout|Hrest].
           ++ by left.
           ++ right. eapply injects_step; eauto.
        -- right. eapply injects_throw; eauto.
        -- by left.
    + right. apply injects_unresolved. intros t. congruence.
    + right. apply injects_unresolved. intros t. congruence.
Qed.

Lemma createService_creates fuel s w :
  createService fuel layer s w = OutOfFuel
  ∨ creates layer s w (createService fuel layer s w).
Proof.
  revert s w. induction fuel as [|fuel IH]; intros s w; [by left|].
  cbn [createService]. rewrite bind_eq. unfold getState.
  destruct (state (cell w s)) eqn:Hst.
  - rewrite bind_eq. unfold beforeCreate, perform. rewrite bind_eq.
    destruct (forEachAcc_injects fuel IH (dependencies (repr layer s)) ∅
                (markConstructing s w)) as [Hout|Hinj].
    + rewrite Hout. by left.
    + destruct (forEachAcc _ _ _ (markConstructing s w)) as [instances w'|e w'|] eqn:Hloop.
      * right. by apply creates_new.
      * right. by apply creates_failed.
      * by left.
  - right. by apply creates_cycle.
  - right. rewrite bind_eq. unfold getInstanceOrThrow.
    destruct (instance (cell w s)) as [inst|] eqn:Hinst.
    + by apply creates_shared.
    + by apply creates_absent.
  - right. by apply creates_invalid.
Qed.

Lemma releaseDependency_eq (destruct : nat → Action unit) d w :
  releaseDependency destruct layer d w =
  match serviceLookup layer (required d) with
  | Found t => destruct t w
  | _ => Done tt w
  end.
Proof. unfold releaseDependency. by destruct (serviceLookup layer (required d)). Qed.

Lemma forEach_releases fuel :
  (∀ s w, destroysTo layer s w (destroyService fuel layer s w)) →
  ∀ deps w,
    releasesTo layer deps w
      (forEach deps (releaseDependency (destroyService fuel layer) layer) w).
Proof.
  intros IH deps. induction deps as [|d rest IHrest]; intros w.
  - constructor.
  - cbn [forEach]. rewrite bind_eq, releaseDependency_eq.
    destruct (serviceLookup layer (required d)) as [t| |] eqn:Hlook.
    + specialize (IH t w).
      destruct (destroyService fuel layer t w) as [[] w1|e w1|]; [|done..].
      specialize (IHrest w1).
      destruct (forEach rest _ w1) as [[] w'|e w'|]; [|done..].
      eapply releases_step; eauto.
    + specialize (IHrest w).
      destruct (forEach rest _ w) as [[] w'|e w'|]; [|done..].
      apply releases_skip; [congruence|done].
    + specialize (IHrest w).
      destruct (forEach rest _ w) as [[] w'|e w'|]; [|done..].
      apply releases_skip; [congruence|done].
Qed.

Lemma release_eq s w :
  (let* n := removeRef s in
   if decide (n ≤ 0) then destroyRepr s else ret tt) w = Done tt (release s w).
Proof.
  rewrite bind_eq. unfold removeRef, release.
  by destruct (decide (useCount (cell w s) - 1 ≤ 0)).
Qed.

Lemma destroyService_destroys fuel s w :
  destroysTo layer s w (destroyService fuel layer s w).
Proof.
  revert s w. induction fuel as [|fuel IH]; intros s w; [done|].
  cbn [destroyService]. rewrite bind_eq. unfold getState.
  assert (Hlive : state (cell w s) ≠ Destroyed →
    destroysTo layer s w
      (((let* n := removeRef s in
         if decide (n ≤ 0) then destroyRepr s else ret tt) ;;
        forEach (dependencies (repr layer s))
          (releaseDependency (destroyService fuel layer) layer)) w)).
  { intros Hst. rewrite bind_eq, release_eq.
    pose proof (forEach_releases fuel IH (dependencies (repr layer s)) (release s w)) as Hloop.
    destruct (forEach _ _ (release s w)) as [[] w'|e w'|]; [|done..].
    by apply destroys_live. }
  destruct (state (cell w s)) eqn:Hst; try (apply Hlive; congruence).
  by apply destroys_gone.
Qed.
End Soundness.

(** ** Cells under the methods of a service object *)

Lemma sum_list_with_insert {A} (f : A → nat) (l : list A) i x y :
  l !! i = Some x →
  (sum_list_with f (<[i:=y]> l) + f x = sum_list_with f l + f y)%nat.
Proof.
  revert i. induction l as [|a l IH]; intros [|i] Hi; simplify_eq/=; [lia|].
  specialize (IH i Hi). lia.
Qed.

Lemma cell_setCell_ne s c w i : i ≠ s → cell (setCell s c w) i = cell w i.
Proof. intros Hne. unfold cell, setCell; simpl. by rewrite list_lookup_insert_ne. Qed.

Lemma cell_setCell_eq s c w :
  (s < length (heap w))%nat → cell (setCell s c w) s = c.
Proof. intros Hlt. unfold cell, setCell; simpl. by rewrite list_lookup_insert_eq. Qed.

Lemma cell_lookup w s :
  (s < length (heap w))%nat → heap w !! s = Some (cell w s).
Proof.
  intros Hlt. unfold cell. destruct (lookup_lt_is_Some_2 _ _ Hlt) as [c Hc]. by rewrite Hc.
Qed.

Lemma cell_outside w s :
  (length (heap w) ≤ s)%nat → cell w s = initialCell.
Proof. intros Hge. unfold cell. by rewrite lookup_ge_None_2. Qed.

Section Methods.
Context (s : nat) (w : World).

Lemma markConstructing_ne i : i ≠ s → cell (markConstructing s w) i = cell w i.
Proof. apply cell_setCell_ne. Qed.
Lemma construct_ne o i : i ≠ s → cell (construct s o w) i = cell w i.
Proof. intros Hne. unfold cell, construct; simpl. by rewrite list_lookup_insert_ne. Qed.
Lemma incrementRef_ne i : i ≠ s → cell (incrementRef s w) i = cell w i.
Proof. apply cell_setCell_ne. Qed.
Lemma decrementRef_ne i : i ≠ s → cell (decrementRef s w) i = cell w i.
Proof. apply cell_setCell_ne. Qed.
Lemma markDestroyed_ne i : i ≠ s → cell (markDestroyed s w) i = cell w i.
Proof. apply cell_setCell_ne. Qed.

Context (Hs : (s < length (heap w))%nat).

Lemma markConstructing_eq :
  cell (markConstructing s w) s =
  {| state := Constructing; useCount := useCount (cell w s); instance := instance (cell w s) |}.
Proof. by apply cell_setCell_eq. Qed.
Lemma construct_eq o :
  cell (construct s o w) s =
  {| state := Constructed; useCount := 1; instance := Some (nextInstance w) |}.
Proof. unfold cell, construct; simpl. by rewrite list_lookup_insert_eq. Qed.
Lemma incrementRef_eq :
  cell (incrementRef s w) s =
  {| state := state (cell w s); useCount := useCount (cell w s) + 1;
     instance := instance (cell w s) |}.
Proof. by apply cell_setCell_eq. Qed.
Lemma decrementRef_eq :
  cell (decrementRef s w) s =
  {| state := state (cell w s); useCount := useCount (cell w s) - 1;
     instance := instance (cell w s) |}.
Proof. by apply cell_setCell_eq. Qed.
Lemma markDestroyed_eq :
  cell (markDestroyed s w) s =
  {| state := Destroyed; useCount := useCount (cell w s); instance := None |}.
Proof. by apply cell_setCell_eq. Qed.
End Methods.

Lemma length_heap_setCell s c w : length (heap (setCell s c w)) = length (heap w).
Proof. apply length_insert. Qed.

Lemma notConstructedCount_setCell s c w :
  (s < length (heap w))%nat →
  (notConstructedCount (setCell s c w)
   + (if decide (state (cell w s) = NotConstructed) then 1 else 0)
   = notConstructedCount w + (if decide (state c = NotConstructed) then 1 else 0))%nat.
Proof.
  intros Hs. unfold notConstructedCount; simpl.
  apply (sum_list_with_insert
           (λ c, if decide (state c = NotConstructed) then 1%nat else 0%nat)).
  by apply cell_lookup.
Qed.

Lemma pendingReleases_setCell s c w :
  (s < length (heap w))%nat →
  (pendingReleases (setCell s c w)
   + (if decide (state (cell w s) = Destroyed) then 0
      else Z.to_nat (Z.max 1 (useCount (cell w s))))
   = pendingReleases w
     + (if decide (state c = Destroyed) then 0 else Z.to_nat (Z.max 1 (useCount c))))%nat.
Proof.
  intros Hs. unfold pendingReleases; simpl.
  apply (sum_list_with_insert
           (λ c, if decide (state c = Destroyed) then 0%nat
                 else Z.to_nat (Z.max 1 (useCount c)))).
  by apply cell_lookup.
Qed.

(** ** How construction changes the store *)

Lemma healthyCell_initial : healthyCell initialCell.
Proof. split; [done|]. intros H; discriminate H. Qed.

Lemma grows_refl w : grows w w.
Proof.
  repeat split; try done.
  intros i. destruct (state (cell w i)) eqn:Hst; try done.
  split; [congruence|]. intros H. congruence.
Qed.

Lemma grows_trans w1 w2 w3 : grows w1 w2 → grows w2 w3 → grows w1 w3.
Proof.
  intros (Hl1 & Hs1 & Hn1 & H1) (Hl2 & Hs2 & Hn2 & H2).
  repeat split; try congruence; try lia.
  intros i. specialize (H1 i). specialize (H2 i).
  destruct (state (cell w1 i)) eqn:Hst1.
  - destruct H1 as [Hnd Hc]. destruct (state (cell w2 i)) eqn:Hst2.
    + done.
    + rewrite H2. split; [congruence|]. intros H; congruence.
    + destruct H2 as (Hst3 & Hi & Hu). destruct (Hc eq_refl) as [Hsome Hpos].
      split; [congruence|]. intros _. rewrite Hi. split; [done|lia].
    + done.
  - rewrite H1 in H2. rewrite Hst1 in H2. congruence.
  - destruct H1 as (Hst2 & Hi & Hu). rewrite Hst2 in H2.
    destruct H2 as (Hst3 & Hi3 & Hu3). repeat split; [done|congruence|lia].
  - rewrite H1 in H2. rewrite Hst1 in H2. congruence.
Qed.

Lemma settled_trans w1 w2 w3 : settled w1 w2 → settled w2 w3 → settled w1 w3.
Proof. intros H1 H2 i Hi. by apply H1, H2. Qed.

Lemma grows_healthy w w' : healthy w → grows w w' → healthy w'.
Proof.
  intros Hh (_ & _ & _ & H) i. specialize (H i). specialize (Hh i).
  destruct Hh as [Hnd Hc].
  destruct (state (cell w i)) eqn:Hst; try done.
  - rewrite H. split; [congruence|]. intros; congruence.
  - destruct H as (Hst' & Hi & Hu). destruct (Hc eq_refl) as [Hsome Hpos].
    split; [congruence|]. intros _. rewrite Hi. split; [done|lia].
Qed.

Lemma grows_same_cells w w' :
  length (heap w') = length (heap w) →
  layerState w' = layerState w →
  (notConstructedCount w' ≤ notConstructedCount w)%nat →
  (∀ i, cell w' i = cell w i ∨
        (state (cell w i) = NotConstructed ∧ healthyCell (cell w' i)) ∨
        (state (cell w i) = Constructed ∧ state (cell w' i) = Constructed
         ∧ instance (cell w' i) = instance (cell w i)
         ∧ useCount (cell w i) ≤ useCount (cell w' i))) →
  grows w w'.
Proof.
  intros Hl Hs Hn H. repeat split; try done.
  intros i. destruct (H i) as [Heq|[[Hst Hh]|(Hst & Hst' & Hi & Hu)]].
  - rewrite Heq. destruct (state (cell w i)) eqn:Hst; try done.
    split; [congruence|]. intros; congruence.
  - by rewrite Hst.
  - by rewrite Hst.
Qed.

Lemma notConstructedCount_markConstructing s w :
  (s < length (heap w))%nat →
  state (cell w s) = NotConstructed →
  S (notConstructedCount (markConstructing s w)) = notConstructedCount w.
Proof.
  intros Hs Hst.
  pose proof (notConstructedCount_setCell s
    {| state := Constructing; useCount := useCount (cell w s); instance := instance (cell w s) |}
    w Hs) as H.
  rewrite Hst in H. simpl in H.
  unfold markConstructing. unfold notConstructedCount in *. simpl in *. lia.
Qed.

Lemma grows_markConstructing s w :
  state (cell w s) = NotConstructed → grows w (markConstructing s w).
Proof.
  intros Hst. destruct (decide (s < length (heap w))%nat) as [Hs|Hs].
  - apply grows_same_cells.
    + apply length_insert.
    + done.
    + pose proof (notConstructedCount_markConstructing s w Hs Hst). lia.
    + intros i. destruct (decide (i = s)) as [->|Hne].
      * right; left. split; [done|]. rewrite markConstructing_eq by done.
        split; simpl; [done|]. intros H; discriminate H.
      * left. by apply markConstructing_ne.
  - assert (heap (markConstructing s w) = heap w) as Hheap.
    { unfold markConstructing; simpl. apply list_insert_ge. lia. }
    apply grows_same_cells.
    + by rewrite Hheap.
    + done.
    + unfold notConstructedCount. by rewrite Hheap.
    + intros i. left. unfold cell. by rewrite Hheap.
Qed.

Lemma grows_incrementRef s w :
  state (cell w s) = Constructed → grows w (incrementRef s w).
Proof.
  intros Hst. destruct (decide (s < length (heap w))%nat) as [Hs|Hs].
  - apply grows_same_cells.
    + apply length_insert.
    + done.
    + pose proof (notConstructedCount_setCell s
        {| state := state (cell w s); useCount := useCount (cell w s) + 1;
           instance := instance (cell w s) |} w Hs) as H.
      unfold incrementRef. unfold notConstructedCount in *. simpl in *.
      rewrite Hst in H |- *. simpl in H. lia.
    + intros i. destruct (decide (i = s)) as [->|Hne].
      * right; right. rewrite incrementRef_eq by done. simpl. repeat split; [done..|lia].
      * left. by apply incrementRef_ne.
  - rewrite cell_outside in Hst by lia. discriminate Hst.
Qed.

Lemma grows_construct s o w0 w :
  (s < length (heap w))%nat →
  state (cell w0 s) = NotConstructed →
  state (cell w s) = Constructing →
  grows w0 w → grows w0 (construct s o w).
Proof.
  intros Hs Hst0 Hst (Hl & Hls & Hn & H).
  split; [|split; [|split]].
  - unfold construct; simpl. rewrite length_insert. done.
  - done.
  - pose proof (sum_list_with_insert
      (λ c, if decide (state c = NotConstructed) then 1%nat else 0%nat)
      (heap w) s (cell w s)
      {| state := Constructed; useCount := 1; instance := Some (nextInstance w) |}
      (cell_lookup w s Hs)) as Hsum.
    cbv beta in Hsum. rewrite Hst in Hsum. simpl in Hsum.
    unfold construct. unfold notConstructedCount in *. simpl in *. lia.
  - intros i. destruct (decide (i = s)) as [->|Hne].
    + rewrite Hst0. rewrite construct_eq by done. split; simpl; [done|].
      intros _. split; [by eexists|lia].
    + rewrite construct_ne by done. apply H.
Qed.

Section Construction.
Context (layer : ServiceLayer).
Hypothesis Hvalid : lookupValid layer.

Let n := length (allServices layer).

Lemma creates_injects_grow :
  (∀ s w out, creates layer s w out →
     length (heap w) = n → (s < n)%nat → createdOk layer s w out)
  ∧ (∀ deps acc w out, injects layer deps acc w out →
       length (heap w) = n → injectedOk layer deps w out).
Proof.
  apply creates_injects_ind.
  - (* shared *)
    intros s w inst Hst Hinst Hlen Hs. simpl.
    split; [by apply grows_incrementRef|]. split; [|split].
    + intros i. destruct (decide (i = s)) as [->|Hne].
      * rewrite incrementRef_eq by lia. simpl. congruence.
      * by rewrite incrementRef_ne.
    + rewrite incrementRef_eq by lia. done.
    + rewrite incrementRef_eq by lia. done.
  - intros s w Hst Hinst Hlen Hs. simpl. by apply grows_refl.
  - intros s w Hst Hlen Hs. simpl. by apply grows_refl.
  - intros s w Hst Hlen Hs. simpl. by apply grows_refl.
  - (* new *)
    intros s w instances w' Hst _ IH Hlen Hs.
    pose proof (grows_markConstructing s w Hst) as Hg1.
    assert (length (heap (markConstructing s w)) = n) as Hlen1.
    { destruct Hg1 as [Hl _]. lia. }
    destruct (IH Hlen1) as (Hg2 & Hset & _).
    assert (length (heap w') = n) as Hlen2.
    { destruct Hg2 as [Hl _]. lia. }
    assert (state (cell w' s) = Constructing) as Hst2.
    { destruct Hg2 as (_ & _ & _ & Hc). specialize (Hc s).
      rewrite markConstructing_eq in Hc by lia. simpl in Hc. by rewrite Hc. }
    simpl. split; [|split; [|split]].
    + apply grows_construct; [lia|done|done|]. by eapply grows_trans.
    + intros i Hi. destruct (decide (i = s)) as [->|Hne].
      * rewrite construct_eq in Hi by lia. discriminate Hi.
      * rewrite construct_ne in Hi by done. apply Hset in Hi.
        by rewrite markConstructing_ne in Hi.
    + rewrite construct_eq by lia. done.
    + rewrite construct_eq by lia. done.
  - (* failed *)
    intros s w e w' Hst _ IH Hlen Hs.
    pose proof (grows_markConstructing s w Hst) as Hg1.
    assert (length (heap (markConstructing s w)) = n) as Hlen1.
    { destruct Hg1 as [Hl _]. lia. }
    simpl. eapply grows_trans; [exact Hg1|]. by apply IH.
  - intros acc w Hlen. simpl. split; [by apply grows_refl|]. split; [by intros i|].
    constructor.
  - intros d rest acc w Hno Hlen. simpl. by apply grows_refl.
  - intros d rest acc w t e w' Hlook _ IH Hlen. simpl.
    apply IH; [done|]. by eapply Hvalid.
  - intros d rest acc w t inst w' out Hlook _ IH1 _ IH2 Hlen.
    destruct (IH1 Hlen (Hvalid _ _ Hlook)) as (Hg1 & Hset1 & Hst1 & Hinst1).
    assert (length (heap w') = n) as Hlen1.
    { destruct Hg1 as [Hl _]. lia. }
    specialize (IH2 Hlen1).
    destruct out as [acc' w''|e w''|]; simpl in *; [|by eapply grows_trans|done].
    destruct IH2 as (Hg2 & Hset2 & Hall).
    split; [by eapply grows_trans|]. split; [by eapply settled_trans|].
    constructor; [|done].
    intros t' Ht'. rewrite Hlook in Ht'. injection Ht' as <-.
    destruct Hg2 as (_ & _ & _ & Hc). specialize (Hc t). rewrite Hst1 in Hc. tauto.
Qed.
End Construction.

(** ** Construction terminates *)

Section Fuel.
Context (layer : ServiceLayer).
Hypothesis Hvalid : lookupValid layer.

Let n := length (allServices layer).

Lemma createService_grows fuel s w :
  length (heap w) = n → (s < n)%nat →
  createdOk layer s w (createService fuel layer s w).
Proof.
  intros Hlen Hs. destruct (createService_creates layer fuel s w) as [->|Hc]; [done|].
  by eapply (proj1 (creates_injects_grow layer Hvalid)).
Qed.

Lemma forEachAcc_fuel fuel :
  (∀ s w, length (heap w) = n → (s < n)%nat →
          (notConstructedCount w < fuel)%nat →
          createService fuel layer s w ≠ OutOfFuel) →
  ∀ deps acc w,
    length (heap w) = n → (notConstructedCount w < fuel)%nat →
    forEachAcc deps (injectDependency (createService fuel layer) layer) acc w ≠ OutOfFuel.
Proof.
  intros IH deps. induction deps as [|d rest IHrest]; intros acc w Hlen Hnc; [done|].
  cbn [forEachAcc]. rewrite bind_eq, injectDependency_eq.
  destruct (serviceLookup layer (required d)) as [t| |] eqn:Hlook; [|done..].
  pose proof (Hvalid _ _ Hlook) as Ht.
  pose proof (IH t w Hlen Ht Hnc) as Hfuel.
  pose proof (createService_grows fuel t w Hlen Ht) as Hok.
  destruct (createService fuel layer t w) as [inst w'|e w'|]; [|done..].
  destruct Hok as ((Hl & _ & Hn & _) & _).
  apply IHrest; [congruence|lia].
Qed.

Lemma createService_fuel fuel s w :
  length (heap w) = n → (s < n)%nat →
  (notConstructedCount w < fuel)%nat →
  createService fuel layer s w ≠ OutOfFuel.
Proof.
  revert s w. induction fuel as [|fuel IH]; intros s w Hlen Hs Hnc; [lia|].
  cbn [createService]. rewrite bind_eq. unfold getState.
  destruct (state (cell w s)) eqn:Hst; try done.
  - rewrite bind_eq. unfold beforeCreate, perform. rewrite bind_eq.
    pose proof (notConstructedCount_markConstructing s w ltac:(lia) Hst) as Hdec.
    assert (length (heap (markConstructing s w)) = n) as Hlen1.
    { unfold markConstructing; simpl. by rewrite length_insert. }
    pose proof (forEachAcc_fuel fuel IH (dependencies (repr layer s)) ∅
                  (markConstructing s w) Hlen1 ltac:(lia)) as Hloop.
    by destruct (forEachAcc _ _ _ (markConstructing s w)).
  - rewrite bind_eq. unfold getInstanceOrThrow. by destruct (instance (cell w s)).
Qed.
End Fuel.

(** ** The exceptions of construction *)

Lemma onCycle_step layer s :
  onCycle layer s → ∃ t, dependsOn layer s t ∧ onCycle layer t.
Proof.
  unfold onCycle. intros H. inversion H as [x y HR|x y z HR Htc]; subst.
  - exists s. split; [done|]. by apply tc_once.
  - exists y. split; [done|]. eapply tc_r; [exact Htc|exact HR].
Qed.

Lemma dependsOn_valid layer s t :
  dependsOn layer s t → (s < length (allServices layer))%nat.
Proof.
  intros (d & Hd & _). unfold repr in Hd.
  destruct (allServices layer !! s) as [sv|] eqn:Hs.
  - by eapply lookup_lt_Some.
  - simpl in Hd. by apply elem_of_nil in Hd.
Qed.

Section CycleError.
Context (layer : ServiceLayer).
Hypothesis Hvalid : lookupValid layer.
Hypothesis Hres : resolvable layer.

Let n := length (allServices layer).

(** The only exception of a construction over a resolvable graph is the
    cycle error, and it leaves a service of a cycle under construction. *)
Lemma creates_injects_cycle_error :
  (∀ s w out, creates layer s w out →
     length (heap w) = n → (s < n)%nat → healthy w →
     (∀ c, state (cell w c) = Constructing → tc (dependsOn layer) c s) →
     ∀ e w', out = Throw e w' →
       e = cycleError ∧ ∃ c, onCycle layer c ∧ state (cell w' c) = Constructing)
  ∧ (∀ deps acc w out, injects layer deps acc w out →
       length (heap w) = n → healthy w →
       (∀ d, d ∈ deps → ∃ t, serviceLookup layer (required d) = Found t) →
       (∀ c d t, state (cell w c) = Constructing → d ∈ deps →
                 serviceLookup layer (required d) = Found t →
                 tc (dependsOn layer) c t) →
       ∀ e w', out = Throw e w' →
         e = cycleError ∧ ∃ c, onCycle layer c ∧ state (cell w' c) = Constructing).
Proof.
  apply creates_injects_ind.
  - done.
  - intros s w Hst Hinst _ _ Hh _ e w' _.
    destruct (Hh s) as [_ Hc]. destruct (Hc Hst) as [[inst Hsome] _]. congruence.
  - intros s w Hst _ _ _ Hanc e w' [= <- <-]. split; [done|].
    exists s. split; [|done]. by apply Hanc.
  - intros s w Hst _ _ Hh _ e w' _. by destruct (Hh s) as [Hnd _].
  - done.
  - intros s w e w' Hst _ IH Hlen Hs Hh Hanc e' w'' [= <- <-].
    pose proof (grows_markConstructing s w Hst) as Hg.
    eapply (IH ltac:(destruct Hg as [Hl _]; lia)); [| | |done].
    + by eapply grows_healthy.
    + intros d Hd. by eapply Hres.
    + intros c d t Hc Hd Hlook.
      assert (dependsOn layer s t) as Hdep by (by exists d).
      destruct (decide (c = s)) as [->|Hne]; [by apply tc_once|].
      rewrite markConstructing_ne in Hc by done.
      eapply tc_r; [|exact Hdep]. by apply Hanc.
  - done.
  - intros d rest acc w Hno _ _ Hr _ e w' _.
    destruct (Hr d) as [t Ht]; [left|]. by destruct (Hno t).
  - intros d rest acc w t e w' Hlook _ IH Hlen Hh Hr Hanc e' w'' [= <- <-].
    eapply IH; [done|by eapply Hvalid|done| |done].
    intros c Hc. eapply Hanc; [done|left|done].
  - intros d rest acc w t inst w' out Hlook Hcall _ _ IH Hlen Hh Hr Hanc.
    pose proof (proj1 (creates_injects_grow layer Hvalid) _ _ _ Hcall Hlen
                  (Hvalid _ _ Hlook)) as (Hg & Hset & _).
    apply IH.
    + destruct Hg as [Hl _]. lia.
    + by eapply grows_healthy.
    + intros d' Hd'. apply Hr. by right.
    + intros c d' t' Hc Hd' Hlook'. eapply Hanc; [by apply Hset|by right|done].
Qed.

(** Over an acyclic graph construction returns. *)
Lemma createService_acyclic fuel s w :
  acyclic layer →
  length (heap w) = n → (s < n)%nat → healthy w →
  (∀ c, state (cell w c) ≠ Constructing) →
  (notConstructedCount w < fuel)%nat →
  ∃ inst w', createService fuel layer s w = Done inst w'
             ∧ createdOk layer s w (Done inst w').
Proof.
  intros Hacyclic Hlen Hs Hh Hnone Hfuel.
  pose proof (createService_fuel layer Hvalid fuel s w Hlen Hs Hfuel) as Hf.
  pose proof (createService_grows layer Hvalid fuel s w Hlen Hs) as Hok.
  destruct (createService_creates layer fuel s w) as [|Hc]; [done|].
  destruct (createService fuel layer s w) as [inst w'|e w'|] eqn:Hcall; [|exfalso|done].
  - by exists inst, w'.
  - destruct (proj1 creates_injects_cycle_error _ _ _ Hc Hlen Hs Hh
                ltac:(intros c Hc'; by destruct (Hnone c)) e w' eq_refl)
      as (_ & c & Hcycle & _).
    by apply (Hacyclic c).
Qed.
End CycleError.

(** ** Loops at the top level *)

Lemma forEach_rule {A} (I : list A → World → Prop) (E : Error → World → Prop) (O : Prop)
    (f : A → Action unit) (l : list A) :
  (∀ pre x post w, l = (pre ++ x :: post)%list → I pre w →
     match f x w with
     | Done _ w' => I (pre ++ [x])%list w'
     | Throw e w' => E e w'
     | OutOfFuel => O
     end) →
  ∀ w, I [] w →
    match forEach l f w with
    | Done _ w' => I l w'
    | Throw e w' => E e w'
    | OutOfFuel => O
    end.
Proof.
  intros Hstep.
  assert (∀ post pre w, l = (pre ++ post)%list → I pre w →
            match forEach post f w with
            | Done _ w' => I l w'
            | Throw e w' => E e w'
            | OutOfFuel => O
            end) as Hgen.
  { induction post as [|x post IH]; intros pre w Hl HI.
    - simpl. rewrite app_nil_r in Hl. by subst.
    - cbn [forEach]. rewrite bind_eq.
      specialize (Hstep pre x post w Hl HI).
      destruct (f x w) as [[] w'|e w'|]; [|done..].
      apply (IH (pre ++ [x])%list); [|done].
      by rewrite <- app_assoc. }
  intros w HI. by apply (Hgen l []).
Qed.

(** ** The layer as its constructor leaves it *)

Lemma cell_initialWorld layer i : cell (initialWorld layer) i = initialCell.
Proof.
  unfold cell, initialWorld; simpl.
  destruct (map _ (allServices layer) !! i) as [c|] eqn:Hc; [|done].
  simpl. apply list_elem_of_lookup_2, list_elem_of_In, in_map_iff in Hc.
  destruct Hc as (x & Hx & _). by rewrite Hx.
Qed.

Lemma length_initialWorld layer :
  length (heap (initialWorld layer)) = length (allServices layer).
Proof. unfold initialWorld; simpl. apply length_map. Qed.

Lemma healthy_initialWorld layer : healthy (initialWorld layer).
Proof. intros i. rewrite cell_initialWorld. apply healthyCell_initial. Qed.

Lemma notConstructedCount_initialWorld layer :
  notConstructedCount (initialWorld layer) = length (allServices layer).
Proof.
  unfold notConstructedCount, initialWorld; simpl.
  induction (allServices layer) as [|s l IH]; simpl; [done|]. by rewrite IH.
Qed.

Lemma providersFrom_bound all spec k i :
  i ∈ providersFrom k all spec → (k ≤ i < k + length all)%nat.
Proof.
  revert k. induction all as [|s rest IH]; intros k Hi; simpl in *.
  - by apply elem_of_nil in Hi.
  - case_bool_decide.
    + apply elem_of_cons in Hi as [->|Hi]; [lia|]. apply IH in Hi. lia.
    + apply IH in Hi. lia.
Qed.

Lemma lookupIn_valid all spec t :
  lookupIn all spec = Found t → (t < length all)%nat.
Proof.
  unfold lookupIn. intros H.
  destruct (providersFrom 0 all spec) as [|i [|j l]] eqn:Hp; try done.
  injection H as <-.
  assert (i ∈ providersFrom 0 all spec) as Hi by (rewrite Hp; left).
  apply providersFrom_bound in Hi. lia.
Qed.

Lemma newServiceLayer_inr packages layer :
  newServiceLayer packages = inr layer →
  allServices layer = flat_map services packages
  ∧ serviceLookup layer = lookupIn (allServices layer)
  ∧ declaredDependencies layer = buildDependencyIndex packages
  ∧ lookupValid layer
  ∧ resolvable layer.
Proof.
  unfold newServiceLayer, verifyDependencies. intros H.
  destruct (filter _ _) as [|bad l] eqn:Hfilter; [|done].
  injection H as <-. simpl. repeat split.
  - intros spec t Ht. by eapply lookupIn_valid.
  - intros s d Hd. unfold repr in Hd; simpl in Hd.
    destruct (flat_map services packages !! s) as [sv|] eqn:Hsv; simpl in Hd;
      [|by apply elem_of_nil in Hd].
    assert (¬ resolves (flat_map services packages) (required d) = false) as Hr.
    { intros Hbad. eapply filter_nil_not_elem_of; [exact Hfilter|exact Hbad|].
      apply elem_of_app. left. apply list_elem_of_In, in_flat_map.
      exists sv. split.
      - apply list_elem_of_In. by eapply list_elem_of_lookup_2.
      - apply in_map. by apply list_elem_of_In. }
    unfold resolves in Hr.
    destruct (lookupIn (flat_map services packages) (required d)) as [t| |] eqn:Hl;
      [|done..].
    exists t. exact Hl.
Qed.

(** ** Construction over a graph with a cycle *)

Section Cyclic.
Context (layer : ServiceLayer).
Hypothesis Hvalid : lookupValid layer.
Hypothesis Hres : resolvable layer.

Let n := length (allServices layer).

Lemma creates_injects_cycleFree :
  (∀ s w out, creates layer s w out →
     length (heap w) = n → (s < n)%nat → cycleFree layer w → keepsCycleFree layer out)
  ∧ (∀ deps acc w out, injects layer deps acc w out →
       length (heap w) = n → cycleFree layer w → keepsCycleFree layer out).
Proof.
  apply creates_injects_ind.
  - intros s w inst Hst Hinst Hlen Hs Hfree x Hx. simpl.
    destruct (Hfree x Hx) as [Hsx Htr].
    assert (x ≠ s) as Hne by congruence.
    split.
    + by rewrite incrementRef_ne.
    + intros o r Hin. unfold incrementRef in Hin; simpl in Hin.
      apply elem_of_app in Hin as [Hin|Hin]; [by eapply Htr|].
      by apply list_elem_of_singleton in Hin.
  - done.
  - done.
  - done.
  - intros s w instances w' Hst Hloop IH Hlen Hs Hfree.
    pose proof (grows_markConstructing s w Hst) as Hg1.
    assert (length (heap (markConstructing s w)) = n) as Hlen1
      by (destruct Hg1 as [Hl _]; lia).
    assert (cycleFree layer (markConstructing s w)) as Hfree1.
    { intros x Hx. destruct (Hfree x Hx) as [Hsx Htr]. split.
      - destruct (decide (x = s)) as [->|Hne].
        + rewrite markConstructing_eq by lia. done.
        + by rewrite markConstructing_ne.
      - intros o r Hin. unfold markConstructing in Hin; simpl in Hin.
        apply elem_of_app in Hin as [Hin|Hin]; [by eapply Htr|].
        by apply list_elem_of_singleton in Hin. }
    specialize (IH Hlen1 Hfree1). simpl in IH.
    destruct (proj2 (creates_injects_grow layer Hvalid) _ _ _ _ Hloop Hlen1)
      as (Hg2 & _ & Hall).
    assert (¬ onCycle layer s) as Hnot.
    { intros Hcyc. destruct (onCycle_step layer s Hcyc) as (t & (d & Hd & Hlook) & Ht).
      rewrite Forall_forall in Hall.
      destruct (IH t Ht) as [Hnc _]. apply Hnc. by eapply Hall. }
    intros x Hx. simpl. destruct (IH x Hx) as [Hsx Htr].
    assert (x ≠ s) as Hne by (intros ->; done).
    split.
    + by rewrite construct_ne.
    + intros o r Hin. unfold construct in Hin; simpl in Hin.
      apply elem_of_app in Hin as [Hin|Hin]; [by eapply Htr|].
      apply list_elem_of_singleton in Hin. congruence.
  - intros s w e w' Hst Hloop IH Hlen Hs Hfree.
    pose proof (grows_markConstructing s w Hst) as Hg1.
    apply IH; [destruct Hg1 as [Hl _]; lia|].
    intros x Hx. destruct (Hfree x Hx) as [Hsx Htr]. split.
    + destruct (decide (x = s)) as [->|Hne].
      * rewrite markConstructing_eq by lia. done.
      * by rewrite markConstructing_ne.
    + intros o r Hin. unfold markConstructing in Hin; simpl in Hin.
      apply elem_of_app in Hin as [Hin|Hin]; [by eapply Htr|].
      by apply list_elem_of_singleton in Hin.
  - done.
  - done.
  - intros d rest acc w t e w' Hlook _ IH Hlen Hfree.
    apply IH; [done|by eapply Hvalid|done].
  - intros d rest acc w t inst w' out Hlook Hcall IH1 _ IH2 Hlen Hfree.
    pose proof (proj1 (creates_injects_grow layer Hvalid) _ _ _ Hcall Hlen
                  (Hvalid _ _ Hlook)) as (Hg & _).
    apply IH2; [destruct Hg as [Hl _]; lia|].
    by apply (IH1 Hlen (Hvalid _ _ Hlook) Hfree).
Qed.
End Cyclic.

(** ** start() on a freshly built layer *)

Section Start.
Context (layer : ServiceLayer).
Hypothesis Hvalid : lookupValid layer.
Hypothesis Hres : resolvable layer.

Let n := length (allServices layer).

(** What holds between two calls of the loop of start(). *)
Let steady (fuel : nat) (pre : list nat) (w : World) : Prop :=
  length (heap w) = n ∧ healthy w
  ∧ (∀ c, state (cell w c) ≠ Constructing)
  ∧ (notConstructedCount w < fuel)%nat
  ∧ cycleFree layer w
  ∧ layerState w = NotStarted
  ∧ ∀ s, s ∈ pre → state (cell w s) = Constructed.

(** What holds when the loop of start() throws. *)
Let failed (e : Error) (w : World) : Prop :=
  e = cycleError ∧ layerState w = NotStarted ∧ cycleFree layer w
  ∧ ∃ c, onCycle layer c ∧ state (cell w c) = Constructing.

Lemma start_step fuel pre x post w :
  serviceRefs layer = (pre ++ x :: post)%list →
  steady fuel pre w →
  match (createService fuel layer x ;; ret tt) w with
  | Done _ w' => steady fuel (pre ++ [x])%list w'
  | Throw e w' => failed e w'
  | OutOfFuel => False
  end.
Proof.
  intros Hsplit (Hl1 & Hh1 & Hn1 & Hf1 & Hc1 & Hls1 & Hpre).
  assert (x < n)%nat as Hx.
  { assert (x ∈ serviceRefs layer) as Hin
      by (rewrite Hsplit; apply elem_of_app; right; left).
    apply elem_of_seq in Hin. unfold n. lia. }
  rewrite bind_eq.
  pose proof (createService_fuel layer Hvalid fuel x w Hl1 Hx Hf1) as Hf.
  pose proof (createService_grows layer Hvalid fuel x w Hl1 Hx) as Hok.
  destruct (createService_creates layer fuel x w) as [|Hc]; [done|].
  pose proof (proj1 (creates_injects_cycleFree layer Hvalid) _ _ _ Hc Hl1 Hx Hc1)
    as Hkeep.
  pose proof (proj1 (creates_injects_cycle_error layer Hvalid Hres) _ _ _ Hc Hl1 Hx Hh1)
    as Herr.
  destruct (createService fuel layer x w) as [inst w2|e w2|]; [| |done].
  - destruct Hok as (Hg & Hset & Hst & _). cbn [ret].
    split; [destruct Hg as [Hl _]; lia|].
    split; [by eapply grows_healthy|].
    split; [intros c Hc'; by eapply Hn1, Hset|].
    split; [destruct Hg as (_ & _ & Hn & _); lia|].
    split; [done|].
    split; [destruct Hg as (_ & Hl & _); congruence|].
    intros s Hs. apply elem_of_app in Hs as [Hs|Hs].
    + destruct Hg as (_ & _ & _ & Hcell). specialize (Hcell s).
      rewrite (Hpre s Hs) in Hcell. tauto.
    + apply list_elem_of_singleton in Hs. by subst.
  - destruct (Herr ltac:(intros c Hc'; by destruct (Hn1 c)) e w2 eq_refl)
      as [-> Hcyc].
    split; [done|]. split; [destruct Hok as (_ & Hl & _); congruence|].
    split; [done|done].
Qed.

(** start() either constructs every service, or throws the cycle error and
    leaves a service of a cycle under construction. *)
Lemma start_from fuel w :
  length (heap w) = n → healthy w →
  (∀ c, state (cell w c) ≠ Constructing) →
  cycleFree layer w →
  layerState w = NotStarted →
  (notConstructedCount w < fuel)%nat →
  (∃ w', start fuel layer w = Done tt w'
         ∧ layerState w' = Started
         ∧ length (heap w') = n
         ∧ cycleFree layer w'
         ∧ ∀ s, (s < n)%nat →
             state (cell w' s) = Constructed ∧ 1 ≤ useCount (cell w' s))
  ∨ (∃ w', start fuel layer w = Throw cycleError w'
           ∧ layerState w' = NotStarted
           ∧ cycleFree layer w'
           ∧ ∃ c, onCycle layer c ∧ state (cell w' c) = Constructing).
Proof.
  intros Hlen Hh Hnone Hfree Hls Hfuel.
  unfold start. rewrite bind_eq. unfold getLayerState. rewrite Hls.
  destruct (decide (NotStarted ≠ NotStarted)) as [?|_]; [done|].
  rewrite bind_eq.
  pose proof (forEach_rule (steady fuel) failed False
                (λ value, createService fuel layer value ;; ret tt)
                (serviceRefs layer) (start_step fuel) w) as Hloop.
  assert (steady fuel [] w) as Hinit.
  { do 6 (split; [done|]). intros s Hs. by apply elem_of_nil in Hs. }
  specialize (Hloop Hinit).
  destruct (forEach (serviceRefs layer) _ w) as [[] w'|e w'|] eqn:Hrun; [| |done].
  - left. destruct Hloop as (Hlen' & Hh' & _ & _ & Hfree' & _ & Hall).
    eexists. split; [reflexivity|]. do 3 (split; [done|]).
    intros s Hs.
    assert (state (cell w' s) = Constructed) as Hst.
    { apply Hall. apply elem_of_seq. unfold n in Hs. lia. }
    split; [done|]. destruct (Hh' s) as [_ Hc]. by destruct (Hc Hst).
  - right. destruct Hloop as (-> & Hls' & Hfree' & Hcyc). by exists w'.
Qed.

Lemma start_acyclic_from fuel w :
  acyclic layer →
  length (heap w) = n → healthy w →
  (∀ c, state (cell w c) ≠ Constructing) →
  layerState w = NotStarted →
  (notConstructedCount w < fuel)%nat →
  ∃ w', start fuel layer w = Done tt w'
        ∧ layerState w' = Started
        ∧ length (heap w') = n
        ∧ ∀ s, (s < n)%nat →
            state (cell w' s) = Constructed ∧ 1 ≤ useCount (cell w' s).
Proof.
  intros Hacyclic Hlen Hh Hnone Hls Hfuel.
  destruct (start_from fuel w Hlen Hh Hnone ltac:(intros s Hs; by destruct (Hacyclic s))
              Hls Hfuel)
    as [(w' & Hstart & Hst & Hlen' & _ & Hall)|(w' & _ & _ & _ & c & Hc & _)].
  - by exists w'.
  - by destruct (Hacyclic c).
Qed.

Lemma start_cyclic_from fuel w :
  (∃ s, onCycle layer s) →
  length (heap w) = n → healthy w →
  (∀ c, state (cell w c) ≠ Constructing) →
  cycleFree layer w →
  layerState w = NotStarted →
  (notConstructedCount w < fuel)%nat →
  ∃ w', start fuel layer w = Throw cycleError w'
        ∧ layerState w' = NotStarted
        ∧ cycleFree layer w'
        ∧ ∃ c, onCycle layer c ∧ state (cell w' c) = Constructing.
Proof.
  intros [s0 Hs0] Hlen Hh Hnone Hfree Hls Hfuel.
  destruct (start_from fuel w Hlen Hh Hnone Hfree Hls Hfuel)
    as [(w' & _ & _ & _ & Hfree' & Hall)|Hthrow]; [|done].
  exfalso. destruct (onCycle_step layer s0 Hs0) as (t & Hdep & _).
  apply dependsOn_valid in Hdep.
  destruct (Hfree' s0 Hs0) as [Hnc _]. apply Hnc. by apply Hall.
Qed.
End Start.


(** ** The state of the layer *)

Lemma creates_injects_layerState layer :
  (∀ s w out, creates layer s w out →
     match out with
     | Done _ w' | Throw _ w' => layerState w' = layerState w
     | OutOfFuel => True
     end)
  ∧ (∀ deps acc w out, injects layer deps acc w out →
       match out with
       | Done _ w' | Throw _ w' => layerState w' = layerState w
       | OutOfFuel => True
       end).
Proof.
  apply creates_injects_ind.
  - reflexivity.
  - reflexivity.
  - reflexivity.
  - reflexivity.
  - intros s w instances w' _ _ IH. exact IH.
  - intros s w e w' _ _ IH. exact IH.
  - reflexivity.
  - reflexivity.
  - intros d rest acc w t e w' _ _ IH. exact IH.
  - intros d rest acc w t inst w' out _ _ IH1 _ IH2.
    destruct out; congruence.
Qed.

Lemma destroys_releases_layerState layer :
  (∀ s w w', destroys layer s w w' → layerState w' = layerState w)
  ∧ (∀ deps w w', releases layer deps w w' → layerState w' = layerState w).
Proof.
  apply destroys_releases_ind.
  - reflexivity.
  - intros s w w' _ _ IH. rewrite IH. unfold release.
    by destruct (decide (useCount (cell w s) - 1 ≤ 0)).
  - reflexivity.
  - intros d rest w w' _ _ IH. exact IH.
  - intros d rest w t w1 w' _ _ IH1 _ IH2. congruence.
Qed.

(** ** How destruction changes the store *)

Lemma release_heap s w :
  heap (release s w) = <[s := releasedCell (cell w s)]> (heap w).
Proof.
  unfold release, releasedCell.
  destruct (decide (s < length (heap w))%nat) as [Hs|Hs].
  - destruct (decide (useCount (cell w s) - 1 ≤ 0)); [|done].
    unfold markDestroyed. cbn [heap record setCell].
    rewrite decrementRef_eq by done. cbn [useCount].
    unfold decrementRef. cbn [heap record setCell].
    by rewrite list_insert_insert_eq.
  - assert (∀ c, <[s := c]> (heap w) = heap w) as Hge
      by (intros c; apply list_insert_ge; lia).
    destruct (decide (useCount (cell w s) - 1 ≤ 0)).
    + unfold markDestroyed, decrementRef. cbn [heap record setCell].
      by rewrite !list_insert_ge by (rewrite ?length_insert; lia).
    + done.
Qed.

Lemma release_eq_cell s w :
  (s < length (heap w))%nat → cell (release s w) s = releasedCell (cell w s).
Proof.
  intros Hs. unfold cell at 1. rewrite release_heap.
  by rewrite list_lookup_insert_eq.
Qed.

Lemma release_ne s w i : i ≠ s → cell (release s w) i = cell w i.
Proof.
  intros Hne. unfold cell. rewrite release_heap.
  by rewrite list_lookup_insert_ne.
Qed.

Lemma length_release s w : length (heap (release s w)) = length (heap w).
Proof. rewrite release_heap. apply length_insert. Qed.

Lemma pendingReleases_release s w :
  (s < length (heap w))%nat → state (cell w s) ≠ Destroyed →
  (pendingReleases (release s w) < pendingReleases w)%nat.
Proof.
  intros Hs Hst. unfold pendingReleases. rewrite release_heap.
  pose proof (sum_list_with_insert
    (λ c, if decide (state c = Destroyed) then 0%nat
          else Z.to_nat (Z.max 1 (useCount c)))
    (heap w) s (cell w s) (releasedCell (cell w s)) (cell_lookup w s Hs)) as Hsum.
  cbv beta in Hsum. unfold releasedCell in Hsum |- *.
  destruct (decide (state (cell w s) = Destroyed)); [done|].
  destruct (decide (useCount (cell w s) - 1 ≤ 0)); cbn [state useCount] in Hsum.
  - destruct (decide (Destroyed = Destroyed)); [|done]. lia.
  - destruct (decide (state (cell w s) = Destroyed)); [done|]. lia.
Qed.

Lemma shrinks_refl w : shrinks w w.
Proof.
  split; [done|]. split; [done|]. intros i. split; [done|]. intros _.
  do 3 (split; [done|]). by left.
Qed.

Lemma shrinks_trans w1 w2 w3 : shrinks w1 w2 → shrinks w2 w3 → shrinks w1 w3.
Proof.
  intros (Hl1 & Hp1 & H1) (Hl2 & Hp2 & H2).
  split; [congruence|]. split; [lia|]. intros i.
  destruct (H1 i) as [Hd1 Ha1]. destruct (H2 i) as [Hd2 Ha2]. split.
  - intros Hst. rewrite <- (Hd1 Hst). apply Hd2. by rewrite (Hd1 Hst).
  - intros Hst3. destruct (Ha2 Hst3) as (Hs & Hi & Hu & Hc).
    destruct (Ha1 ltac:(congruence)) as (Hs' & Hi' & Hu' & Hc').
    split; [congruence|]. split; [congruence|]. split; [lia|].
    destruct Hc as [Hc|Hc]; [|by right].
    destruct Hc' as [Hc'|Hc']; [left; congruence|right; by rewrite Hc].
Qed.

Lemma shrinks_release s w :
  (s < length (heap w))%nat → state (cell w s) ≠ Destroyed →
  shrinks w (release s w).
Proof.
  intros Hs Hst. split; [apply length_release|]. split.
  - pose proof (pendingReleases_release s w Hs Hst). lia.
  - intros i. destruct (decide (i = s)) as [->|Hne].
    + split; [done|]. rewrite release_eq_cell by done. unfold releasedCell.
      destruct (decide (useCount (cell w s) - 1 ≤ 0)); cbn [state useCount instance].
      * done.
      * intros _. do 2 (split; [done|]). split; [lia|]. right. lia.
    + rewrite release_ne by done. split; [done|]. intros _.
      do 3 (split; [done|]). by left.
Qed.

Lemma alivePositive_release s w :
  (s < length (heap w))%nat → alivePositive w → alivePositive (release s w).
Proof.
  intros Hs Hpos i Hi. rewrite length_release in Hi.
  destruct (decide (i = s)) as [->|Hne].
  - rewrite release_eq_cell by done. unfold releasedCell.
    destruct (decide (useCount (cell w s) - 1 ≤ 0)); cbn [state useCount]; [done|lia].
  - rewrite release_ne by done. by apply Hpos.
Qed.

Section Destruction.
Context (layer : ServiceLayer).
Hypothesis Hvalid : lookupValid layer.

Let n := length (allServices layer).

Lemma destroys_releases_shrink :
  (∀ s w w', destroys layer s w w' →
     length (heap w) = n → (s < n)%nat →
     shrinks w w' ∧ (alivePositive w → alivePositive w'))
  ∧ (∀ deps w w', releases layer deps w w' →
       length (heap w) = n →
       shrinks w w' ∧ (alivePositive w → alivePositive w')).
Proof.
  apply destroys_releases_ind.
  - intros s w _ _ _. split; [apply shrinks_refl|done].
  - intros s w w' Hst _ IH Hlen Hs.
    destruct (IH ltac:(rewrite length_release; lia)) as [Hsh Hpos].
    split.
    + eapply shrinks_trans; [|exact Hsh]. apply shrinks_release; [lia|done].
    + intros Hp. apply Hpos, alivePositive_release; [lia|done].
  - intros w _. split; [apply shrinks_refl|done].
  - intros d rest w w' _ _ IH Hlen. by apply IH.
  - intros d rest w t w1 w' Hlook _ IH1 _ IH2 Hlen.
    destruct (IH1 Hlen (Hvalid _ _ Hlook)) as [Hsh1 Hpos1].
    destruct (IH2 ltac:(destruct Hsh1 as [Hl _]; lia)) as [Hsh2 Hpos2].
    split; [by eapply shrinks_trans|]. intros Hp. by apply Hpos2, Hpos1.
Qed.

Lemma forEach_release_fuel fuel :
  (∀ s w, length (heap w) = n → (s < n)%nat →
          (pendingReleases w < fuel)%nat →
          ∃ w', destroyService fuel layer s w = Done tt w') →
  ∀ deps w,
    length (heap w) = n → (pendingReleases w < fuel)%nat →
    ∃ w', forEach deps (releaseDependency (destroyService fuel layer) layer) w = Done tt w'.
Proof.
  intros IH deps. induction deps as [|d rest IHrest]; intros w Hlen Hp.
  - by exists w.
  - cbn [forEach]. rewrite bind_eq, releaseDependency_eq.
    destruct (serviceLookup layer (required d)) as [t| |] eqn:Hlook.
    + pose proof (Hvalid _ _ Hlook) as Ht.
      destruct (IH t w Hlen Ht Hp) as [w1 Hcall].
      pose proof (destroyService_destroys layer fuel t w) as Hd.
      rewrite Hcall in Hd |- *. simpl in Hd.
      destruct (proj1 destroys_releases_shrink _ _ _ Hd Hlen Ht) as [(Hl & Hle & _) _].
      apply IHrest; [congruence|lia].
    + by apply IHrest.
    + by apply IHrest.
Qed.

Lemma destroyService_fuel fuel s w :
  length (heap w) = n → (s < n)%nat →
  (pendingReleases w < fuel)%nat →
  ∃ w', destroyService fuel layer s w = Done tt w'.
Proof.
  revert s w. induction fuel as [|fuel IH]; intros s w Hlen Hs Hp; [lia|].
  cbn [destroyService]. rewrite bind_eq. unfold getState.
  assert (Hlive : state (cell w s) ≠ Destroyed →
    ∃ w',
      ((let* n := removeRef s in
        if decide (n ≤ 0) then destroyRepr s else ret tt) ;;
       forEach (dependencies (repr layer s))
         (releaseDependency (destroyService fuel layer) layer)) w = Done tt w').
  { intros Hst. rewrite bind_eq, release_eq.
    pose proof (pendingReleases_release s w ltac:(lia) Hst) as Hlt.
    apply (forEach_release_fuel fuel IH); [rewrite length_release; lia|lia]. }
  destruct (state (cell w s)) eqn:Hst; try (apply Hlive; congruence).
  by exists w.
Qed.
End Destruction.

(** ** The index of declared dependencies *)

Lemma entryDeclares_registerReference packageEntry declared spec :
  entryDeclares (registerReference packageEntry declared) spec = true
  ↔ entryDeclares packageEntry spec = true ∨ matchesDeclaration declared spec.
Proof.
  unfold entryDeclares, registerReference, matchesDeclaration.
  destruct (decide (interfaceName declared = interfaceName spec)) as [Heq|Hne].
  - rewrite Heq, lookup_insert_eq.
    destruct (packageEntry !! interfaceName spec) as [entry|] eqn:Hentry; simpl;
      destruct (qualifier declared) as [q'|], (qualifier spec) as [q|]; simpl;
      rewrite ?bool_decide_eq_true, ?elem_of_union, ?elem_of_singleton, ?elem_of_empty;
      intuition congruence.
  - rewrite lookup_insert_ne by done.
    destruct (packageEntry !! interfaceName spec) as [entry|]; simpl;
      destruct (qualifier spec); intuition congruence.
Qed.

Lemma entryDeclares_fold refs packageEntry spec :
  entryDeclares (fold_left registerReference refs packageEntry) spec = true
  ↔ entryDeclares packageEntry spec = true
    ∨ ∃ declared, declared ∈ refs ∧ matchesDeclaration declared spec.
Proof.
  revert packageEntry. induction refs as [|r refs IH]; intros packageEntry; simpl.
  - split; [by left|]. intros [H|(d & Hd & _)]; [done|]. by apply elem_of_nil in Hd.
  - rewrite IH, entryDeclares_registerReference. split.
    + intros [[H|H]|(d & Hd & Hm)].
      * by left.
      * right. exists r. split; [left|done].
      * right. exists d. split; [by right|done].
    + intros [H|(d & Hd & Hm)].
      * left. by left.
      * apply elem_of_cons in Hd as [->|Hd].
        -- left. by right.
        -- right. by exists d.
Qed.

Lemma buildDependencyIndex_lookup (packages : list PackageRepr)
    (index : gmap string (gmap string DependencyDeclarations)) (packageName : string) :
  NoDup (map name packages) →
  (∀ pkg, pkg ∈ packages → index !! name pkg = None) →
  fold_left
    (λ index pkg, <[name pkg := fold_left registerReference (uiReferences pkg) ∅]> index)
    packages index !! packageName
  = match list_find (λ pkg, name pkg = packageName) packages with
    | Some (_, pkg) => Some (fold_left registerReference (uiReferences pkg) ∅)
    | None => index !! packageName
    end.
Proof.
  revert index. induction packages as [|pkg packages IH]; intros index Hnd Hfresh;
    [done|].
  simpl in Hnd. apply NoDup_cons in Hnd as [Hnotin Hnd].
  cbn [fold_left list_find]. rewrite IH; [|done|].
  - destruct (decide (name pkg = packageName)) as [Heq|Hne].
    + destruct (list_find _ packages) as [[i pkg']|] eqn:Hfind.
      * apply list_find_Some in Hfind as (Hi & Hn & _).
        exfalso. apply Hnotin. rewrite Heq, <- Hn.
        apply list_elem_of_In, in_map, list_elem_of_In. by eapply list_elem_of_lookup_2.
      * simpl. by rewrite <- Heq, lookup_insert_eq.
    + destruct (list_find _ packages) as [[i pkg']|]; simpl; [done|].
      by rewrite lookup_insert_ne.
  - intros pkg' Hin. rewrite lookup_insert_ne; [apply Hfresh; by right|].
    intros Heq. apply Hnotin. rewrite Heq.
    by apply list_elem_of_In, in_map, list_elem_of_In.
Qed.

Lemma isDeclaredDependency_declaredBy packages layer packageName spec :
  NoDup (map name packages) →
  declaredDependencies layer = buildDependencyIndex packages →
  isDeclaredDependency layer packageName spec = true
  ↔ declaredBy packages packageName spec.
Proof.
  intros Hnd Hindex.
  assert (isDeclaredDependency layer packageName spec =
          match declaredDependencies layer !! packageName with
          | Some packageEntry => entryDeclares packageEntry spec
          | None => false
          end) as -> by reflexivity.
  rewrite Hindex. unfold buildDependencyIndex.
  rewrite buildDependencyIndex_lookup by done.
  destruct (list_find _ packages) as [[i pkg]|] eqn:Hfind.
  - apply list_find_Some in Hfind as (Hi & Hn & _).
    rewrite entryDeclares_fold. split.
    + intros [H|(d & Hd & Hm)]; [done|].
      exists pkg, d. split; [by eapply list_elem_of_lookup_2|]. split; [done|]. by split.
    + intros (pkg' & d & Hin & Hn' & Hd & Hm). right.
      assert (pkg' = pkg) as ->; [|by exists d].
      apply list_elem_of_lookup in Hin as [j Hj].
      assert (j = i) as ->; [|congruence].
      eapply NoDup_lookup; [exact Hnd| |].
      * by rewrite list_lookup_fmap, Hj.
      * rewrite list_lookup_fmap, Hi. simpl. congruence.
  - rewrite lookup_empty. split; [done|].
    intros (pkg' & d & Hin & Hn' & _).
    apply list_find_None in Hfind. rewrite Forall_forall in Hfind.
    by destruct (Hfind pkg' Hin).
Qed.

(** ** destroy() *)

Section Destroy.
Context (layer : ServiceLayer).
Hypothesis Hvalid : lookupValid layer.

Let n := length (allServices layer).

Lemma destroys_target s w w' :
  destroys layer s w w' →
  length (heap w) = n → (s < n)%nat →
  state (cell w' s) = Destroyed ∨ useCount (cell w' s) < useCount (cell w s).
Proof.
  intros Hd Hlen Hs. inversion Hd as [s' w0 Hst|s' w0 w0' Hst Hloop]; subst.
  - by left.
  - destruct (proj2 (destroys_releases_shrink layer Hvalid) _ _ _ Hloop
                ltac:(rewrite length_release; lia)) as [(_ & _ & Hcells) _].
    destruct (Hcells s) as [Hdead Halive].
    rewrite release_eq_cell in Hdead, Halive by lia.
    unfold releasedCell in Hdead, Halive.
    destruct (decide (useCount (cell w s) - 1 ≤ 0)); cbn [state useCount] in *.
    + left. by rewrite Hdead.
    + destruct (decide (state (cell w' s) = Destroyed)) as [|Hne]; [by left|].
      right. destruct (Halive Hne) as (_ & _ & Hu & _). lia.
Qed.

Lemma destroy_loop fuel w0 :
  length (heap w0) = n →
  (pendingReleases w0 < fuel)%nat →
  ∃ w', forEach (serviceRefs layer) (λ value, destroyService fuel layer value) w0
        = Done tt w'
        ∧ released layer w0 (serviceRefs layer) w'.
Proof.
  intros Hlen Hfuel.
  pose proof (forEach_rule (released layer w0) (λ _ _, False) False
                (λ value, destroyService fuel layer value) (serviceRefs layer)) as Hloop.
  assert (Hstep : ∀ pre x post w,
    serviceRefs layer = (pre ++ x :: post)%list → released layer w0 pre w →
    match destroyService fuel layer x w with
    | Done _ w' => released layer w0 (pre ++ [x])%list w'
    | Throw _ _ => False
    | OutOfFuel => False
    end).
  { intros pre x post w Hsplit (Hl & Hsh & Hpos & Hpre).
    assert (x < n)%nat as Hx.
    { assert (x ∈ serviceRefs layer) as Hin by (rewrite Hsplit; apply elem_of_app; right; left).
      apply elem_of_seq in Hin. unfold n. lia. }
    assert (pendingReleases w < fuel)%nat as Hf by (destruct Hsh as (_ & Hle & _); lia).
    destruct (destroyService_fuel layer Hvalid fuel x w Hl Hx Hf) as [w' Hcall].
    pose proof (destroyService_destroys layer fuel x w) as Hd.
    rewrite Hcall in Hd |- *. simpl in Hd.
    destruct (proj1 (destroys_releases_shrink layer Hvalid) _ _ _ Hd Hl Hx)
      as [Hsh' Hpos'].
    split; [destruct Hsh' as [Hl' _]; lia|].
    split; [by eapply shrinks_trans|].
    split; [intros Hp; by apply Hpos', Hpos|].
    intros s Hin. apply elem_of_app in Hin as [Hin|Hin].
    - destruct Hsh' as (_ & _ & Hcells). destruct (Hcells s) as [Hdead Halive].
      destruct (Hpre s Hin) as [Hgone|Hless].
      + left. by rewrite (Hdead Hgone).
      + destruct (decide (state (cell w' s) = Destroyed)) as [|Hne]; [by left|].
        right. destruct (Halive Hne) as (_ & _ & Hu & _). lia.
    - apply list_elem_of_singleton in Hin as ->.
      destruct (destroys_target x w w' Hd Hl Hx) as [Hgone|Hless]; [by left|].
      destruct (decide (state (cell w' x) = Destroyed)) as [|Hne]; [by left|].
      right. destruct Hsh as (_ & _ & Hcells). destruct (Hcells x) as [_ Halive].
      assert (state (cell w x) ≠ Destroyed) as Hne'.
      { intros Hgone. destruct Hsh' as (_ & _ & Hc'). destruct (Hc' x) as [Hdead _].
        rewrite (Hdead Hgone) in Hne. done. }
      destruct (Halive Hne') as (_ & _ & Hu & _). lia. }
  specialize (Hloop Hstep w0).
  assert (released layer w0 [] w0) as Hinit.
  { split; [done|]. split; [apply shrinks_refl|]. split; [done|].
    intros s Hs. by apply elem_of_nil in Hs. }
  specialize (Hloop Hinit).
  destruct (forEach (serviceRefs layer) _ w0) as [[] w'|e w'|]; [|done..].
  by exists w'.
Qed.

Lemma destroy_succeeds fuel w :
  length (heap w) = n →
  (pendingReleases w < fuel)%nat →
  ∃ w', destroy fuel layer w = Done tt w'
        ∧ layerState w' = LayerDestroyed
        ∧ shrinks w w'
        ∧ ∀ s, (s < n)%nat →
            state (cell w' s) = Destroyed ∨ useCount (cell w' s) < useCount (cell w s).
Proof.
  intros Hlen Hfuel.
  destruct (destroy_loop fuel w Hlen Hfuel) as (w1 & Hrun & Hl & Hsh & _ & Hall).
  unfold destroy. rewrite bind_eq, Hrun.
  eexists. split; [reflexivity|]. split; [done|]. split; [exact Hsh|].
  intros s Hs. apply Hall. apply elem_of_seq. unfold n in Hs. lia.
Qed.
End Destroy.

(** ** The loops of start() and destroy(), step by step *)

Lemma forEach_constructsAll layer fuel refs w :
  forEach refs (λ value, createService fuel layer value ;; ret tt) w = OutOfFuel
  ∨ constructsAll layer refs w
      (forEach refs (λ value, createService fuel layer value ;; ret tt) w).
Proof.
  revert w. induction refs as [|s rest IH]; intros w.
  - right. constructor.
  - cbn [forEach]. rewrite !bind_eq.
    destruct (createService_creates layer fuel s w) as [Hout|Hc].
    + rewrite Hout. by left.
    + destruct (createService fuel layer s w) as [inst w'|e w'|] eqn:Hcall.
      * cbn [ret]. destruct (IH w') as [Hout|Hrest]; [by left|].
        right. by eapply constructsAll_step.
      * right. by apply constructsAll_throw.
      * by left.
Qed.

Lemma forEach_destroysAll layer fuel refs w :
  match forEach refs (λ value, destroyService fuel layer value) w with
  | Done _ w' => destroysAll layer refs w w'
  | Throw _ _ => False
  | OutOfFuel => True
  end.
Proof.
  revert w. induction refs as [|s rest IH]; intros w.
  - constructor.
  - cbn [forEach]. rewrite bind_eq.
    pose proof (destroyService_destroys layer fuel s w) as Hd.
    destruct (destroyService fuel layer s w) as [[] w1|e w1|]; [|done..].
    specialize (IH w1).
    destruct (forEach rest _ w1) as [[] w'|e w'|]; [|done..].
    by eapply destroysAll_step.
Qed.

Lemma start_Done layer fuel w w' :
  start fuel layer w = Done tt w' →
  layerState w = NotStarted
  ∧ ∃ w1, constructsAll layer (serviceRefs layer) w (Done tt w1)
          ∧ w' = {| heap := heap w1; layerState := Started;
                    trace := trace w1; nextInstance := nextInstance w1 |}.
Proof.
  unfold start. rewrite bind_eq. unfold getLayerState.
  destruct (decide (layerState w ≠ NotStarted)) as [|Hst]; [done|].
  rewrite bind_eq.
  destruct (forEach_constructsAll layer fuel (serviceRefs layer) w) as [Hout|Hc].
  - by rewrite Hout.
  - destruct (forEach (serviceRefs layer) _ w) as [[] w1|e w1|]; [|done..].
    intros [= <-]. split; [|by exists w1].
    destruct (decide (layerState w = NotStarted)) as [|Hne]; [done|by destruct Hst].
Qed.

Lemma destroy_Done layer fuel w w' :
  destroy fuel layer w = Done tt w' →
  ∃ w1, destroysAll layer (serviceRefs layer) w w1
        ∧ w' = {| heap := heap w1; layerState := LayerDestroyed;
                  trace := trace w1; nextInstance := nextInstance w1 |}.
Proof.
  unfold destroy. rewrite bind_eq.
  pose proof (forEach_destroysAll layer fuel (serviceRefs layer) w) as Hd.
  destruct (forEach (serviceRefs layer) _ w) as [[] w1|e w1|]; [|done..].
  intros [= <-]. by exists w1.
Qed.

(** ** Sums over the services *)

Lemma sumTo_ext n f g :
  (∀ i, (i < n)%nat → f i = g i) → sumTo n f = sumTo n g.
Proof.
  induction n as [|n IH]; intros H; simpl; [done|].
  rewrite IH by (intros i Hi; apply H; lia). rewrite H by lia. done.
Qed.

Lemma sumTo_update n f g s :
  (s < n)%nat → (∀ i, i ≠ s → g i = f i) →
  sumTo n g = sumTo n f + (g s - f s).
Proof.
  induction n as [|n IH]; intros Hs H; [lia|]. simpl.
  destruct (decide (s = n)) as [->|Hne].
  - rewrite (sumTo_ext n g f) by (intros i Hi; apply H; lia). lia.
  - rewrite IH by (done || lia). rewrite (H n) by done. lia.
Qed.

Lemma sumTo_indicator n x :
  sumTo n (indicator x) = if decide (x < n)%nat then 1 else 0.
Proof.
  induction n as [|n IH]; simpl.
  - destruct (decide (x < 0)%nat); [lia|done].
  - rewrite IH. unfold indicator.
    destruct (decide (x < n)%nat), (decide (x = n)), (decide (x < S n)%nat); lia.
Qed.

Lemma sumTo_add n f g :
  sumTo n (λ i, f i + g i) = sumTo n f + sumTo n g.
Proof. induction n as [|n IH]; simpl; lia. Qed.

Lemma sumTo_le n f g :
  (∀ i, (i < n)%nat → f i ≤ g i) → sumTo n f ≤ sumTo n g.
Proof.
  induction n as [|n IH]; intros H; simpl; [lia|].
  specialize (IH ltac:(intros i Hi; apply H; lia)). specialize (H n ltac:(lia)). lia.
Qed.

Lemma resolveCount_nil layer x : resolveCount layer [] x = 0.
Proof. done. Qed.

Lemma resolveCount_cons_found layer d rest t x :
  serviceLookup layer (required d) = Found t →
  resolveCount layer (d :: rest) x = indicator x t + resolveCount layer rest x.
Proof.
  intros Hlook. unfold resolveCount, indicator. rewrite filter_cons, Hlook.
  destruct (decide (Found t = Found x)) as [Heq|Hne], (decide (x = t)) as [Hxt|Hxt];
    simpl; try lia; congruence.
Qed.

Lemma resolveCount_cons_unresolved layer d rest x :
  (∀ t, serviceLookup layer (required d) ≠ Found t) →
  resolveCount layer (d :: rest) x = resolveCount layer rest x.
Proof.
  intros Hno. unfold resolveCount. rewrite filter_cons.
  destruct (decide (serviceLookup layer (required d) = Found x)) as [Heq|Hne]; [|done].
  by destruct (Hno x).
Qed.

Lemma resolveCount_nonneg layer deps x : 0 ≤ resolveCount layer deps x.
Proof. unfold resolveCount. lia. Qed.

Lemma serviceRefs_valid layer :
  Forall (λ s, (s < length (allServices layer))%nat) (serviceRefs layer).
Proof. apply Forall_forall. intros s Hs. apply elem_of_seq in Hs. lia. Qed.

(** ** The use count after construction *)

Section Counting.
Context (layer : ServiceLayer).
Hypothesis Hvalid : lookupValid layer.

Let n := length (allServices layer).

Lemma builtEdges_ext w w' x :
  (∀ i, state (cell w' i) = Constructed ↔ state (cell w i) = Constructed) →
  builtEdges layer w' x = builtEdges layer w x.
Proof.
  intros H. apply sumTo_ext. intros i _.
  destruct (decide (state (cell w' i) = Constructed)) as [Hc|Hc],
           (decide (state (cell w i) = Constructed)) as [Hc'|Hc']; try done.
  - by apply H in Hc.
  - by apply H in Hc'.
Qed.

Lemma builtEdges_construct s o w x :
  length (heap w) = n → (s < n)%nat →
  state (cell w s) ≠ Constructed →
  builtEdges layer (construct s o w) x = builtEdges layer w x + edges layer s x.
Proof.
  intros Hlen Hs Hst. unfold builtEdges.
  rewrite (sumTo_update _
    (λ i, if decide (state (cell w i) = Constructed) then edges layer i x else 0)
    (λ i, if decide (state (cell (construct s o w) i) = Constructed)
          then edges layer i x else 0) s); [|done|].
  - rewrite construct_eq by lia. cbn [state].
    destruct (decide (Constructed = Constructed)); [|done].
    destruct (decide (state (cell w s) = Constructed)); [done|]. lia.
  - intros i Hne. by rewrite construct_ne.
Qed.

Lemma creates_injects_count :
  (∀ s w out, creates layer s w out →
     length (heap w) = n → (s < n)%nat →
     ∀ inst w', out = Done inst w' →
     ∀ x, constructedCount w' x
          = constructedCount w x + builtEdges layer w' x - builtEdges layer w x
            + indicator x s)
  ∧ (∀ deps acc w out, injects layer deps acc w out →
       length (heap w) = n →
       ∀ acc' w', out = Done acc' w' →
       ∀ x, constructedCount w' x
            = constructedCount w x + builtEdges layer w' x - builtEdges layer w x
              + resolveCount layer deps x).
Proof.
  apply creates_injects_ind.
  - intros s w inst Hst Hinst Hlen Hs inst' w' [= <- <-] x.
    rewrite (builtEdges_ext w (incrementRef s w)).
    + unfold constructedCount, indicator.
      destruct (decide (x = s)) as [->|Hne].
      * rewrite incrementRef_eq by lia. cbn [state useCount]. rewrite Hst.
        destruct (decide (Constructed = Constructed)); [lia|done].
      * rewrite incrementRef_ne by done. lia.
    + intros i. destruct (decide (i = s)) as [->|Hne].
      * rewrite incrementRef_eq by lia. done.
      * by rewrite incrementRef_ne.
  - done.
  - done.
  - done.
  - intros s w instances w2 Hst Hloop IH Hlen Hs inst' w' [= <- <-] x.
    pose proof (grows_markConstructing s w Hst) as Hg1.
    assert (length (heap (markConstructing s w)) = n) as Hlen1
      by (destruct Hg1 as [Hl _]; lia).
    specialize (IH Hlen1 instances w2 eq_refl x).
    destruct (proj2 (creates_injects_grow layer Hvalid) _ _ _ _ Hloop Hlen1)
      as (Hg2 & _ & _).
    assert (length (heap w2) = n) as Hlen2 by (destruct Hg2 as [Hl _]; lia).
    assert (state (cell w2 s) = Constructing) as Hst2.
    { destruct Hg2 as (_ & _ & _ & Hc). specialize (Hc s).
      rewrite markConstructing_eq in Hc by lia. cbn [state] in Hc. by rewrite Hc. }
    rewrite builtEdges_construct by (done || congruence).
    assert (constructedCount (markConstructing s w) x = constructedCount w x) as Hc1.
    { unfold constructedCount. destruct (decide (x = s)) as [->|Hne].
      - rewrite markConstructing_eq by lia. cbn [state]. rewrite Hst.
        destruct (decide (Constructing = Constructed)); [done|].
        destruct (decide (NotConstructed = Constructed)); done.
      - by rewrite markConstructing_ne. }
    assert (builtEdges layer (markConstructing s w) x = builtEdges layer w x) as Hb1.
    { apply builtEdges_ext. intros i. destruct (decide (i = s)) as [->|Hne].
      - rewrite markConstructing_eq by lia. cbn [state]. rewrite Hst. done.
      - by rewrite markConstructing_ne. }
    assert (constructedCount (construct s (optionsFor layer s instances) w2) x
            = constructedCount w2 x + indicator x s) as Hc2.
    { unfold constructedCount, indicator. destruct (decide (x = s)) as [->|Hne].
      - rewrite construct_eq by lia. cbn [state useCount]. rewrite Hst2.
        destruct (decide (Constructed = Constructed)); [|done].
        destruct (decide (Constructing = Constructed)); [done|lia].
      - rewrite construct_ne by done. lia. }
    unfold edges. lia.
  - done.
  - intros acc w Hlen acc' w' [= <- <-] x. rewrite resolveCount_nil. lia.
  - done.
  - done.
  - intros d rest acc w t inst w1 out Hlook Hcall IH1 Hrest IH2 Hlen acc' w' -> x.
    pose proof (Hvalid _ _ Hlook) as Ht.
    pose proof (proj1 (creates_injects_grow layer Hvalid) _ _ _ Hcall Hlen Ht)
      as (Hg & _).
    specialize (IH1 Hlen Ht inst w1 eq_refl x).
    specialize (IH2 ltac:(destruct Hg as [Hl _]; lia) acc' w' eq_refl x).
    rewrite (resolveCount_cons_found layer d rest t x Hlook). lia.
Qed.

Lemma constructsAll_count refs w w' :
  constructsAll layer refs w (Done tt w') →
  length (heap w) = n → Forall (λ s, (s < n)%nat) refs →
  length (heap w') = n
  ∧ grows w w' ∧ settled w w'
  ∧ Forall (λ s, state (cell w' s) = Constructed) refs
  ∧ ∀ x, constructedCount w' x
         = constructedCount w x + builtEdges layer w' x - builtEdges layer w x
           + Z.of_nat (length (filter (λ s, s = x) refs)).
Proof.
  intros Hall. remember (Done tt w') as out eqn:Hout.
  induction Hall as [w|s rest w e w1 Hcall|s rest w inst w1 out Hcall Hrest IH];
    intros Hlen Hrefs.
  - injection Hout as <-. split; [done|]. split; [apply grows_refl|].
    split; [by intros i|]. split; [constructor|]. intros x. simpl. lia.
  - done.
  - apply Forall_cons in Hrefs as [Hs Hrefs].
    pose proof (proj1 (creates_injects_grow layer Hvalid) _ _ _ Hcall Hlen Hs)
      as (Hg & Hset & Hst & _).
    pose proof (proj1 creates_injects_count _ _ _ Hcall Hlen Hs inst w1 eq_refl) as Hc.
    destruct (IH Hout ltac:(destruct Hg as [Hl _]; lia) Hrefs)
      as (Hlen' & Hg' & Hset' & Hall' & Hc').
    split; [done|]. split; [by eapply grows_trans|].
    split; [by eapply settled_trans|]. split.
    + constructor; [|done]. destruct Hg' as (_ & _ & _ & Hcells).
      specialize (Hcells s). rewrite Hst in Hcells. tauto.
    + intros x. rewrite Hc', Hc, filter_cons. unfold indicator.
      destruct (decide (x = s)) as [->|Hne];
        [rewrite decide_True by done|rewrite decide_False by done]; simpl; lia.
Qed.
End Counting.


Lemma constructsAll_grows layer refs w out :
  lookupValid layer →
  constructsAll layer refs w out →
  length (heap w) = length (allServices layer) →
  Forall (λ s, (s < length (allServices layer))%nat) refs →
  match out with
  | Done _ w' | Throw _ w' => grows w w'
  | OutOfFuel => True
  end.
Proof.
  intros Hvalid.
  induction 1 as [w|s rest w e w' Hcall|s rest w inst w' out Hcall Hrest IH];
    intros Hlen Hrefs.
  - apply grows_refl.
  - apply Forall_cons in Hrefs as [Hs _].
    exact (proj1 (creates_injects_grow layer Hvalid) _ _ _ Hcall Hlen Hs).
  - apply Forall_cons in Hrefs as [Hs Hrefs].
    destruct (proj1 (creates_injects_grow layer Hvalid) _ _ _ Hcall Hlen Hs) as (Hg & _).
    specialize (IH ltac:(destruct Hg as [Hl _]; lia) Hrefs).
    destruct out as [[] w''|e w''|]; [| |done]; by eapply grows_trans.
Qed.

Lemma count_in_seq n x :
  Z.of_nat (length (filter (λ s, s = x) (seq 0 n))) = if decide (x < n)%nat then 1 else 0.
Proof.
  induction n as [|n IH].
  - simpl. destruct (decide (x < 0)%nat); [lia|done].
  - rewrite seq_S, filter_app, length_app, Nat2Z.inj_add, IH. simpl.
    rewrite filter_cons, filter_nil.
    destruct (decide (n = x)) as [->|Hne]; simpl.
    + destruct (decide (x < x)%nat), (decide (x < S x)%nat); lia.
    + destruct (decide (x < n)%nat), (decide (x < S n)%nat); lia.
Qed.

Lemma dependents_nonneg layer x : 0 ≤ dependents layer x.
Proof.
  unfold dependents. generalize (length (allServices layer)) as n.
  induction n as [|n IH]; cbn [sumTo]; [lia|].
  pose proof (resolveCount_nonneg layer (dependencies (repr layer n)) x).
  unfold edges in *. lia.
Qed.

(** After a successful start of a freshly built layer, the count of every
    service is one more than the number of dependency declarations that
    resolve to it. *)
Lemma start_counts layer fuel w' :
  lookupValid layer →
  start fuel layer (initialWorld layer) = Done tt w' →
  length (heap w') = length (allServices layer)
  ∧ ∀ x, (x < length (allServices layer))%nat →
      state (cell w' x) = Constructed
      ∧ useCount (cell w' x) = 1 + dependents layer x.
Proof.
  intros Hvalid Hstart.
  apply start_Done in Hstart as (_ & w1 & Hall & ->).
  assert (Forall (λ s, (s < length (allServices layer))%nat) (serviceRefs layer)) as Hrefs.
  { apply Forall_forall. intros s Hs. apply elem_of_seq in Hs. lia. }
  destruct (constructsAll_count layer Hvalid _ _ _ Hall (length_initialWorld layer) Hrefs)
    as (Hlen & _ & _ & Hbuilt & Hcount).
  split; [done|]. intros x Hx.
  rewrite Forall_forall in Hbuilt.
  assert (∀ s, (s < length (allServices layer))%nat → state (cell w1 s) = Constructed)
    as Hb.
  { intros s Hs. apply Hbuilt. apply elem_of_seq. lia. }
  split; [by apply Hb|].
  specialize (Hcount x). unfold constructedCount in Hcount.
  rewrite cell_initialWorld in Hcount. cbn [state initialCell] in Hcount.
  destruct (decide (NotConstructed = Constructed)); [done|].
  rewrite (Hb x Hx) in Hcount. destruct (decide (Constructed = Constructed)); [|done].
  unfold serviceRefs in Hcount. rewrite count_in_seq in Hcount.
  destruct (decide (x < length (allServices layer))%nat); [|done].
  assert (builtEdges layer (initialWorld layer) x = 0) as Hzero.
  { unfold builtEdges.
    rewrite (sumTo_ext _ _ (λ _, 0)).
    - generalize (length (allServices layer)) as m.
      induction m as [|m IH]; cbn [sumTo]; lia.
    - intros i _. rewrite cell_initialWorld. cbn [state initialCell].
      by destruct (decide (NotConstructed = Constructed)). }
  assert (builtEdges layer w1 x = dependents layer x) as Hall'.
  { unfold builtEdges, dependents. apply sumTo_ext. intros i Hi.
    rewrite (Hb i Hi). by destruct (decide (Constructed = Constructed)). }
  change (cell {| heap := heap w1; layerState := Started; trace := trace w1;
                  nextInstance := nextInstance w1 |} x) with (cell w1 x).
  lia.
Qed.

(** ** Releases *)

Lemma trace_release s w :
  trace (release s w) = (trace w ++ releaseEvents s w)%list.
Proof.
  unfold release, releaseEvents.
  destruct (decide (useCount (cell w s) - 1 ≤ 0)); simpl; [|done].
  by rewrite <- app_assoc.
Qed.

Lemma touched_release s w i :
  touched (release s w) i = touched w i || bool_decide (i = s).
Proof.
  unfold touched. rewrite trace_release, existsb_app. f_equal.
  unfold releaseEvents.
  destruct (decide (useCount (cell w s) - 1 ≤ 0)); simpl;
    rewrite !orb_false_r; apply bool_decide_ext; split; congruence.
Qed.

Lemma releasedEdges_release layer s w x :
  (s < length (allServices layer))%nat →
  releasedEdges layer (release s w) x ≤ releasedEdges layer w x + edges layer s x.
Proof.
  intros Hs. unfold releasedEdges.
  rewrite (sumTo_update _
    (λ i, if touched w i then edges layer i x else 0)
    (λ i, if touched (release s w) i then edges layer i x else 0) s); [|done|].
  - rewrite touched_release. rewrite bool_decide_eq_true_2 by done.
    rewrite orb_true_r.
    pose proof (resolveCount_nonneg layer (dependencies (repr layer s)) x).
    unfold edges in *. destruct (touched w s); lia.
  - intros i Hne. rewrite touched_release. rewrite bool_decide_eq_false_2 by done.
    by rewrite orb_false_r.
Qed.

(** ** Every constructed service is torn down *)

Section Teardown.
Context (layer : ServiceLayer).
Hypothesis Hvalid : lookupValid layer.

Let n := length (allServices layer).

(** Destruction only adds to the set of touched services, and a service
    that was destroyed on the way has been touched. *)
Lemma destroys_releases_touched :
  (∀ s w w', destroys layer s w w' →
     (∀ i, touched w i = true → touched w' i = true)
     ∧ (state (cell w s) ≠ Destroyed → touched w' s = true)
     ∧ (∀ i, state (cell w' i) = Destroyed →
             state (cell w i) = Destroyed ∨ touched w' i = true))
  ∧ (∀ deps w w', releases layer deps w w' →
       (∀ i, touched w i = true → touched w' i = true)
       ∧ (∀ i, state (cell w' i) = Destroyed →
               state (cell w i) = Destroyed ∨ touched w' i = true)).
Proof.
  apply destroys_releases_ind.
  - intros s w Hst. split; [done|]. split; [done|]. intros i Hi. by left.
  - intros s w w' Hst _ (Hmono & Hdead).
    assert (∀ i, touched w i = true → touched (release s w) i = true) as Hm1.
    { intros i Hi. rewrite touched_release, Hi. done. }
    assert (touched (release s w) s = true) as Hs1.
    { rewrite touched_release, bool_decide_eq_true_2 by done. apply orb_true_r. }
    split; [intros i Hi; by apply Hmono, Hm1|].
    split; [intros _; by apply Hmono|].
    intros i Hi. destruct (Hdead i Hi) as [Hgone|Ht]; [|by right].
    destruct (decide (i = s)) as [->|Hne]; [right; by apply Hmono|].
    left. by rewrite release_ne in Hgone.
  - intros w. split; [done|]. intros i Hi. by left.
  - intros d rest w w' _ _ IH. exact IH.
  - intros d rest w t w1 w' _ _ (Hm1 & _ & Hd1) _ (Hm2 & Hd2).
    split; [intros i Hi; by apply Hm2, Hm1|].
    intros i Hi. destruct (Hd2 i Hi) as [Hgone|Ht]; [|by right].
    destruct (Hd1 i Hgone) as [Hgone'|Ht]; [by left|]. right. by apply Hm2.
Qed.

Lemma releasedEdges_mono w w' x :
  (∀ i, touched w i = true → touched w' i = true) →
  releasedEdges layer w x ≤ releasedEdges layer w' x.
Proof.
  intros Hmono. apply sumTo_le. intros i _.
  pose proof (resolveCount_nonneg layer (dependencies (repr layer i)) x).
  unfold edges in *.
  destruct (touched w i) eqn:Hi; [by rewrite (Hmono i Hi)|].
  destruct (touched w' i); lia.
Qed.

(** Each call on a live service costs it one count, and each touched
    service costs every service it depends on one count per declaration. *)
Lemma destroys_releases_count :
  (∀ s w w', destroys layer s w w' →
     length (heap w) = n → (s < n)%nat →
     state (cell w s) ≠ Destroyed →
     ∀ x, (x < n)%nat → state (cell w' x) ≠ Destroyed →
       releasedEdges layer w' x - releasedEdges layer w x + indicator x s
       ≤ useCount (cell w x) - useCount (cell w' x))
  ∧ (∀ deps w w', releases layer deps w w' →
       length (heap w) = n →
       ∀ x, (x < n)%nat → state (cell w' x) ≠ Destroyed →
         releasedEdges layer w' x - releasedEdges layer w x + resolveCount layer deps x
         ≤ useCount (cell w x) - useCount (cell w' x)).
Proof.
  apply destroys_releases_ind.
  - done.
  - intros s w w' Hst Hloop IH Hlen Hs _ x Hx Halive.
    assert (length (heap (release s w)) = n) as Hlen1 by (rewrite length_release; lia).
    specialize (IH Hlen1 x Hx Halive).
    destruct (proj2 (destroys_releases_shrink layer Hvalid) _ _ _ Hloop Hlen1)
      as [(_ & _ & Hcells) _].
    destruct (Hcells x) as [Hdead _].
    assert (state (cell (release s w) x) ≠ Destroyed) as Halive1.
    { intros Hgone. apply Halive. by rewrite (Hdead Hgone). }
    pose proof (releasedEdges_release layer s w x Hs) as Hedges.
    assert (useCount (cell w x) - useCount (cell (release s w) x) = indicator x s)
      as Hstep.
    { unfold indicator. destruct (decide (x = s)) as [->|Hne].
      - rewrite release_eq_cell in Halive1 |- * by lia. unfold releasedCell in *.
        destruct (decide (useCount (cell w s) - 1 ≤ 0)); cbn [state useCount] in *;
          [done|lia].
      - rewrite release_ne by done. lia. }
    fold (edges layer s x) in IH. lia.
  - intros w Hlen x Hx Halive. rewrite resolveCount_nil. lia.
  - intros d rest w w' Hno _ IH Hlen x Hx Halive.
    rewrite (resolveCount_cons_unresolved layer d rest x Hno). by apply IH.
  - intros d rest w t w1 w' Hlook Hcall IH1 Hrest IH2 Hlen x Hx Halive.
    pose proof (Hvalid _ _ Hlook) as Ht.
    destruct (proj1 (destroys_releases_shrink layer Hvalid) _ _ _ Hcall Hlen Ht)
      as [(Hl1 & _ & Hcells1) _].
    assert (length (heap w1) = n) as Hlen1 by lia.
    destruct (proj2 (destroys_releases_shrink layer Hvalid) _ _ _ Hrest Hlen1)
      as [(_ & _ & Hcells2) _].
    specialize (IH2 Hlen1 x Hx Halive).
    rewrite (resolveCount_cons_found layer d rest t x Hlook).
    assert (state (cell w1 x) ≠ Destroyed) as Halive1.
    { intros Hgone. apply Halive. destruct (Hcells2 x) as [Hdead _].
      by rewrite (Hdead Hgone). }
    destruct (decide (state (cell w t) = Destroyed)) as [Hgone|Hlive].
    + inversion Hcall as [s' w0 Hst|s' w0 w0' Hst]; subst; [|done].
      assert (x ≠ t) as Hne by (intros ->; done).
      unfold indicator. destruct (decide (x = t)); [done|]. lia.
    + specialize (IH1 Hlen Ht Hlive x Hx Halive1). lia.
Qed.

Lemma destroysAll_count refs w w' :
  destroysAll layer refs w w' →
  length (heap w) = n → Forall (λ s, (s < n)%nat) refs →
  length (heap w') = n
  ∧ shrinks w w'
  ∧ (alivePositive w → alivePositive w')
  ∧ (∀ i, touched w i = true → touched w' i = true)
  ∧ (∀ i, state (cell w' i) = Destroyed →
          state (cell w i) = Destroyed ∨ touched w' i = true)
  ∧ (∀ s, s ∈ refs → state (cell w s) = Destroyed ∨ touched w' s = true)
  ∧ ∀ x, (x < n)%nat → state (cell w' x) ≠ Destroyed →
      releasedEdges layer w' x - releasedEdges layer w x
      + Z.of_nat (length (filter (λ s, s = x) refs))
      ≤ useCount (cell w x) - useCount (cell w' x).
Proof.
  induction 1 as [w|s rest w w1 w' Hcall Hrest IH]; intros Hlen Hrefs.
  - split; [done|]. split; [apply shrinks_refl|]. split; [done|]. split; [done|].
    split; [intros i Hi; by left|]. split; [intros s Hs; by apply elem_of_nil in Hs|].
    intros x Hx Halive. simpl. lia.
  - apply Forall_cons in Hrefs as [Hs Hrefs].
    destruct (proj1 (destroys_releases_shrink layer Hvalid) _ _ _ Hcall Hlen Hs)
      as [Hsh1 Hpos1].
    destruct (proj1 destroys_releases_touched _ _ _ Hcall) as (Hm1 & Ht1 & Hd1).
    assert (length (heap w1) = n) as Hlen1 by (destruct Hsh1 as [Hl _]; lia).
    destruct (IH Hlen1 Hrefs) as (Hlen' & Hsh2 & Hpos2 & Hm2 & Hd2 & Htop & Hcount).
    split; [done|]. split; [by eapply shrinks_trans|].
    split; [intros Hp; by apply Hpos2, Hpos1|].
    split; [intros i Hi; by apply Hm2, Hm1|].
    split.
    { intros i Hi. destruct (Hd2 i Hi) as [Hgone|Ht]; [|by right].
      destruct (Hd1 i Hgone) as [Hgone'|Ht]; [by left|]. right. by apply Hm2. }
    split.
    { intros s' Hin. apply elem_of_cons in Hin as [->|Hin].
      - destruct (decide (state (cell w s) = Destroyed)) as [|Hlive]; [by left|].
        right. by apply Hm2, Ht1.
      - destruct (Htop s' Hin) as [Hgone|Ht]; [|by right].
        destruct (Hd1 s' Hgone) as [Hgone'|Ht]; [by left|]. right. by apply Hm2. }
    intros x Hx Halive. specialize (Hcount x Hx Halive).
    assert (state (cell w1 x) ≠ Destroyed) as Halive1.
    { intros Hgone. apply Halive. destruct Hsh2 as (_ & _ & Hcells).
      destruct (Hcells x) as [Hdead _]. by rewrite (Hdead Hgone). }
    rewrite filter_cons.
    destruct (decide (state (cell w s) = Destroyed)) as [Hgone|Hlive].
    + inversion Hcall as [s' w0 Hst|s' w0 w0' Hst]; subst; [|done].
      assert (s ≠ x) as Hne by (intros ->; done).
      rewrite decide_False by done. lia.
    + pose proof (proj1 destroys_releases_count _ _ _ Hcall Hlen Hs Hlive x Hx Halive1)
        as Hc.
      unfold indicator in Hc.
      destruct (decide (x = s)) as [->|Hne];
        [rewrite decide_True by done|rewrite decide_False by done]; simpl length; lia.
Qed.

(** Construction never calls [removeRef]. *)
Lemma creates_injects_touched :
  (∀ s w out, creates layer s w out →
     match out with
     | Done _ w' | Throw _ w' => ∀ i, touched w' i = touched w i
     | OutOfFuel => True
     end)
  ∧ (∀ deps acc w out, injects layer deps acc w out →
       match out with
       | Done _ w' | Throw _ w' => ∀ i, touched w' i = touched w i
       | OutOfFuel => True
       end).
Proof.
  apply creates_injects_ind.
  - intros s w inst _ _ i. unfold touched, incrementRef. cbn [trace record setCell].
    rewrite existsb_app. simpl. by rewrite !orb_false_r.
  - done.
  - done.
  - done.
  - intros s w instances w' _ _ IH i. unfold touched, construct. cbn [trace record setCell].
    rewrite existsb_app. simpl. rewrite !orb_false_r.
    specialize (IH i). unfold touched, markConstructing in IH.
    cbn [trace record setCell] in IH. rewrite existsb_app in IH. simpl in IH.
    by rewrite !orb_false_r in IH.
  - intros s w e w' _ _ IH i.
    specialize (IH i). unfold touched, markConstructing in IH.
    cbn [trace record setCell] in IH. rewrite existsb_app in IH. simpl in IH.
    by rewrite !orb_false_r in IH.
  - done.
  - done.
  - intros d rest acc w t e w' _ _ IH. exact IH.
  - intros d rest acc w t inst w' out _ _ IH1 _ IH2.
    destruct out as [acc' w''|e w''|]; [| |done]; intros i; by rewrite IH2, IH1.
Qed.

Lemma constructsAll_touched refs w out :
  constructsAll layer refs w out →
  match out with
  | Done _ w' | Throw _ w' => ∀ i, touched w' i = touched w i
  | OutOfFuel => True
  end.
Proof.
  induction 1 as [w|s rest w e w' Hcall|s rest w inst w' out Hcall Hrest IH].
  - done.
  - exact (proj1 creates_injects_touched _ _ _ Hcall).
  - pose proof (proj1 creates_injects_touched _ _ _ Hcall) as H1. simpl in H1.
    destruct out as [[] w''|e w''|]; [| |done]; intros i; by rewrite IH, H1.
Qed.

(** destroy() destroys every service of a balanced store. *)
Lemma destroy_balanced fuel w w' :
  length (heap w) = n →
  balanced layer w →
  destroy fuel layer w = Done tt w' →
  ∀ x, (x < n)%nat → state (cell w' x) = Destroyed.
Proof.
  intros Hlen [Hfresh Hbal] Hdestroy x Hx.
  apply destroy_Done in Hdestroy as (w1 & Hall' & ->).
  change (cell {| heap := heap w1; layerState := LayerDestroyed; trace := trace w1;
                  nextInstance := nextInstance w1 |} x) with (cell w1 x).
  assert (Forall (λ s, (s < n)%nat) (serviceRefs layer)) as Hrefs
    by apply serviceRefs_valid.
  destruct (destroysAll_count _ _ _ Hall' Hlen Hrefs)
    as (Hlen1 & Hsh & _ & Hmono & Hdead & Htop & Hcount).
  destruct (decide (state (cell w1 x) = Destroyed)) as [|Halive]; [done|].
  exfalso.
  specialize (Hcount x Hx Halive).
  unfold serviceRefs in Hcount. rewrite count_in_seq in Hcount.
  destruct (decide (x < length (allServices layer))%nat); [|done].
  assert (releasedEdges layer w x = 0) as Hzero.
  { unfold releasedEdges. rewrite (sumTo_ext _ _ (λ _, 0)).
    - generalize (length (allServices layer)) as m.
      induction m as [|m IH]; cbn [sumTo]; lia.
    - intros i _. by rewrite Hfresh. }
  assert (releasedEdges layer w1 x = dependents layer x) as Hfull.
  { unfold releasedEdges, dependents. apply sumTo_ext. intros i Hi.
    destruct (Htop i) as [Hgone|Ht].
    - apply elem_of_seq. lia.
    - by destruct (Hbal i Hi) as [Hc _].
    - by rewrite Ht. }
  destruct (Hbal x Hx) as [_ Hux].
  pose proof (dependents_nonneg layer x) as Hdep.
  destruct Hsh as (_ & _ & Hcells). destruct (Hcells x) as [_ Hkeep].
  destruct (Hkeep Halive) as (_ & _ & _ & [Heq|Hpos]).
  - rewrite Heq in Hcount. lia.
  - lia.
Qed.
End Teardown.

(** ** What constructors receive *)

Lemma wiringFrom_ext layer w w' deps acc :
  (∀ d t, d ∈ deps → serviceLookup layer (required d) = Found t →
          instance (cell w' t) = instance (cell w t)) →
  wiringFrom layer w' deps acc = wiringFrom layer w deps acc.
Proof.
  revert acc. induction deps as [|d rest IH]; intros acc H; [done|].
  unfold wiringFrom in *. cbn [fold_left].
  rewrite IH by (intros d' t Hd' Ht; apply (H d' t); [by right|done]).
  destruct (serviceLookup layer (required d)) as [t| |] eqn:Hlook; [|done..].
  by rewrite (H d t ltac:(left) Hlook).
Qed.

Lemma assigned_empty key : assigned ∅ key = None.
Proof. unfold assigned. by destruct (decide (key = "__proto__")). Qed.

Lemma assigned_assignReference key inst instances key' :
  assigned (assignReference key inst instances) key'
  = if decide (key = key') then Some inst else assigned instances key'.
Proof.
  unfold assigned, assignReference.
  destruct (decide (key = "__proto__")) as [->|Hkey];
    destruct (decide (key' = "__proto__")) as [->|Hkey']; cbn [ownKeys prototype].
  - by rewrite decide_True.
  - by rewrite decide_False.
  - by rewrite decide_False.
  - destruct (decide (key = key')) as [->|Hne].
    + by rewrite lookup_insert_eq.
    + by rewrite lookup_insert_ne.
Qed.

Lemma ownKeys_assigned instances key :
  key ≠ "__proto__" → ownKeys instances !! key = assigned instances key.
Proof. intros Hkey. unfold assigned. by rewrite decide_False. Qed.

Lemma ownKeys_assignReference_proto inst instances key :
  ownKeys (assignReference "__proto__" inst instances) !! key = ownKeys instances !! key.
Proof. done. Qed.

Lemma wiringFrom_other layer w deps acc key :
  key ∉ map referenceName deps →
  assigned (wiringFrom layer w deps acc) key = assigned acc key.
Proof.
  revert acc. induction deps as [|d rest IH]; intros acc Hkey; [done|].
  unfold wiringFrom in *. cbn [fold_left]. simpl in Hkey.
  apply not_elem_of_cons in Hkey as [Hne Hkey].
  rewrite IH by done.
  destruct (serviceLookup layer (required d)) as [t| |]; [|done..].
  destruct (instance (cell w t)); [|done].
  rewrite assigned_assignReference. by rewrite decide_False.
Qed.

Lemma grows_keeps w w' : grows w w' → keeps w w'.
Proof.
  intros (_ & _ & _ & H) i Hi. specialize (H i). rewrite Hi in H. tauto.
Qed.

Section Wiring.
Context (layer : ServiceLayer).
Hypothesis Hvalid : lookupValid layer.

Let n := length (allServices layer).

Lemma wired_keeps w w' :
  wired layer w → keeps w w' →
  (∀ s o r, CallCreate s o r ∈ trace w' → CallCreate s o r ∈ trace w) →
  (∀ e, e ∈ trace w → e ∈ trace w') →
  (∀ s, state (cell w' s) = Constructed → state (cell w s) = Constructed) →
  wired layer w'.
Proof.
  intros [HA HB] Hkeep Hold Hsub Hback. split.
  - intros s o r Hin. destruct (HA s o r (Hold _ _ _ Hin)) as [-> Hdeps]. split.
    + f_equal. symmetry. apply wiringFrom_ext.
      intros d t Hd Ht. by apply Hkeep, (Hdeps d).
    + intros d t Hd Ht. by apply Hkeep, (Hdeps d).
  - intros s Hs. destruct (HB s (Hback s Hs)) as (o & r & Hin & Hinst).
    exists o, r. split; [by apply Hsub|].
    destruct (Hkeep s (Hback s Hs)) as [_ ->]. done.
Qed.

Lemma wired_markConstructing s w :
  (s < length (heap w))%nat → state (cell w s) = NotConstructed →
  wired layer w → wired layer (markConstructing s w).
Proof.
  intros Hs Hst Hw. eapply wired_keeps; [exact Hw|..].
  - intros i Hi. assert (i ≠ s) as Hne by congruence.
    by rewrite markConstructing_ne.
  - intros s' o r Hin. unfold markConstructing in Hin. cbn [trace record setCell] in Hin.
    apply elem_of_app in Hin as [Hin|Hin]; [done|].
    by apply list_elem_of_singleton in Hin.
  - intros e He. unfold markConstructing. cbn [trace record setCell].
    apply elem_of_app. by left.
  - intros i Hi. destruct (decide (i = s)) as [->|Hne].
    + rewrite markConstructing_eq in Hi by done. done.
    + by rewrite markConstructing_ne in Hi.
Qed.

Lemma wired_incrementRef s w :
  (s < length (heap w))%nat → wired layer w → wired layer (incrementRef s w).
Proof.
  intros Hs Hw. eapply wired_keeps; [exact Hw|..].
  - intros i Hi. destruct (decide (i = s)) as [->|Hne].
    + rewrite incrementRef_eq by done. done.
    + by rewrite incrementRef_ne.
  - intros s' o r Hin. unfold incrementRef in Hin. cbn [trace record setCell] in Hin.
    apply elem_of_app in Hin as [Hin|Hin]; [done|].
    by apply list_elem_of_singleton in Hin.
  - intros e He. unfold incrementRef. cbn [trace record setCell].
    apply elem_of_app. by left.
  - intros i Hi. destruct (decide (i = s)) as [->|Hne].
    + rewrite incrementRef_eq in Hi by done. done.
    + by rewrite incrementRef_ne in Hi.
Qed.

Lemma wired_construct s w :
  (s < length (heap w))%nat → state (cell w s) = Constructing →
  (∀ d t, d ∈ dependencies (repr layer s) →
          serviceLookup layer (required d) = Found t →
          state (cell w t) = Constructed) →
  wired layer w →
  wired layer
    (construct s
       (optionsFor layer s (wiringFrom layer w (dependencies (repr layer s)) ∅)) w).
Proof.
  intros Hs Hst Hdeps [HA HB].
  set (o := optionsFor layer s (wiringFrom layer w (dependencies (repr layer s)) ∅)).
  assert (keeps w (construct s o w)) as Hkeep.
  { intros i Hi. assert (i ≠ s) as Hne by congruence. by rewrite construct_ne. }
  split.
  - intros s' o' r Hin. unfold construct in Hin. cbn [trace record setCell] in Hin.
    apply elem_of_app in Hin as [Hin|Hin].
    + destruct (HA s' o' r Hin) as [-> Hd]. split.
      * f_equal. symmetry. apply wiringFrom_ext.
        intros d t Hd' Ht. by apply Hkeep, (Hd d).
      * intros d t Hd' Ht. by apply Hkeep, (Hd d).
    + apply list_elem_of_singleton in Hin. injection Hin as -> -> ->. split.
      * unfold o. f_equal. symmetry. apply wiringFrom_ext.
        intros d t Hd' Ht. by apply Hkeep, (Hdeps d).
      * intros d t Hd' Ht. by apply Hkeep, (Hdeps d).
  - intros i Hi. destruct (decide (i = s)) as [->|Hne].
    + exists o, (nextInstance w). split.
      * unfold construct. cbn [trace record setCell]. apply elem_of_app. right. left.
      * rewrite construct_eq by done. done.
    + rewrite construct_ne in Hi |- * by done.
      destruct (HB i Hi) as (o' & r & Hin & Hinst). exists o', r. split; [|done].
      unfold construct. cbn [trace record setCell]. apply elem_of_app. by left.
Qed.

Lemma creates_injects_wired :
  (∀ s w out, creates layer s w out →
     length (heap w) = n → (s < n)%nat → wired layer w →
     match out with
     | Done _ w' | Throw _ w' => wired layer w'
     | OutOfFuel => True
     end)
  ∧ (∀ deps acc w out, injects layer deps acc w out →
       length (heap w) = n → wired layer w →
       match out with
       | Done acc' w' => wired layer w' ∧ acc' = wiringFrom layer w' deps acc
       | Throw _ w' => wired layer w'
       | OutOfFuel => True
       end).
Proof.
  apply creates_injects_ind.
  - intros s w inst _ _ Hlen Hs Hw. apply wired_incrementRef; [lia|done].
  - done.
  - done.
  - done.
  - intros s w instances w2 Hst Hloop IH Hlen Hs Hw.
    pose proof (grows_markConstructing s w Hst) as Hg1.
    assert (length (heap (markConstructing s w)) = n) as Hlen1
      by (destruct Hg1 as [Hl _]; lia).
    destruct (IH Hlen1 (wired_markConstructing s w ltac:(lia) Hst Hw)) as [Hw2 ->].
    destruct (proj2 (creates_injects_grow layer Hvalid) _ _ _ _ Hloop Hlen1)
      as (Hg2 & _ & Hall).
    apply wired_construct; [destruct Hg2 as [Hl _]; lia| | |done].
    + destruct Hg2 as (_ & _ & _ & Hc). specialize (Hc s).
      rewrite markConstructing_eq in Hc by lia. cbn [state] in Hc. by rewrite Hc.
    + rewrite Forall_forall in Hall. intros d t Hd Ht. by apply (Hall d).
  - intros s w e w' Hst _ IH Hlen Hs Hw.
    pose proof (grows_markConstructing s w Hst) as Hg1.
    apply IH; [destruct Hg1 as [Hl _]; lia|].
    apply wired_markConstructing; [lia|done..].
  - done.
  - done.
  - intros d rest acc w t e w' Hlook _ IH Hlen Hw. apply IH; [done| |done].
    by eapply Hvalid.
  - intros d rest acc w t inst w1 out Hlook Hcall IH1 Hrest IH2 Hlen Hw.
    pose proof (Hvalid _ _ Hlook) as Ht.
    pose proof (proj1 (creates_injects_grow layer Hvalid) _ _ _ Hcall Hlen Ht)
      as (Hg & _ & Hst & Hinst).
    assert (length (heap w1) = n) as Hlen1 by (destruct Hg as [Hl _]; lia).
    specialize (IH2 Hlen1 (IH1 Hlen Ht Hw)).
    pose proof (proj2 (creates_injects_grow layer Hvalid) _ _ _ _ Hrest Hlen1) as Hok.
    destruct out as [acc' w'|e w'|]; [|done..].
    destruct IH2 as [Hw' ->]. split; [done|].
    destruct Hok as (Hg' & _).
    unfold wiringFrom at 2. cbn [fold_left]. rewrite Hlook.
    destruct (grows_keeps _ _ Hg' t Hst) as [_ Hsame]. by rewrite Hsame, Hinst.
Qed.

Lemma wired_initialWorld : wired layer (initialWorld layer).
Proof.
  split.
  - intros s o r Hin. by apply elem_of_nil in Hin.
  - intros s Hs. by rewrite cell_initialWorld in Hs.
Qed.

Lemma constructsAll_wired refs w out :
  constructsAll layer refs w out →
  length (heap w) = n → Forall (λ s, (s < n)%nat) refs → wired layer w →
  match out with
  | Done _ w' | Throw _ w' => wired layer w'
  | OutOfFuel => True
  end.
Proof.
  induction 1 as [w|s rest w e w' Hcall|s rest w inst w' out Hcall Hrest IH];
    intros Hlen Hrefs Hw.
  - done.
  - apply Forall_cons in Hrefs as [Hs _].
    by apply (proj1 creates_injects_wired _ _ _ Hcall).
  - apply Forall_cons in Hrefs as [Hs Hrefs].
    pose proof (proj1 (creates_injects_grow layer Hvalid) _ _ _ Hcall Hlen Hs)
      as (Hg & _).
    apply IH; [destruct Hg as [Hl _]; lia|done|].
    by apply (proj1 creates_injects_wired _ _ _ Hcall).
Qed.
End Wiring.

(** ** An upper bound on the counts, also when construction throws *)

Section CountBound.
Context (layer : ServiceLayer).
Hypothesis Hvalid : lookupValid layer.

Let n := length (allServices layer).

Lemma startedEdges_ext w w' x :
  (∀ i, state (cell w' i) = NotConstructed ↔ state (cell w i) = NotConstructed) →
  startedEdges layer w' x = startedEdges layer w x.
Proof.
  intros H. apply sumTo_ext. intros i _.
  destruct (decide (state (cell w' i) = NotConstructed)) as [Hc|Hc],
           (decide (state (cell w i) = NotConstructed)) as [Hc'|Hc']; try done.
  - by apply H in Hc.
  - by apply H in Hc'.
Qed.

Lemma startedEdges_mono w w' x :
  grows w w' → startedEdges layer w x ≤ startedEdges layer w' x.
Proof.
  intros (_ & _ & _ & Hcells). apply sumTo_le. intros i _.
  pose proof (resolveCount_nonneg layer (dependencies (repr layer i)) x) as Hpos.
  fold (edges layer i x) in Hpos.
  specialize (Hcells i).
  destruct (decide (state (cell w i) = NotConstructed)) as [Hc|Hc].
  - destruct (decide (state (cell w' i) = NotConstructed)); lia.
  - destruct (decide (state (cell w' i) = NotConstructed)) as [Hc'|Hc']; [|lia].
    exfalso. destruct (state (cell w i)) eqn:Hst; try done.
    + rewrite Hcells, Hst in Hc'. done.
    + destruct Hcells as [Hst' _]. congruence.
    + rewrite Hcells, Hst in Hc'. done.
Qed.

Lemma startedEdges_markConstructing s w x :
  length (heap w) = n → (s < n)%nat →
  state (cell w s) = NotConstructed →
  startedEdges layer (markConstructing s w) x = startedEdges layer w x + edges layer s x.
Proof.
  intros Hlen Hs Hst. unfold startedEdges.
  rewrite (sumTo_update _
    (λ i, if decide (state (cell w i) = NotConstructed) then 0 else edges layer i x)
    (λ i, if decide (state (cell (markConstructing s w) i) = NotConstructed)
          then 0 else edges layer i x) s); [|done|].
  - rewrite markConstructing_eq by lia. cbn [state]. rewrite Hst.
    destruct (decide (Constructing = NotConstructed)); [done|].
    destruct (decide (NotConstructed = NotConstructed)); [lia|done].
  - intros i Hne. by rewrite markConstructing_ne.
Qed.

Lemma creates_injects_bound :
  (∀ s w out, creates layer s w out →
     length (heap w) = n → (s < n)%nat →
     (∀ i, 0 ≤ useCount (cell w i)) →
     countedTo layer (λ x, indicator x s) w out)
  ∧ (∀ deps acc w out, injects layer deps acc w out →
       length (heap w) = n →
       (∀ i, 0 ≤ useCount (cell w i)) →
       countedTo layer (resolveCount layer deps) w out).
Proof.
  assert (Hself : ∀ w extra, (∀ i, 0 ≤ useCount (cell w i)) → (∀ x, 0 ≤ extra x) →
            (∀ i, 0 ≤ useCount (cell w i))
            ∧ ∀ x, useCount (cell w x)
                   ≤ useCount (cell w x) + startedEdges layer w x
                     - startedEdges layer w x + extra x).
  { intros w extra Hpos Hextra. split; [done|]. intros x. specialize (Hextra x). lia. }
  assert (Hind : ∀ s x, 0 ≤ indicator x s).
  { intros s x. unfold indicator. destruct (decide (x = s)); lia. }
  apply creates_injects_ind.
  - intros s w inst Hst Hinst Hlen Hs Hpos. simpl. split.
    + intros i. destruct (decide (i = s)) as [->|Hne].
      * rewrite incrementRef_eq by lia. cbn [useCount]. specialize (Hpos s). lia.
      * rewrite incrementRef_ne by done. apply Hpos.
    + intros x. rewrite (startedEdges_ext w (incrementRef s w)).
      * unfold indicator. destruct (decide (x = s)) as [->|Hne].
        -- rewrite incrementRef_eq by lia. cbn [useCount]. lia.
        -- rewrite incrementRef_ne by done. lia.
      * intros i. destruct (decide (i = s)) as [->|Hne].
        -- rewrite incrementRef_eq by lia. done.
        -- by rewrite incrementRef_ne.
  - intros s w _ _ _ _ Hpos. by apply Hself.
  - intros s w _ _ _ Hpos. by apply Hself.
  - intros s w _ _ _ Hpos. by apply Hself.
  - intros s w instances w2 Hst Hloop IH Hlen Hs Hpos.
    pose proof (grows_markConstructing s w Hst) as Hg1.
    assert (length (heap (markConstructing s w)) = n) as Hlen1
      by (destruct Hg1 as [Hl _]; lia).
    assert (∀ i, 0 ≤ useCount (cell (markConstructing s w) i)) as Hpos1.
    { intros i. destruct (decide (i = s)) as [->|Hne].
      - rewrite markConstructing_eq by lia. apply Hpos.
      - rewrite markConstructing_ne by done. apply Hpos. }
    destruct (IH Hlen1 Hpos1) as [Hpos2 Hbound].
    destruct (proj2 (creates_injects_grow layer Hvalid) _ _ _ _ Hloop Hlen1)
      as (Hg2 & _ & _).
    assert (length (heap w2) = n) as Hlen2 by (destruct Hg2 as [Hl _]; lia).
    assert (state (cell w2 s) = Constructing) as Hst2.
    { destruct Hg2 as (_ & _ & _ & Hc). specialize (Hc s).
      rewrite markConstructing_eq in Hc by lia. cbn [state] in Hc. by rewrite Hc. }
    assert (∀ x, startedEdges layer (construct s (optionsFor layer s instances) w2) x
                 = startedEdges layer w2 x) as Hsame.
    { intros x. apply startedEdges_ext. intros i. destruct (decide (i = s)) as [->|Hne].
      - rewrite construct_eq by lia. cbn [state]. rewrite Hst2. done.
      - by rewrite construct_ne. }
    simpl. split.
    + intros i. destruct (decide (i = s)) as [->|Hne].
      * rewrite construct_eq by lia. cbn [useCount]. lia.
      * rewrite construct_ne by done. apply Hpos2.
    + intros x. rewrite Hsame. specialize (Hbound x).
      rewrite (startedEdges_markConstructing s w x Hlen Hs Hst) in Hbound.
      fold (edges layer s x) in Hbound.
      unfold indicator. destruct (decide (x = s)) as [->|Hne].
      * rewrite construct_eq by lia. cbn [useCount].
        pose proof (startedEdges_mono _ _ s Hg2) as Hm.
        rewrite (startedEdges_markConstructing s w s Hlen Hs Hst) in Hm.
        pose proof (resolveCount_nonneg layer (dependencies (repr layer s)) s) as He.
        fold (edges layer s s) in He. specialize (Hpos s). lia.
      * rewrite construct_ne by done.
        rewrite markConstructing_ne in Hbound by done. lia.
  - intros s w e w2 Hst Hloop IH Hlen Hs Hpos.
    pose proof (grows_markConstructing s w Hst) as Hg1.
    assert (length (heap (markConstructing s w)) = n) as Hlen1
      by (destruct Hg1 as [Hl _]; lia).
    assert (∀ i, 0 ≤ useCount (cell (markConstructing s w) i)) as Hpos1.
    { intros i. destruct (decide (i = s)) as [->|Hne].
      - rewrite markConstructing_eq by lia. apply Hpos.
      - rewrite markConstructing_ne by done. apply Hpos. }
    destruct (IH Hlen1 Hpos1) as [Hpos2 Hbound].
    simpl. split; [done|]. intros x. specialize (Hbound x).
    rewrite (startedEdges_markConstructing s w x Hlen Hs Hst) in Hbound.
    fold (edges layer s x) in Hbound. specialize (Hind s x).
    assert (useCount (cell (markConstructing s w) x) = useCount (cell w x)) as Hsame.
    { destruct (decide (x = s)) as [->|Hne].
      - by rewrite markConstructing_eq by lia.
      - by rewrite markConstructing_ne. }
    lia.
  - intros acc w Hlen Hpos. apply Hself; [done|]. intros x. apply resolveCount_nonneg.
  - intros d rest acc w Hno Hlen Hpos. apply Hself; [done|].
    intros x. apply resolveCount_nonneg.
  - intros d rest acc w t e w' Hlook Hcall IH Hlen Hpos.
    destruct (IH Hlen (Hvalid _ _ Hlook) Hpos) as [Hpos' Hbound].
    simpl. split; [done|]. intros x. specialize (Hbound x).
    rewrite (resolveCount_cons_found layer d rest t x Hlook).
    pose proof (resolveCount_nonneg layer rest x). lia.
  - intros d rest acc w t inst w1 out Hlook Hcall IH1 Hrest IH2 Hlen Hpos.
    pose proof (Hvalid _ _ Hlook) as Ht.
    pose proof (proj1 (creates_injects_grow layer Hvalid) _ _ _ Hcall Hlen Ht)
      as (Hg & _).
    destruct (IH1 Hlen Ht Hpos) as [Hpos1 Hbound1].
    specialize (IH2 ltac:(destruct Hg as [Hl _]; lia) Hpos1).
    destruct out as [acc' w'|e w'|]; [| |done]; destruct IH2 as [Hpos2 Hbound2];
      (split; [done|]); intros x; specialize (Hbound1 x); specialize (Hbound2 x);
      rewrite (resolveCount_cons_found layer d rest t x Hlook); lia.
Qed.

Lemma constructsAll_bound refs w out :
  constructsAll layer refs w out →
  length (heap w) = n → Forall (λ s, (s < n)%nat) refs →
  (∀ i, 0 ≤ useCount (cell w i)) →
  countedTo layer (λ x, Z.of_nat (length (filter (λ s, s = x) refs))) w out.
Proof.
  induction 1 as [w|s rest w e w' Hcall|s rest w inst w' out Hcall Hrest IH];
    intros Hlen Hrefs Hpos.
  - simpl. split; [done|]. intros x. lia.
  - apply Forall_cons in Hrefs as [Hs _].
    destruct (proj1 creates_injects_bound _ _ _ Hcall Hlen Hs Hpos) as [Hpos' Hbound].
    simpl. split; [done|]. intros x. specialize (Hbound x).
    rewrite filter_cons. unfold indicator in Hbound.
    destruct (decide (x = s)) as [->|Hne];
      [rewrite decide_True by done|rewrite decide_False by done]; simpl length; lia.
  - apply Forall_cons in Hrefs as [Hs Hrefs].
    pose proof (proj1 (creates_injects_grow layer Hvalid) _ _ _ Hcall Hlen Hs) as (Hg & _).
    destruct (proj1 creates_injects_bound _ _ _ Hcall Hlen Hs Hpos) as [Hpos1 Hbound1].
    specialize (IH ltac:(destruct Hg as [Hl _]; lia) Hrefs Hpos1).
    destruct out as [[] w''|e w''|]; [| |done]; destruct IH as [Hpos2 Hbound2];
      (split; [done|]); intros x; specialize (Hbound1 x); specialize (Hbound2 x);
      rewrite filter_cons; unfold indicator in Hbound1;
      (destruct (decide (x = s)) as [->|Hne];
       [rewrite decide_True by done|rewrite decide_False by done]); simpl length; lia.
Qed.
End CountBound.

(** ** The stores that start() leaves are balanced *)

Lemma start_Throw layer fuel w e w' :
  layerState w = NotStarted →
  start fuel layer w = Throw e w' →
  constructsAll layer (serviceRefs layer) w (Throw e w').
Proof.
  intros Hst. unfold start. rewrite bind_eq. unfold getLayerState. rewrite Hst.
  destruct (decide (NotStarted ≠ NotStarted)) as [|_]; [done|].
  rewrite bind_eq.
  destruct (forEach_constructsAll layer fuel (serviceRefs layer) w) as [Hout|Hc].
  - by rewrite Hout.
  - destruct (forEach (serviceRefs layer) _ w) as [[] w1|e1 w1|]; [done| |done].
    by intros [= <- <-].
Qed.

Lemma startedEdges_le_dependents layer w x :
  startedEdges layer w x ≤ dependents layer x.
Proof.
  apply sumTo_le. intros i _.
  pose proof (resolveCount_nonneg layer (dependencies (repr layer i)) x) as Hpos.
  fold (edges layer i x) in Hpos.
  destruct (decide (state (cell w i) = NotConstructed)); lia.
Qed.

Lemma startedEdges_initialWorld layer x :
  startedEdges layer (initialWorld layer) x = 0.
Proof.
  unfold startedEdges. rewrite (sumTo_ext _ _ (λ _, 0)).
  - generalize (length (allServices layer)) as m.
    induction m as [|m IH]; cbn [sumTo]; lia.
  - intros i _. rewrite cell_initialWorld. cbn [state initialCell].
    by destruct (decide (NotConstructed = NotConstructed)).
Qed.

Lemma balanced_initialWorld layer : balanced layer (initialWorld layer).
Proof.
  split; [done|]. intros x Hx. rewrite cell_initialWorld. split; [done|].
  pose proof (dependents_nonneg layer x). cbn [useCount initialCell]. lia.
Qed.

Lemma constructsAll_balanced layer out :
  lookupValid layer →
  constructsAll layer (serviceRefs layer) (initialWorld layer) out →
  match out with
  | Done _ w | Throw _ w =>
      balanced layer w ∧ length (heap w) = length (allServices layer)
  | OutOfFuel => True
  end.
Proof.
  intros Hvalid Hall.
  pose proof (constructsAll_bound layer Hvalid _ _ _ Hall (length_initialWorld layer)
                (serviceRefs_valid layer)
                ltac:(intros i; by rewrite cell_initialWorld)) as Hbound.
  pose proof (constructsAll_touched layer _ _ _ Hall) as Htouched.
  assert (∀ w, grows (initialWorld layer) w →
               (∀ i, touched w i = touched (initialWorld layer) i) →
               (∀ x, useCount (cell w x)
                     ≤ useCount (cell (initialWorld layer) x) + startedEdges layer w x
                       - startedEdges layer (initialWorld layer) x
                       + Z.of_nat (length (filter (λ s, s = x) (serviceRefs layer)))) →
               balanced layer w ∧ length (heap w) = length (allServices layer)) as Hmain.
  { intros w Hg Ht Hb. split; [split|].
    - intros i. by rewrite Ht.
    - intros x Hx. split.
      + by destruct (grows_healthy _ _ (healthy_initialWorld layer) Hg x).
      + specialize (Hb x). rewrite cell_initialWorld, startedEdges_initialWorld in Hb.
        unfold serviceRefs in Hb. rewrite count_in_seq in Hb.
        destruct (decide (x < length (allServices layer))%nat); [|done].
        pose proof (startedEdges_le_dependents layer w x).
        cbn [useCount initialCell] in Hb. lia.
    - destruct Hg as [Hl _]. rewrite Hl. apply length_initialWorld. }
  destruct out as [[] w|e w|]; [| |done].
  - destruct Hbound as [_ Hb].
    destruct (constructsAll_count layer Hvalid _ _ _ Hall (length_initialWorld layer)
                (serviceRefs_valid layer)) as (_ & Hg & _).
    by apply Hmain.
  - destruct Hbound as [_ Hb].
    pose proof (constructsAll_grows layer _ _ _ Hvalid Hall (length_initialWorld layer)
                  (serviceRefs_valid layer)) as Hg.
    by apply Hmain.
Qed.

(** ** More fuel does not change a result *)

Section MoreFuel.
Context (layer : ServiceLayer).

Lemma forEachAcc_more (f g : nat → Action Instance) :
  (∀ s w, f s w ≠ OutOfFuel → g s w = f s w) →
  ∀ deps acc w,
    forEachAcc deps (injectDependency f layer) acc w ≠ OutOfFuel →
    forEachAcc deps (injectDependency g layer) acc w
    = forEachAcc deps (injectDependency f layer) acc w.
Proof.
  intros Hfg deps. induction deps as [|d rest IH]; intros acc w Hrun; [done|].
  cbn [forEachAcc] in *. rewrite !bind_eq, !injectDependency_eq in *.
  destruct (serviceLookup layer (required d)) as [t| |]; [|done..].
  destruct (f t w) as [inst w'|e w'|] eqn:Hcall; [| |done].
  - rewrite (Hfg t w) by (rewrite Hcall; done). rewrite Hcall. by apply IH.
  - rewrite (Hfg t w) by (rewrite Hcall; done). by rewrite Hcall.
Qed.

Lemma createService_more fuel s w :
  createService fuel layer s w ≠ OutOfFuel →
  createService (S fuel) layer s w = createService fuel layer s w.
Proof.
  revert s w. induction fuel as [|fuel IH]; intros s w Hrun; [done|].
  remember (S fuel) as fuel1 eqn:Hfuel1.
  cbn [createService]. rewrite Hfuel1 in *. cbn [createService] in Hrun |- *.
  rewrite !bind_eq in *. unfold getState in *.
  destruct (state (cell w s)); try done.
  rewrite !bind_eq in *. unfold beforeCreate, perform in *. rewrite !bind_eq in *.
  destruct (forEachAcc _ (injectDependency (createService fuel layer) layer) _ _)
    as [instances w'|e w'|] eqn:Hloop; [| |done].
  - rewrite (forEachAcc_more (createService fuel layer) (createService (S fuel) layer))
      by (done || by rewrite Hloop).
    by rewrite Hloop.
  - rewrite (forEachAcc_more (createService fuel layer) (createService (S fuel) layer))
      by (done || by rewrite Hloop).
    by rewrite Hloop.
Qed.

Lemma createService_fuel_le fuel fuel' s w :
  (fuel ≤ fuel')%nat →
  createService fuel layer s w ≠ OutOfFuel →
  createService fuel' layer s w = createService fuel layer s w.
Proof.
  intros Hle Hrun. induction Hle as [|fuel' Hle IH]; [done|].
  rewrite createService_more; [done|]. by rewrite IH.
Qed.

Lemma forEach_more {A} (f g : A → Action unit) :
  (∀ x w, f x w ≠ OutOfFuel → g x w = f x w) →
  ∀ l w, forEach l f w ≠ OutOfFuel → forEach l g w = forEach l f w.
Proof.
  intros Hfg l. induction l as [|x rest IH]; intros w Hrun; [done|].
  cbn [forEach] in *. rewrite !bind_eq in *.
  destruct (f x w) as [[] w'|e w'|] eqn:Hcall; [| |done].
  - rewrite (Hfg x w) by (rewrite Hcall; done). rewrite Hcall. by apply IH.
  - rewrite (Hfg x w) by (rewrite Hcall; done). by rewrite Hcall.
Qed.

Lemma releaseDependency_more (f g : nat → Action unit) :
  (∀ s w, f s w ≠ OutOfFuel → g s w = f s w) →
  ∀ d w, releaseDependency f layer d w ≠ OutOfFuel →
         releaseDependency g layer d w = releaseDependency f layer d w.
Proof.
  intros Hfg d w. rewrite !releaseDependency_eq.
  destruct (serviceLookup layer (required d)); [apply Hfg|done..].
Qed.

Lemma destroyService_more fuel s w :
  destroyService fuel layer s w ≠ OutOfFuel →
  destroyService (S fuel) layer s w = destroyService fuel layer s w.
Proof.
  revert s w. induction fuel as [|fuel IH]; intros s w Hrun; [done|].
  remember (S fuel) as fuel1 eqn:Hfuel1.
  cbn [destroyService]. rewrite Hfuel1 in *. cbn [destroyService] in Hrun |- *.
  rewrite !bind_eq in *. unfold getState in *.
  assert (Hlive :
    ((let* n := removeRef s in
      if decide (n ≤ 0) then destroyRepr s else ret tt) ;;
     forEach (dependencies (repr layer s))
       (releaseDependency (destroyService fuel layer) layer)) w ≠ OutOfFuel →
    ((let* n := removeRef s in
      if decide (n ≤ 0) then destroyRepr s else ret tt) ;;
     forEach (dependencies (repr layer s))
       (releaseDependency (destroyService (S fuel) layer) layer)) w
    = ((let* n := removeRef s in
        if decide (n ≤ 0) then destroyRepr s else ret tt) ;;
       forEach (dependencies (repr layer s))
         (releaseDependency (destroyService fuel layer) layer)) w).
  { assert (∀ f : ReferenceSpec → Action unit,
      ((let* n := removeRef s in
        if decide (n ≤ 0) then destroyRepr s else ret tt) ;;
       forEach (dependencies (repr layer s)) f) w
      = forEach (dependencies (repr layer s)) f (release s w)) as Hbody.
    { intros f. by rewrite bind_eq, release_eq. }
    rewrite !Hbody. intros Hloop.
    apply forEach_more; [|done]. by apply releaseDependency_more. }
  destruct (state (cell w s)); try (by apply Hlive). done.
Qed.

Lemma destroyService_fuel_le fuel fuel' s w :
  (fuel ≤ fuel')%nat →
  destroyService fuel layer s w ≠ OutOfFuel →
  destroyService fuel' layer s w = destroyService fuel layer s w.
Proof.
  intros Hle Hrun. induction Hle as [|fuel' Hle IH]; [done|].
  rewrite destroyService_more; [done|]. by rewrite IH.
Qed.

Lemma start_fuel_le fuel fuel' w :
  (fuel ≤ fuel')%nat →
  start fuel layer w ≠ OutOfFuel →
  start fuel' layer w = start fuel layer w.
Proof.
  intros Hle. unfold start. rewrite !bind_eq. unfold getLayerState.
  destruct (decide (layerState w ≠ NotStarted)); [done|].
  rewrite !bind_eq. intros Hrun.
  rewrite (forEach_more (λ value, createService fuel layer value ;; ret tt)
             (λ value, createService fuel' layer value ;; ret tt)); [done| |].
  - intros x w1. rewrite !bind_eq. intros Hcall.
    rewrite (createService_fuel_le fuel fuel' x w1 Hle); [done|].
    by destruct (createService fuel layer x w1).
  - by destruct (forEach _ _ w).
Qed.

Lemma destroy_fuel_le fuel fuel' w :
  (fuel ≤ fuel')%nat →
  destroy fuel layer w ≠ OutOfFuel →
  destroy fuel' layer w = destroy fuel layer w.
Proof.
  intros Hle. unfold destroy. rewrite !bind_eq. intros Hrun.
  rewrite (forEach_more (λ value, destroyService fuel layer value)
             (λ value, destroyService fuel' layer value)); [done| |].
  - intros x w1 Hcall. by apply destroyService_fuel_le.
  - by destruct (forEach _ _ w).
Qed.
End MoreFuel.

(** ** Certificates and readings *)

Lemma rankedBy_acyclic layer rank : rankedBy layer rank = true → acyclic layer.
Proof.
  intros Hrank.
  assert (∀ s t, dependsOn layer s t → (rank t < rank s)%nat) as Hstep.
  { intros s t Hdep. pose proof (dependsOn_valid layer s t Hdep) as Hs.
    destruct Hdep as (d & Hd & Hlook).
    unfold rankedBy in Hrank. rewrite forallb_forall in Hrank.
    specialize (Hrank s). rewrite forallb_forall in Hrank.
    assert (In s (serviceRefs layer)) as Hin.
    { apply list_elem_of_In, elem_of_seq. lia. }
    specialize (Hrank Hin d ltac:(by apply list_elem_of_In)).
    rewrite Hlook in Hrank. by apply bool_decide_eq_true in Hrank. }
  assert (∀ s t, tc (dependsOn layer) s t → (rank t < rank s)%nat) as Hpath.
  { intros s t Htc. induction Htc as [s t Hdep|s t u Hdep _ IH].
    - by apply Hstep.
    - apply Hstep in Hdep. lia. }
  intros s Hs. apply Hpath in Hs. lia.
Qed.

Lemma newServiceLayer_layerOf packages layer :
  newServiceLayer packages = inr layer → layer = layerOf packages.
Proof.
  intros H. apply newServiceLayer_inr in H as (Hall & Hlook & Hdecl & _).
  destruct layer as [lookup decl all]. simpl in *. subst. reflexivity.
Qed.

Lemma injects_resolved layer deps acc w acc' w' :
  injects layer deps acc w (Done acc' w') →
  ∀ d, d ∈ deps → ∃ t, serviceLookup layer (required d) = Found t.
Proof.
  intros Hinj. remember (Done acc' w') as out eqn:Hout.
  induction Hinj as [acc0 w0|d0 rest acc0 w0 Hno|d0 rest acc0 w0 t e w1 Hlook Hcall
                     |d0 rest acc0 w0 t inst w1 out Hlook Hcall Hrest IH];
    intros d Hd.
  - by apply elem_of_nil in Hd.
  - done.
  - done.
  - apply elem_of_cons in Hd as [->|Hd]; [by exists t|]. by apply IH.
Qed.

Lemma untilDestroy_split s calls before after :
  untilDestroy s calls = Some (before, after) →
  calls = (before ++ CallDestroy s :: after)%list
  ∧ existsb (isDestroyOf s) before = false.
Proof.
  revert before. induction calls as [|e rest IH]; intros before H; [done|].
  cbn [untilDestroy] in H. destruct (isDestroyOf s e) eqn:He.
  - injection H as <- <-. split; [|done].
    destruct e as [| | | |s']; try done. simpl in He.
    apply bool_decide_eq_true in He as ->. done.
  - destruct (untilDestroy s rest) as [[b a]|] eqn:Hrest; [|done].
    injection H as <- <-. destruct (IH b eq_refl) as [-> Hb].
    split; [done|]. simpl. by rewrite He.
Qed.

Lemma constructsAll_layerState layer refs w out :
  constructsAll layer refs w out →
  match out with
  | Done _ w' | Throw _ w' => layerState w' = layerState w
  | OutOfFuel => True
  end.
Proof.
  induction 1 as [w|s rest w e w' Hcall|s rest w inst w' out Hcall Hrest IH].
  - done.
  - exact (proj1 (creates_injects_layerState layer) _ _ _ Hcall).
  - pose proof (proj1 (creates_injects_layerState layer) _ _ _ Hcall) as H. simpl in H.
    destruct out; congruence.
Qed.

Lemma keeps_trans w1 w2 w3 : keeps w1 w2 → keeps w2 w3 → keeps w1 w3.
Proof.
  intros H1 H2 i Hi. destruct (H1 i Hi) as [Hst Hinst].
  destruct (H2 i Hst) as [Hst' Hinst']. split; [done|congruence].
Qed.

Lemma constructsAll_keeps layer refs w out :
  lookupValid layer →
  constructsAll layer refs w out →
  length (heap w) = length (allServices layer) →
  Forall (λ s, (s < length (allServices layer))%nat) refs →
  match out with
  | Done _ w' | Throw _ w' => keeps w w'
  | OutOfFuel => True
  end.
Proof.
  intros Hvalid.
  induction 1 as [w|s rest w e w' Hcall|s rest w inst w' out Hcall Hrest IH];
    intros Hlen Hrefs.
  - by intros i Hi.
  - apply Forall_cons in Hrefs as [Hs _]. apply grows_keeps.
    exact (proj1 (creates_injects_grow layer Hvalid) _ _ _ Hcall Hlen Hs).
  - apply Forall_cons in Hrefs as [Hs Hrefs].
    destruct (proj1 (creates_injects_grow layer Hvalid) _ _ _ Hcall Hlen Hs) as (Hg & _).
    specialize (IH ltac:(destruct Hg as [Hl _]; lia) Hrefs).
    destruct out as [[] w''|e w''|]; [| |done]; (eapply keeps_trans; [|exact IH]);
      by apply grows_keeps.
Qed.


Lemma resolvedAll_resolvable layer : resolvedAll layer = true → resolvable layer.
Proof.
  intros Hall s d Hd.
  assert (s < length (allServices layer))%nat as Hs.
  { unfold repr in Hd. destruct (allServices layer !! s) as [sv|] eqn:Hsv.
    - by eapply lookup_lt_Some.
    - by apply elem_of_nil in Hd. }
  unfold resolvedAll in Hall. rewrite forallb_forall in Hall.
  specialize (Hall s ltac:(apply list_elem_of_In, elem_of_seq; lia)).
  rewrite forallb_forall in Hall.
  specialize (Hall d ltac:(by apply list_elem_of_In)).
  destruct (serviceLookup layer (required d)) as [t| |]; [by exists t|done..].
Qed.

Lemma layerOf_valid packages : lookupValid (layerOf packages).
Proof. intros spec t Ht. by apply lookupIn_valid in Ht. Qed.

(** ** What the exceptions of a first construction report *)

Section Errors.
Context (layer : ServiceLayer).
Hypothesis Hvalid : lookupValid layer.

Let n := length (allServices layer).

(** Without any assumption on the lookup, the exceptions of a construction
    that starts from a store as construction leaves it are the cycle error,
    raised on a cycle, and the error of [mustGet], raised for an unresolved
    dependency of a service under construction. *)
Lemma creates_injects_errors :
  (∀ s w out, creates layer s w out →
     length (heap w) = n → (s < n)%nat → healthy w →
     (∀ c, state (cell w c) = Constructing → tc (dependsOn layer) c s) →
     ∀ e w', out = Throw e w' → accurate layer e w')
  ∧ (∀ deps acc w out, injects layer deps acc w out →
       length (heap w) = n → healthy w →
       ∀ owner, state (cell w owner) = Constructing →
       (∀ d, d ∈ deps → d ∈ dependencies (repr layer owner)) →
       (∀ c d t, state (cell w c) = Constructing → d ∈ deps →
                 serviceLookup layer (required d) = Found t →
                 tc (dependsOn layer) c t) →
       ∀ e w', out = Throw e w' → accurate layer e w').
Proof.
  apply creates_injects_ind.
  - done.
  - intros s w Hst Hinst _ _ Hh _ e w' _.
    destruct (Hh s) as [_ Hc]. destruct (Hc Hst) as [[inst Hsome] _]. congruence.
  - intros s w Hst _ _ _ Hanc e w' [= <- <-]. left. split; [done|].
    exists s. split; [|done]. by apply Hanc.
  - intros s w Hst _ _ Hh _ e w' _. by destruct (Hh s) as [Hnd _].
  - done.
  - intros s w e w' Hst _ IH Hlen Hs Hh Hanc e' w'' [= <- <-].
    pose proof (grows_markConstructing s w Hst) as Hg.
    eapply (IH ltac:(destruct Hg as [Hl _]; lia)
              ltac:(by eapply grows_healthy) s); [| | |done].
    + by rewrite markConstructing_eq by lia.
    + done.
    + intros c d t Hc Hd Hlook.
      assert (dependsOn layer s t) as Hdep by (by exists d).
      destruct (decide (c = s)) as [->|Hne]; [by apply tc_once|].
      rewrite markConstructing_ne in Hc by done.
      eapply tc_r; [|exact Hdep]. by apply Hanc.
  - done.
  - intros d rest acc w Hno _ _ owner Hown Hsub _ e w' [= <- <-]. right.
    exists owner, d. split; [apply Hsub; left|]. by split.
  - intros d rest acc w t e w' Hlook _ IH Hlen Hh owner Hown Hsub Hanc e' w'' [= <- <-].
    eapply IH; [done|by eapply Hvalid|done| |done].
    intros c Hc. eapply Hanc; [done|left|done].
  - intros d rest acc w t inst w' out Hlook Hcall _ _ IH Hlen Hh owner Hown Hsub Hanc.
    pose proof (proj1 (creates_injects_grow layer Hvalid) _ _ _ Hcall Hlen
                  (Hvalid _ _ Hlook)) as (Hg & Hset & _).
    apply (IH ltac:(destruct Hg as [Hl _]; lia) ltac:(by eapply grows_healthy) owner).
    + destruct Hg as (_ & _ & _ & Hc). specialize (Hc owner).
      rewrite Hown in Hc. by rewrite Hc.
    + intros d' Hd'. apply Hsub. by right.
    + intros c d' t' Hc Hd' Hlook'. eapply Hanc; [by apply Hset|by right|done].
Qed.

(** Construction keeps the declared dependencies of every constructed
    service resolved. *)
Lemma creates_injects_resolved :
  (∀ s w out, creates layer s w out →
     length (heap w) = n → (s < n)%nat → resolvedBuilt layer w →
     match out with
     | Done _ w' | Throw _ w' => resolvedBuilt layer w'
     | OutOfFuel => True
     end)
  ∧ (∀ deps acc w out, injects layer deps acc w out →
       length (heap w) = n → resolvedBuilt layer w →
       match out with
       | Done _ w' | Throw _ w' => resolvedBuilt layer w'
       | OutOfFuel => True
       end).
Proof.
  assert (Hmark : ∀ s w, (s < length (heap w))%nat → resolvedBuilt layer w →
                         resolvedBuilt layer (markConstructing s w)).
  { intros s w Hs Hr i Hi. destruct (decide (i = s)) as [->|Hne].
    - by rewrite markConstructing_eq in Hi by done.
    - rewrite markConstructing_ne in Hi by done. by apply Hr. }
  apply creates_injects_ind.
  - intros s w inst Hst _ Hlen Hs Hr i Hi. destruct (decide (i = s)) as [->|Hne].
    + by apply Hr.
    + rewrite incrementRef_ne in Hi by done. by apply Hr.
  - done.
  - done.
  - done.
  - intros s w instances w2 Hst Hloop IH Hlen Hs Hr.
    pose proof (grows_markConstructing s w Hst) as Hg1.
    assert (length (heap (markConstructing s w)) = n) as Hlen1
      by (destruct Hg1 as [Hl _]; lia).
    specialize (IH Hlen1 (Hmark s w ltac:(lia) Hr)). simpl in IH.
    intros i Hi. destruct (decide (i = s)) as [->|Hne].
    + intros d Hd. by eapply injects_resolved.
    + rewrite construct_ne in Hi by done. by apply IH.
  - intros s w e w' Hst _ IH Hlen Hs Hr.
    pose proof (grows_markConstructing s w Hst) as Hg1.
    apply IH; [destruct Hg1 as [Hl _]; lia|]. apply Hmark; [lia|done].
  - done.
  - done.
  - intros d rest acc w t e w' Hlook _ IH Hlen Hr.
    apply IH; [done|by eapply Hvalid|done].
  - intros d rest acc w t inst w' out Hlook Hcall IH1 _ IH2 Hlen Hr.
    pose proof (proj1 (creates_injects_grow layer Hvalid) _ _ _ Hcall Hlen
                  (Hvalid _ _ Hlook)) as (Hg & _).
    apply IH2; [destruct Hg as [Hl _]; lia|].
    by apply (IH1 Hlen (Hvalid _ _ Hlook) Hr).
Qed.

Lemma constructsAll_resolved refs w out :
  constructsAll layer refs w out →
  length (heap w) = n → Forall (λ s, (s < n)%nat) refs → resolvedBuilt layer w →
  match out with
  | Done _ w' | Throw _ w' => resolvedBuilt layer w'
  | OutOfFuel => True
  end.
Proof.
  induction 1 as [w|s rest w e w' Hcall|s rest w inst w' out Hcall Hrest IH];
    intros Hlen Hrefs Hr.
  - done.
  - apply Forall_cons in Hrefs as [Hs _].
    by apply (proj1 creates_injects_resolved _ _ _ Hcall).
  - apply Forall_cons in Hrefs as [Hs Hrefs].
    pose proof (proj1 (creates_injects_grow layer Hvalid) _ _ _ Hcall Hlen Hs)
      as (Hg & _).
    apply IH; [destruct Hg as [Hl _]; lia|done|].
    by apply (proj1 creates_injects_resolved _ _ _ Hcall).
Qed.
End Errors.

(** ** start() on a freshly built layer, whatever the lookup answers *)

Section FirstStart.
Context (layer : ServiceLayer).
Hypothesis Hvalid : lookupValid layer.

Let n := length (allServices layer).

(** What holds between two calls of the loop of start(). *)
Let between (fuel : nat) (pre : list nat) (w : World) : Prop :=
  length (heap w) = n ∧ healthy w
  ∧ (∀ c, state (cell w c) ≠ Constructing)
  ∧ (notConstructedCount w < fuel)%nat
  ∧ layerState w = NotStarted
  ∧ ∀ s, s ∈ pre → state (cell w s) = Constructed.

Lemma first_start_step fuel pre x post w :
  serviceRefs layer = (pre ++ x :: post)%list →
  between fuel pre w →
  match (createService fuel layer x ;; ret tt) w with
  | Done _ w' => between fuel (pre ++ [x])%list w'
  | Throw e w' => accurate layer e w' ∧ layerState w' = NotStarted
  | OutOfFuel => False
  end.
Proof.
  intros Hsplit (Hl1 & Hh1 & Hn1 & Hf1 & Hls1 & Hpre).
  assert (x < n)%nat as Hx.
  { assert (x ∈ serviceRefs layer) as Hin
      by (rewrite Hsplit; apply elem_of_app; right; left).
    apply elem_of_seq in Hin. unfold n. lia. }
  rewrite bind_eq.
  pose proof (createService_fuel layer Hvalid fuel x w Hl1 Hx Hf1) as Hf.
  pose proof (createService_grows layer Hvalid fuel x w Hl1 Hx) as Hok.
  destruct (createService_creates layer fuel x w) as [|Hc]; [done|].
  pose proof (proj1 (creates_injects_errors layer Hvalid) _ _ _ Hc Hl1 Hx Hh1)
    as Herr.
  destruct (createService fuel layer x w) as [inst w2|e w2|]; [| |done].
  - destruct Hok as (Hg & Hset & Hst & _). cbn [ret].
    split; [destruct Hg as [Hl _]; lia|].
    split; [by eapply grows_healthy|].
    split; [intros c Hc'; by eapply Hn1, Hset|].
    split; [destruct Hg as (_ & _ & Hn & _); lia|].
    split; [destruct Hg as (_ & Hl & _); congruence|].
    intros s Hs. apply elem_of_app in Hs as [Hs|Hs].
    + destruct Hg as (_ & _ & _ & Hcell). specialize (Hcell s).
      rewrite (Hpre s Hs) in Hcell. tauto.
    + apply list_elem_of_singleton in Hs. by subst.
  - split.
    + apply (Herr ltac:(intros c Hc'; by destruct (Hn1 c)) e w2 eq_refl).
    + destruct Hok as (_ & Hl & _). congruence.
Qed.

(** start() on a freshly built layer returns or throws; it never runs out
    of fuel above the number of services, and what it throws is accurate. *)
Lemma first_start fuel :
  (n < fuel)%nat →
  (∃ w', start fuel layer (initialWorld layer) = Done tt w'
         ∧ layerState w' = Started
         ∧ ∀ s, (s < n)%nat → state (cell w' s) = Constructed)
  ∨ (∃ e w', start fuel layer (initialWorld layer) = Throw e w'
             ∧ layerState w' = NotStarted
             ∧ accurate layer e w').
Proof.
  intros Hfuel.
  unfold start. rewrite bind_eq. unfold getLayerState. cbn [layerState initialWorld].
  destruct (decide (NotStarted ≠ NotStarted)) as [?|_]; [done|].
  rewrite bind_eq.
  pose proof (forEach_rule (between fuel)
                (λ e w', accurate layer e w' ∧ layerState w' = NotStarted) False
                (λ value, createService fuel layer value ;; ret tt)
                (serviceRefs layer) (first_start_step fuel) (initialWorld layer)) as Hloop.
  assert (between fuel [] (initialWorld layer)) as Hinit.
  { split; [apply length_initialWorld|]. split; [apply healthy_initialWorld|].
    split; [intros c; by rewrite cell_initialWorld|].
    split; [by rewrite notConstructedCount_initialWorld|].
    split; [done|]. intros s Hs. by apply elem_of_nil in Hs. }
  specialize (Hloop Hinit).
  destruct (forEach (serviceRefs layer) _ (initialWorld layer)) as [[] w'|e w'|];
    [| |done].
  - left. destruct Hloop as (_ & _ & _ & _ & _ & Hall).
    eexists. split; [reflexivity|]. split; [done|].
    intros s Hs. apply Hall. apply elem_of_seq. unfold n in Hs. lia.
  - right. destruct Hloop as [Hacc Hls]. by exists e, w'.
Qed.

(** A start() that returns shows that every declared dependency resolves. *)
Lemma start_Done_resolvable fuel w :
  start fuel layer (initialWorld layer) = Done tt w → resolvable layer.
Proof.
  intros Hstart. apply start_Done in Hstart as (_ & w1 & Hall & ->).
  pose proof (constructsAll_resolved layer Hvalid _ _ _ Hall (length_initialWorld layer)
                (serviceRefs_valid layer)
                ltac:(intros s Hs; by rewrite cell_initialWorld in Hs)) as Hr.
  destruct (constructsAll_count layer Hvalid _ _ _ Hall (length_initialWorld layer)
              (serviceRefs_valid layer)) as (_ & _ & _ & Hbuilt & _).
  rewrite Forall_forall in Hbuilt.
  intros s d Hd. apply (Hr s); [|done]. apply Hbuilt, elem_of_seq.
  assert (s < length (allServices layer))%nat; [|lia].
  unfold repr in Hd. destruct (allServices layer !! s) as [sv|] eqn:Hsv.
  - by eapply lookup_lt_Some.
  - by apply elem_of_nil in Hd.
Qed.
End FirstStart.

(** ** What createService() leaves alone *)

Section ConstructionFrame.
Context (layer : ServiceLayer).

(** [createService(s)] changes no service but [s] and the services [s]
    depends on, directly or through others. *)
Lemma creates_injects_frame :
  (∀ s w out, creates layer s w out →
     ∀ i, ¬ rtc (dependsOn layer) s i →
       match out with
       | Done _ w' | Throw _ w' => cell w' i = cell w i
       | OutOfFuel => True
       end)
  ∧ (∀ deps acc w out, injects layer deps acc w out →
       ∀ i, (∀ d t, d ∈ deps → serviceLookup layer (required d) = Found t →
                    ¬ rtc (dependsOn layer) t i) →
         match out with
         | Done _ w' | Throw _ w' => cell w' i = cell w i
         | OutOfFuel => True
         end).
Proof.
  assert (Hdeps : ∀ s i, ¬ rtc (dependsOn layer) s i →
            ∀ d t, d ∈ dependencies (repr layer s) →
                   serviceLookup layer (required d) = Found t →
                   ¬ rtc (dependsOn layer) t i).
  { intros s i Hi d t Hd Hlook Hreach. apply Hi.
    eapply rtc_l; [|exact Hreach]. by exists d. }
  apply creates_injects_ind.
  - intros s w inst _ _ i Hi. apply incrementRef_ne. intros ->. by apply Hi.
  - done.
  - done.
  - done.
  - intros s w instances w' _ _ IH i Hi.
    assert (i ≠ s) as Hne by (intros ->; by apply Hi).
    rewrite construct_ne by done. specialize (IH i (Hdeps s i Hi)). simpl in IH.
    rewrite IH. by apply markConstructing_ne.
  - intros s w e w' _ _ IH i Hi.
    assert (i ≠ s) as Hne by (intros ->; by apply Hi).
    specialize (IH i (Hdeps s i Hi)). simpl in IH.
    rewrite IH. by apply markConstructing_ne.
  - done.
  - done.
  - intros d rest acc w t e w' Hlook _ IH i Hi.
    apply IH. by apply (Hi d t ltac:(left)).
  - intros d rest acc w t inst w' out Hlook _ IH1 _ IH2 i Hi.
    specialize (IH1 i (Hi d t ltac:(left) Hlook)). simpl in IH1.
    specialize (IH2 i ltac:(intros d' t' Hd'; apply Hi; by right)).
    destruct out as [acc' w''|e w''|]; [| |done]; by rewrite IH2.
Qed.

(** A service on which nothing depends is only reached from itself. *)
Lemma rtc_no_dependents x s :
  (∀ u, ¬ dependsOn layer u s) → rtc (dependsOn layer) x s → x = s.
Proof.
  intros Hnone Hreach. apply rtc_inv_r in Hreach as [->|(u & _ & Hdep)]; [done|].
  by destruct (Hnone u).
Qed.
End ConstructionFrame.

(** ** start() after a start() that threw *)

Lemma setCell_outside s c w :
  (length (heap w) ≤ s)%nat → cell (setCell s c w) = cell w.
Proof.
  intros Hge. unfold cell, setCell. cbn [heap]. by rewrite list_insert_ge.
Qed.

Lemma state_incrementRef s w i :
  state (cell (incrementRef s w) i) = state (cell w i).
Proof.
  destruct (decide (i = s)) as [->|Hne]; [|by rewrite incrementRef_ne].
  destruct (decide (s < length (heap w))%nat) as [Hs|Hs].
  - by rewrite incrementRef_eq.
  - unfold incrementRef, record, cell. cbn [heap setCell].
    by rewrite list_insert_ge by lia.
Qed.

Lemma instance_incrementRef s w i :
  instance (cell (incrementRef s w) i) = instance (cell w i).
Proof.
  destruct (decide (i = s)) as [->|Hne]; [|by rewrite incrementRef_ne].
  destruct (decide (s < length (heap w))%nat) as [Hs|Hs].
  - by rewrite incrementRef_eq.
  - unfold incrementRef, record, cell. cbn [heap setCell].
    by rewrite list_insert_ge by lia.
Qed.

Lemma length_incrementRef s w : length (heap (incrementRef s w)) = length (heap w).
Proof. unfold incrementRef. cbn [heap record setCell]. apply length_insert. Qed.

Lemma length_addRefs refs w : length (heap (addRefs refs w)) = length (heap w).
Proof.
  revert w. induction refs as [|s rest IH]; intros w; [done|].
  unfold addRefs in *. cbn [fold_left]. by rewrite IH, length_incrementRef.
Qed.

(** [addRefs] changes nothing but the counts: each service of [refs] gains
    one reference per occurrence. *)
Lemma cell_addRefs refs w i :
  (∀ s, s ∈ refs → (s < length (heap w))%nat) →
  cell (addRefs refs w) i
  = {| state := state (cell w i);
       useCount := useCount (cell w i) + Z.of_nat (length (filter (λ s, s = i) refs));
       instance := instance (cell w i) |}.
Proof.
  revert w. induction refs as [|s rest IH]; intros w Hrefs.
  - simpl. destruct (cell w i) as [st c inst]. cbn [state useCount instance].
    f_equal. lia.
  - unfold addRefs in *. cbn [fold_left]. rewrite IH.
    + rewrite state_incrementRef, instance_incrementRef. f_equal.
      rewrite filter_cons. destruct (decide (s = i)) as [->|Hne].
      * rewrite incrementRef_eq by (apply Hrefs; left). cbn [useCount length]. lia.
      * rewrite incrementRef_ne by done. lia.
    + intros s' Hs'. rewrite length_incrementRef. apply Hrefs. by right.
Qed.

Section Retry.
Context (layer : ServiceLayer).
Hypothesis Hvalid : lookupValid layer.

Let n := length (allServices layer).

(** When the loop of start() throws, the service it was constructing is left
    under construction, and the services before it are constructed. *)
Lemma constructsAll_failure refs w e w' :
  constructsAll layer refs w (Throw e w') →
  length (heap w) = n → Forall (λ s, (s < n)%nat) refs →
  healthy w → (∀ c, state (cell w c) ≠ Constructing) →
  healthy w'
  ∧ ∃ pre x post,
      refs = (pre ++ x :: post)%list
      ∧ state (cell w' x) = Constructing
      ∧ (∀ s, s ∈ pre → state (cell w' s) = Constructed)
      ∧ ∀ i, (∀ u, ¬ dependsOn layer u i) → i ∉ pre → i ≠ x → cell w' i = cell w i.
Proof.
  intros Hall. remember (Throw e w') as out eqn:Hout.
  induction Hall as [w|s rest w e1 w1 Hcall|s rest w inst w1 out Hcall Hrest IH];
    intros Hlen Hrefs Hh Hnone.
  - done.
  - injection Hout as -> ->. apply Forall_cons in Hrefs as [Hs _].
    pose proof (proj1 (creates_injects_grow layer Hvalid) _ _ _ Hcall Hlen Hs) as Hg.
    simpl in Hg. split; [by eapply grows_healthy|].
    exists [], s, rest. split; [done|].
    assert (∀ i, (∀ u, ¬ dependsOn layer u i) → i ∉ [] → i ≠ s → cell w' i = cell w i)
      as Hframe.
    { intros i Hnodep _ Hne.
      apply (proj1 (creates_injects_frame layer) _ _ _ Hcall).
      intros Hreach. by apply (rtc_no_dependents layer) in Hreach. }
    split; [|split; [intros x Hx; by apply elem_of_nil in Hx|exact Hframe]].
    clear Hframe.
    inversion Hcall as [|s' w0 Hst Hinst|s' w0 Hst|s' w0 Hst| |s' w0 e0 w0' Hst Hloop];
      subst.
    + destruct (Hh s) as [_ Hc]. destruct (Hc Hst) as [[inst Hsome] _]. congruence.
    + by destruct (Hnone s).
    + by destruct (Hh s) as [Hnd _].
    + assert (length (heap (markConstructing s w)) = n) as Hlen1.
      { unfold markConstructing. cbn [heap record setCell]. by rewrite length_insert. }
      pose proof (proj2 (creates_injects_grow layer Hvalid) _ _ _ _ Hloop Hlen1) as Hg2.
      simpl in Hg2. destruct Hg2 as (_ & _ & _ & Hc). specialize (Hc s).
      rewrite markConstructing_eq in Hc by lia. cbn [state] in Hc. by rewrite Hc.
  - apply Forall_cons in Hrefs as [Hs Hrefs].
    pose proof (proj1 (creates_injects_grow layer Hvalid) _ _ _ Hcall Hlen Hs)
      as (Hg & Hset & Hst & _).
    destruct (IH Hout ltac:(destruct Hg as [Hl _]; lia) Hrefs
                ltac:(by eapply grows_healthy)
                ltac:(intros c Hc; by eapply Hnone, Hset))
      as (Hh' & pre & x & post & -> & Hx & Hpre & Hframe).
    split; [done|]. exists (s :: pre), x, post. split; [done|]. split; [done|]. split.
    + intros s' Hs'. apply elem_of_cons in Hs' as [->|Hs']; [|by apply Hpre].
      subst out.
      pose proof (constructsAll_keeps layer _ _ _ Hvalid Hrest
                    ltac:(destruct Hg as [Hl _]; lia) Hrefs) as Hkeep.
      simpl in Hkeep. by destruct (Hkeep s Hst).
    + intros i Hnodep Hi Hne. apply not_elem_of_cons in Hi as [Hne' Hi].
      rewrite (Hframe i Hnodep Hi Hne).
      apply (proj1 (creates_injects_frame layer) _ _ _ Hcall).
      intros Hreach. by apply (rtc_no_dependents layer) in Hreach.
Qed.

(** The loop of start() over constructed services adds a reference to each
    and throws the cycle error at the first service under construction. *)
Lemma forEach_constructed fuel pre x post w :
  (∀ s, s ∈ pre → state (cell w s) = Constructed ∧ is_Some (instance (cell w s))) →
  state (cell w x) = Constructing →
  forEach (pre ++ x :: post)%list
    (λ value, createService (S fuel) layer value ;; ret tt) w
  = Throw cycleError (addRefs pre w).
Proof.
  revert w. induction pre as [|s pre IH]; intros w Hpre Hx.
  - cbn [app forEach createService]. rewrite !bind_eq. unfold getState. by rewrite Hx.
  - destruct (Hpre s ltac:(left)) as [Hst [inst Hinst]].
    cbn [app forEach]. rewrite bind_eq.
    assert ((createService (S fuel) layer s ;; ret tt) w = Done tt (incrementRef s w))
      as ->.
    { cbn [createService]. rewrite !bind_eq. unfold getState. rewrite Hst.
      rewrite bind_eq. unfold getInstanceOrThrow. by rewrite Hinst. }
    rewrite IH; [done| |].
    + intros s' Hs'. rewrite state_incrementRef, instance_incrementRef.
      apply Hpre. by right.
    + by rewrite state_incrementRef.
Qed.

End Retry.

Lemma seq_from_zero_split k pre x post :
  seq 0 k = (pre ++ x :: post)%list → x = length pre ∧ pre = seq 0 x ∧ (x < k)%nat.
Proof.
  intros Hsplit.
  assert (seq 0 k !! length pre = Some x) as Hx.
  { rewrite Hsplit, lookup_app_r by lia. by rewrite Nat.sub_diag. }
  pose proof (lookup_lt_Some _ _ _ Hx) as Hlt. rewrite length_seq in Hlt.
  rewrite lookup_seq in Hx. destruct Hx as [Hx _]. simpl in Hx. subst x.
  split; [done|]. split; [|done].
  assert (pre = take (length pre) (seq 0 k)) as Hpre.
  { rewrite Hsplit. by rewrite take_app_length. }
  rewrite Hpre at 1. rewrite take_seq. f_equal. lia.
Qed.

(** A first start() that threw, and the start() after it. *)
Lemma start_after_failure layer fuel fuel' e w :
  lookupValid layer →
  start fuel layer (initialWorld layer) = Throw e w →
  ∃ k, (k < length (allServices layer))%nat
       ∧ state (cell w k) = Constructing
       ∧ (∀ s, (s < k)%nat → state (cell w s) = Constructed)
       ∧ (∀ i, (∀ u, ¬ dependsOn layer u i) →
               state (cell w i) = Constructed → (i < k)%nat)
       ∧ healthy w
       ∧ length (heap w) = length (allServices layer)
       ∧ layerState w = NotStarted
       ∧ start (S fuel') layer w = Throw cycleError (addRefs (seq 0 k) w).
Proof.
  intros Hvalid Hstart.
  apply start_Throw in Hstart; [|done].
  pose proof (constructsAll_layerState layer _ _ _ Hstart) as Hls. simpl in Hls.
  destruct (constructsAll_failure layer Hvalid _ _ _ _ Hstart
              (length_initialWorld layer) (serviceRefs_valid layer)
              (healthy_initialWorld layer)
              ltac:(intros c; by rewrite cell_initialWorld))
    as (Hh & pre & k & post & Hsplit & Hk & Hpre & Hframe).
  destruct (seq_from_zero_split _ _ _ _ Hsplit) as (_ & -> & Hlt).
  pose proof (constructsAll_grows layer _ _ _ Hvalid Hstart
                (length_initialWorld layer) (serviceRefs_valid layer)) as Hg.
  simpl in Hg.
  assert (length (heap w) = length (allServices layer)) as Hlen.
  { destruct Hg as [Hl _]. rewrite Hl. apply length_initialWorld. }
  exists k. do 2 (split; [done|]).
  split; [intros s Hs; apply Hpre, elem_of_seq; lia|].
  split.
  { intros i Hnodep Hi. destruct (decide (i < k)%nat) as [|Hge]; [done|]. exfalso.
    assert (i ≠ k) as Hne by (intros ->; congruence).
    rewrite (Hframe i Hnodep ltac:(rewrite elem_of_seq; lia) Hne) in Hi.
    by rewrite cell_initialWorld in Hi. }
  do 3 (split; [done|]).
  unfold start. rewrite bind_eq. unfold getLayerState. rewrite Hls.
  destruct (decide (NotStarted ≠ NotStarted)) as [|_]; [done|].
  rewrite bind_eq. rewrite Hsplit.
  rewrite (forEach_constructed layer fuel' (seq 0 k) k post w); [done| |done].
  intros s Hs. split; [by apply Hpre|].
  destruct (Hh s) as [_ Hc]. by destruct (Hc (Hpre s Hs)).
Qed.

(** ** Constructors run once *)

Lemma constructorCalls_app s calls e :
  constructorCalls s (calls ++ [e])
  = (constructorCalls s calls + if isCreateOf s e then 1 else 0)%nat.
Proof.
  unfold constructorCalls. rewrite filter_app, length_app, filter_cons, filter_nil.
  destruct (isCreateOf s e); [rewrite decide_True by done|rewrite decide_False by done];
    done.
Qed.

Lemma constructedOnce_initialWorld layer : constructedOnce (initialWorld layer).
Proof. intros s. by rewrite cell_initialWorld. Qed.

Section Once.
Context (layer : ServiceLayer).
Hypothesis Hvalid : lookupValid layer.

Let n := length (allServices layer).

Lemma constructedOnce_silent w w' e :
  trace w' = (trace w ++ [e])%list →
  (∀ s, isCreateOf s e = false) →
  (∀ s, state (cell w' s) = Constructed ↔ state (cell w s) = Constructed) →
  constructedOnce w → constructedOnce w'.
Proof.
  intros Htr He Hst Hw s. rewrite Htr, constructorCalls_app, He, Hw.
  destruct (decide (state (cell w s) = Constructed)) as [Hc|Hc],
           (decide (state (cell w' s) = Constructed)) as [Hc'|Hc']; try done.
  - by apply Hst in Hc.
  - by apply Hst in Hc'.
Qed.

Lemma constructedOnce_markConstructing s w :
  (s < length (heap w))%nat → state (cell w s) = NotConstructed →
  constructedOnce w → constructedOnce (markConstructing s w).
Proof.
  intros Hs Hst. apply (constructedOnce_silent w _ (CallBeforeCreate s)); [done..|].
  intros i. destruct (decide (i = s)) as [->|Hne].
  - rewrite markConstructing_eq by done. cbn [state]. rewrite Hst. done.
  - by rewrite markConstructing_ne.
Qed.

Lemma creates_injects_once :
  (∀ s w out, creates layer s w out →
     length (heap w) = n → (s < n)%nat → constructedOnce w →
     match out with
     | Done _ w' | Throw _ w' => constructedOnce w'
     | OutOfFuel => True
     end)
  ∧ (∀ deps acc w out, injects layer deps acc w out →
       length (heap w) = n → constructedOnce w →
       match out with
       | Done _ w' | Throw _ w' => constructedOnce w'
       | OutOfFuel => True
       end).
Proof.
  apply creates_injects_ind.
  - intros s w inst Hst _ Hlen Hs. simpl.
    apply (constructedOnce_silent w _ (CallAddRef s)); [done..|].
    intros i. by rewrite state_incrementRef.
  - done.
  - done.
  - done.
  - intros s w instances w2 Hst Hloop IH Hlen Hs Hw.
    pose proof (grows_markConstructing s w Hst) as Hg1.
    assert (length (heap (markConstructing s w)) = n) as Hlen1
      by (destruct Hg1 as [Hl _]; lia).
    specialize (IH Hlen1 (constructedOnce_markConstructing s w ltac:(lia) Hst Hw)).
    simpl in IH.
    destruct (proj2 (creates_injects_grow layer Hvalid) _ _ _ _ Hloop Hlen1)
      as (Hg2 & _ & _).
    assert (length (heap w2) = n) as Hlen2 by (destruct Hg2 as [Hl _]; lia).
    assert (state (cell w2 s) = Constructing) as Hst2.
    { destruct Hg2 as (_ & _ & _ & Hc). specialize (Hc s).
      rewrite markConstructing_eq in Hc by lia. cbn [state] in Hc. by rewrite Hc. }
    intros i. unfold construct at 1. cbn [trace record setCell].
    rewrite constructorCalls_app, IH. cbn [isCreateOf].
    destruct (decide (i = s)) as [->|Hne].
    + rewrite construct_eq by lia. cbn [state]. rewrite Hst2.
      rewrite bool_decide_eq_true_2 by done.
      destruct (decide (Constructing = Constructed)); [done|].
      by destruct (decide (Constructed = Constructed)).
    + rewrite construct_ne by done. rewrite bool_decide_eq_false_2 by done.
      destruct (decide (state (cell w2 i) = Constructed)); lia.
  - intros s w e w' Hst _ IH Hlen Hs Hw.
    pose proof (grows_markConstructing s w Hst) as Hg1.
    apply IH; [destruct Hg1 as [Hl _]; lia|].
    apply constructedOnce_markConstructing; [lia|done..].
  - done.
  - done.
  - intros d rest acc w t e w' Hlook _ IH Hlen Hw.
    apply IH; [done|by eapply Hvalid|done].
  - intros d rest acc w t inst w' out Hlook Hcall IH1 _ IH2 Hlen Hw.
    pose proof (proj1 (creates_injects_grow layer Hvalid) _ _ _ Hcall Hlen
                  (Hvalid _ _ Hlook)) as (Hg & _).
    apply IH2; [destruct Hg as [Hl _]; lia|].
    by apply (IH1 Hlen (Hvalid _ _ Hlook) Hw).
Qed.

Lemma constructsAll_once refs w out :
  constructsAll layer refs w out →
  length (heap w) = n → Forall (λ s, (s < n)%nat) refs → constructedOnce w →
  match out with
  | Done _ w' | Throw _ w' => constructedOnce w'
  | OutOfFuel => True
  end.
Proof.
  induction 1 as [w|s rest w e w' Hcall|s rest w inst w' out Hcall Hrest IH];
    intros Hlen Hrefs Hw.
  - done.
  - apply Forall_cons in Hrefs as [Hs _].
    by apply (proj1 creates_injects_once _ _ _ Hcall).
  - apply Forall_cons in Hrefs as [Hs Hrefs].
    pose proof (proj1 (creates_injects_grow layer Hvalid) _ _ _ Hcall Hlen Hs)
      as (Hg & _).
    apply IH; [destruct Hg as [Hl _]; lia|done|].
    by apply (proj1 creates_injects_once _ _ _ Hcall).
Qed.
End Once.

(** ** destroy() on a layer whose services are all destroyed *)

Lemma forEach_destroyed layer fuel refs w :
  (∀ s, s ∈ refs → state (cell w s) = Destroyed) →
  forEach refs (λ value, destroyService (S fuel) layer value) w = Done tt w.
Proof.
  induction refs as [|s rest IH]; intros Hall; [done|].
  cbn [forEach destroyService]. rewrite !bind_eq. unfold getState.
  rewrite (Hall s ltac:(left)). cbn [ret]. apply IH.
  intros s' Hs'. apply Hall. by right.
Qed.

Lemma destroy_destroyed layer fuel w :
  (∀ s, (s < length (allServices layer))%nat → state (cell w s) = Destroyed) →
  layerState w = LayerDestroyed →
  destroy (S fuel) layer w = Done tt w.
Proof.
  intros Hall Hst. unfold destroy. rewrite bind_eq, forEach_destroyed.
  - unfold setLayerState. destruct w as [h ls tr next]. cbn in *. by subst.
  - intros s Hs. apply Hall. apply elem_of_seq in Hs. lia.
Qed.

(** The stores a first start() leaves, and the store before it, are
    balanced. *)
Lemma fresh_balanced layer fuel w :
  lookupValid layer →
  w = initialWorld layer
  ∨ start fuel layer (initialWorld layer) = Done tt w
  ∨ (∃ e, start fuel layer (initialWorld layer) = Throw e w) →
  balanced layer w ∧ length (heap w) = length (allServices layer).
Proof.
  intros Hvalid [->|[Hstart|[e Hstart]]].
  - split; [apply balanced_initialWorld|apply length_initialWorld].
  - apply start_Done in Hstart as (_ & w1 & Hrun & ->).
    exact (constructsAll_balanced layer _ Hvalid Hrun).
  - apply start_Throw in Hstart; [|done].
    exact (constructsAll_balanced layer _ Hvalid Hstart).
Qed.

(** ** Counting down to the destructor *)

Lemma countdown_step c :
  countdown c
  = Decremented (c - 1) :: (if decide (c - 1 ≤ 0) then [DestructorRan] else countdown (c - 1)).
Proof.
  unfold countdown. destruct (decide (c - 1 ≤ 0)) as [Hle|Hgt].
  - replace (Z.to_nat (c - 1)) with 0%nat by lia. done.
  - replace (Z.to_nat (c - 1)) with (S (Z.to_nat (c - 1 - 1))) by lia. done.
Qed.

Lemma countdownFrom_destructorRuns k c : destructorRuns (countdownFrom k c) = 1%nat.
Proof.
  revert c. induction k as [|k IH]; intros c; [done|].
  cbn [countdownFrom]. unfold destructorRuns in *. rewrite filter_cons.
  rewrite decide_False by done. apply IH.
Qed.

Lemma releasesOf_app s calls calls' :
  releasesOf s (calls ++ calls') = (releasesOf s calls ++ releasesOf s calls')%list.
Proof.
  induction calls as [|e calls IH]; [done|].
  destruct e as [| | |s' r|s']; cbn [app releasesOf]; try done;
    destruct (bool_decide (s' = s)); cbn [app]; by rewrite IH.
Qed.

Lemma destructorCalls_releasesOf s calls :
  destructorCalls s calls = destructorRuns (releasesOf s calls).
Proof.
  unfold destructorCalls, destructorRuns.
  induction calls as [|e calls IH]; [done|].
  rewrite filter_cons.
  destruct e as [| | |s' r|s']; cbn [isDestroyOf releasesOf];
    try (rewrite decide_False by done; exact IH).
  - rewrite decide_False by done. destruct (bool_decide (s' = s)); [|exact IH].
    rewrite filter_cons, decide_False by done. exact IH.
  - destruct (bool_decide (s' = s)).
    + rewrite decide_True by done. rewrite filter_cons, decide_True by done.
      cbn [length]. by rewrite IH.
    + rewrite decide_False by done. exact IH.
Qed.

(** The first step of [destroyService] moves the calls it makes from what
    remains to be called to what has been called. *)
Lemma remaining_release x w s :
  (x < length (heap w))%nat → state (cell w x) ≠ Destroyed →
  (releasesOf s (trace (release x w)) ++ remaining (release x w) s
   = releasesOf s (trace w) ++ remaining w s)%list.
Proof.
  intros Hx Hst. rewrite trace_release, releasesOf_app, <- app_assoc. f_equal.
  unfold releaseEvents, remaining. destruct (decide (s = x)) as [->|Hne].
  - rewrite release_eq_cell by done. unfold releasedCell.
    rewrite (decide_False (P := state (cell w x) = Destroyed)) by done.
    rewrite (countdown_step (useCount (cell w x))).
    destruct (decide (useCount (cell w x) - 1 ≤ 0)); cbn [state useCount releasesOf].
    + rewrite !bool_decide_eq_true_2 by done.
      by rewrite decide_True by done.
    + rewrite bool_decide_eq_true_2 by done.
      by rewrite decide_False by done.
  - rewrite release_ne by done.
    destruct (decide (useCount (cell w x) - 1 ≤ 0)); cbn [releasesOf];
      rewrite ?bool_decide_eq_false_2 by done; done.
Qed.

Section Countdown.
Context (layer : ServiceLayer).
Hypothesis Hvalid : lookupValid layer.

Let n := length (allServices layer).

Lemma destroys_releases_remaining :
  (∀ s w w', destroys layer s w w' →
     length (heap w) = n → (s < n)%nat →
     ∀ i, (releasesOf i (trace w') ++ remaining w' i
           = releasesOf i (trace w) ++ remaining w i)%list)
  ∧ (∀ deps w w', releases layer deps w w' →
       length (heap w) = n →
       ∀ i, (releasesOf i (trace w') ++ remaining w' i
             = releasesOf i (trace w) ++ remaining w i)%list).
Proof.
  apply destroys_releases_ind.
  - done.
  - intros s w w' Hst _ IH Hlen Hs i.
    rewrite (IH ltac:(rewrite length_release; lia) i).
    apply remaining_release; [lia|done].
  - done.
  - intros d rest w w' _ _ IH Hlen. by apply IH.
  - intros d rest w t w1 w' Hlook Hcall IH1 _ IH2 Hlen i.
    pose proof (Hvalid _ _ Hlook) as Ht.
    destruct (proj1 (destroys_releases_shrink layer Hvalid) _ _ _ Hcall Hlen Ht)
      as [(Hl1 & _) _].
    rewrite (IH2 ltac:(lia) i). by apply IH1.
Qed.

Lemma destroysAll_remaining refs w w' :
  destroysAll layer refs w w' →
  length (heap w) = n → Forall (λ s, (s < n)%nat) refs →
  ∀ i, (releasesOf i (trace w') ++ remaining w' i
        = releasesOf i (trace w) ++ remaining w i)%list.
Proof.
  induction 1 as [w|s rest w w1 w' Hcall Hrest IH]; intros Hlen Hrefs i; [done|].
  apply Forall_cons in Hrefs as [Hs Hrefs].
  destruct (proj1 (destroys_releases_shrink layer Hvalid) _ _ _ Hcall Hlen Hs)
    as [(Hl1 & _) _].
  rewrite (IH ltac:(lia) Hrefs i).
  by apply (proj1 destroys_releases_remaining _ _ _ Hcall).
Qed.

(** Construction calls neither [removeRef] nor a destructor. *)
Lemma creates_injects_releasesOf :
  (∀ s w out, creates layer s w out →
     match out with
     | Done _ w' | Throw _ w' => ∀ i, releasesOf i (trace w') = releasesOf i (trace w)
     | OutOfFuel => True
     end)
  ∧ (∀ deps acc w out, injects layer deps acc w out →
       match out with
       | Done _ w' | Throw _ w' => ∀ i, releasesOf i (trace w') = releasesOf i (trace w)
       | OutOfFuel => True
       end).
Proof.
  apply creates_injects_ind.
  - intros s w inst _ _ i. unfold incrementRef. cbn [trace record setCell].
    rewrite releasesOf_app. cbn [releasesOf]. by rewrite app_nil_r.
  - done.
  - done.
  - done.
  - intros s w instances w' _ _ IH i. unfold construct. cbn [trace record setCell].
    rewrite releasesOf_app. cbn [releasesOf]. rewrite app_nil_r, IH.
    unfold markConstructing. cbn [trace record setCell].
    rewrite releasesOf_app. cbn [releasesOf]. by rewrite app_nil_r.
  - intros s w e w' _ _ IH i. rewrite IH.
    unfold markConstructing. cbn [trace record setCell].
    rewrite releasesOf_app. cbn [releasesOf]. by rewrite app_nil_r.
  - done.
  - done.
  - intros d rest acc w t e w' _ _ IH. exact IH.
  - intros d rest acc w t inst w' out _ _ IH1 _ IH2.
    destruct out as [acc' w''|e w''|]; [| |done]; intros i; by rewrite IH2, IH1.
Qed.

Lemma constructsAll_releasesOf refs w out :
  constructsAll layer refs w out →
  match out with
  | Done _ w' | Throw _ w' => ∀ i, releasesOf i (trace w') = releasesOf i (trace w)
  | OutOfFuel => True
  end.
Proof.
  induction 1 as [w|s rest w e w' Hcall|s rest w inst w' out Hcall Hrest IH].
  - done.
  - exact (proj1 creates_injects_releasesOf _ _ _ Hcall).
  - pose proof (proj1 creates_injects_releasesOf _ _ _ Hcall) as H1. simpl in H1.
    destruct out as [[] w''|e w''|]; [| |done]; intros i; by rewrite IH, H1.
Qed.

(** destroy() on a balanced store in which nothing was released yet: every
    service receives the countdown of its count. *)
Lemma destroy_countdown fuel w w' :
  length (heap w) = n →
  balanced layer w →
  (∀ i, releasesOf i (trace w) = []) →
  destroy fuel layer w = Done tt w' →
  ∀ s, (s < n)%nat →
    state (cell w' s) = Destroyed
    ∧ releasesOf s (trace w') = countdown (useCount (cell w s))
    ∧ destructorCalls s (trace w') = 1%nat.
Proof.
  intros Hlen Hbal Hnone Hdestroy s Hs.
  pose proof (destroy_balanced layer Hvalid fuel w w' Hlen Hbal Hdestroy s Hs) as Hgone.
  apply destroy_Done in Hdestroy as (w1 & Hall & ->).
  change (cell {| heap := heap w1; layerState := LayerDestroyed; trace := trace w1;
                  nextInstance := nextInstance w1 |} s) with (cell w1 s) in *.
  cbn [trace].
  pose proof (destroysAll_remaining _ _ _ Hall Hlen (serviceRefs_valid layer) s) as Hrem.
  unfold remaining in Hrem. rewrite decide_True in Hrem by done.
  destruct Hbal as [_ Hbal]. destruct (Hbal s Hs) as [Halive _].
  rewrite decide_False in Hrem by done.
  rewrite app_nil_r, Hnone in Hrem. cbn [app] in Hrem.
  split; [done|]. split; [done|].
  rewrite destructorCalls_releasesOf, Hrem. apply countdownFrom_destructorRuns.
Qed.
End Countdown.

(** ** Services that are not constructed hold no reference *)

Lemma idle_initialWorld layer : idle (initialWorld layer).
Proof. intros s _. by rewrite cell_initialWorld. Qed.

Section Idle.
Context (layer : ServiceLayer).
Hypothesis Hvalid : lookupValid layer.

Let n := length (allServices layer).

Lemma idle_markConstructing s w :
  (s < length (heap w))%nat → state (cell w s) = NotConstructed →
  idle w → idle (markConstructing s w).
Proof.
  intros Hs Hst Hw i Hi. destruct (decide (i = s)) as [->|Hne].
  - rewrite markConstructing_eq by done. cbn [useCount]. apply Hw. congruence.
  - rewrite markConstructing_ne in Hi |- * by done. by apply Hw.
Qed.

Lemma creates_injects_idle :
  (∀ s w out, creates layer s w out →
     length (heap w) = n → (s < n)%nat → idle w →
     match out with
     | Done _ w' | Throw _ w' => idle w'
     | OutOfFuel => True
     end)
  ∧ (∀ deps acc w out, injects layer deps acc w out →
       length (heap w) = n → idle w →
       match out with
       | Done _ w' | Throw _ w' => idle w'
       | OutOfFuel => True
       end).
Proof.
  apply creates_injects_ind.
  - intros s w inst Hst _ Hlen Hs Hw i Hi. rewrite state_incrementRef in Hi.
    assert (i ≠ s) as Hne by congruence.
    rewrite incrementRef_ne by done. by apply Hw.
  - done.
  - done.
  - done.
  - intros s w instances w2 Hst Hloop IH Hlen Hs Hw.
    pose proof (grows_markConstructing s w Hst) as Hg1.
    assert (length (heap (markConstructing s w)) = n) as Hlen1
      by (destruct Hg1 as [Hl _]; lia).
    specialize (IH Hlen1 (idle_markConstructing s w ltac:(lia) Hst Hw)). simpl in IH.
    destruct (proj2 (creates_injects_grow layer Hvalid) _ _ _ _ Hloop Hlen1)
      as (Hg2 & _ & _).
    intros i Hi. destruct (decide (i = s)) as [->|Hne].
    + rewrite construct_eq in Hi by (destruct Hg2 as [Hl _]; lia). done.
    + rewrite construct_ne in Hi |- * by done. by apply IH.
  - intros s w e w' Hst _ IH Hlen Hs Hw.
    pose proof (grows_markConstructing s w Hst) as Hg1.
    apply IH; [destruct Hg1 as [Hl _]; lia|].
    apply idle_markConstructing; [lia|done..].
  - done.
  - done.
  - intros d rest acc w t e w' Hlook _ IH Hlen Hw.
    apply IH; [done|by eapply Hvalid|done].
  - intros d rest acc w t inst w' out Hlook Hcall IH1 _ IH2 Hlen Hw.
    pose proof (proj1 (creates_injects_grow layer Hvalid) _ _ _ Hcall Hlen
                  (Hvalid _ _ Hlook)) as (Hg & _).
    apply IH2; [destruct Hg as [Hl _]; lia|].
    by apply (IH1 Hlen (Hvalid _ _ Hlook) Hw).
Qed.

Lemma constructsAll_idle refs w out :
  constructsAll layer refs w out →
  length (heap w) = n → Forall (λ s, (s < n)%nat) refs → idle w →
  match out with
  | Done _ w' | Throw _ w' => idle w'
  | OutOfFuel => True
  end.
Proof.
  induction 1 as [w|s rest w e w' Hcall|s rest w inst w' out Hcall Hrest IH];
    intros Hlen Hrefs Hw.
  - done.
  - apply Forall_cons in Hrefs as [Hs _].
    by apply (proj1 creates_injects_idle _ _ _ Hcall).
  - apply Forall_cons in Hrefs as [Hs Hrefs].
    pose proof (proj1 (creates_injects_grow layer Hvalid) _ _ _ Hcall Hlen Hs)
      as (Hg & _).
    apply IH; [destruct Hg as [Hl _]; lia|done|].
    by apply (proj1 creates_injects_idle _ _ _ Hcall).
Qed.
End Idle.

(** ** The record of references, name by name *)

Lemma lastNamed_Some key deps d :
  lastNamed key deps = Some d → d ∈ deps ∧ referenceName d = key.
Proof.
  induction deps as [|d' rest IH]; [done|]. cbn [lastNamed].
  destruct (lastNamed key rest) as [d''|].
  - intros [= ->]. destruct (IH eq_refl) as [Hin Hname]. split; [by right|done].
  - destruct (decide (referenceName d' = key)) as [Heq|]; [|done].
    intros [= ->]. split; [left|done].
Qed.

Lemma lastNamed_is_Some key deps :
  is_Some (lastNamed key deps) ↔ key ∈ map referenceName deps.
Proof.
  induction deps as [|d rest IH]; cbn [lastNamed map].
  - split; [by intros [x Hx]|]. intros H. by apply elem_of_nil in H.
  - rewrite elem_of_cons, <- IH. destruct (lastNamed key rest) as [d'|].
    + split; [intros _; right; by eexists|intros _; by eexists].
    + destruct (decide (referenceName d = key)) as [Heq|Hne].
      * split; [intros _; by left|intros _; by eexists].
      * split; [by intros [x Hx]|]. intros [Heq|[x Hx]]; [congruence|done].
Qed.

Lemma wiringFrom_lastNamed layer w deps acc key :
  (∀ d, d ∈ deps → is_Some (resolvedInstance layer w d)) →
  assigned (wiringFrom layer w deps acc) key
  = match lastNamed key deps with
    | Some d => resolvedInstance layer w d
    | None => assigned acc key
    end.
Proof.
  revert acc. induction deps as [|d rest IH]; intros acc Hall; [done|].
  unfold wiringFrom. cbn [fold_left lastNamed].
  destruct (Hall d ltac:(left)) as [inst Hinst]. unfold resolvedInstance in Hinst.
  destruct (serviceLookup layer (required d)) as [t| |] eqn:Hlook; [|done..].
  rewrite Hinst.
  fold (wiringFrom layer w rest (assignReference (referenceName d) inst acc)).
  rewrite IH by (intros d' Hd'; apply Hall; by right).
  destruct (lastNamed key rest) as [d'|]; [done|].
  rewrite assigned_assignReference.
  destruct (decide (referenceName d = key)) as [<-|Hne]; [|done].
  unfold resolvedInstance. by rewrite Hlook.
Qed.

(** The own keys of the record never include [__proto__]. *)
Lemma wiringFrom_ownKeys_proto layer w deps acc :
  ownKeys (wiringFrom layer w deps acc) !! "__proto__" = ownKeys acc !! "__proto__".
Proof.
  revert acc. induction deps as [|d rest IH]; intros acc; [done|].
  unfold wiringFrom. cbn [fold_left].
  destruct (serviceLookup layer (required d)) as [t| |]; try apply IH.
  destruct (instance (cell w t)) as [inst|]; [|apply IH].
  fold (wiringFrom layer w rest (assignReference (referenceName d) inst acc)).
  rewrite IH. unfold assignReference.
  destruct (decide (referenceName d = "__proto__")) as [Heq|Hne]; cbn [ownKeys]; [done|].
  by rewrite lookup_insert_ne.
Qed.

Lemma constructorCall_elem s calls options result :
  constructorCall s calls = Some (options, result) →
  CallCreate s options result ∈ calls.
Proof.
  induction calls as [|e rest IH]; [done|].
  destruct e as [|s' o r| | |]; cbn [constructorCall];
    try (intros H; right; by apply IH).
  case_bool_decide as Hs.
  - intros [= -> ->]. subst. left.
  - intros H. right. by apply IH.
Qed.

(** After a successful first start(), the record handed to a constructor
    holds, name by name, the instance of the service that the last
    declaration under that name resolves to. *)
Lemma start_Done_references layer fuel w s options result :
  lookupValid layer →
  start fuel layer (initialWorld layer) = Done tt w →
  CallCreate s options result ∈ trace w →
  optProperties options = properties (repr layer s)
  ∧ (∀ d, d ∈ dependencies (repr layer s) → is_Some (resolvedInstance layer w d))
  ∧ (∀ key, assigned (references options) key
            = lastNamed key (dependencies (repr layer s)) ≫= resolvedInstance layer w)
  ∧ ownKeys (references options) !! "__proto__" = None.
Proof.
  intros Hvalid Hstart Hin.
  pose proof (start_Done_resolvable layer Hvalid fuel w Hstart) as Hres.
  apply start_Done in Hstart as (_ & w1 & Hall & ->).
  pose proof (constructsAll_wired layer Hvalid _ _ _ Hall (length_initialWorld layer)
                (serviceRefs_valid layer) (wired_initialWorld layer)) as [HA _].
  pose proof (constructsAll_grows layer _ _ _ Hvalid Hall (length_initialWorld layer)
                (serviceRefs_valid layer)) as Hg. simpl in Hg.
  pose proof (grows_healthy _ _ (healthy_initialWorld layer) Hg) as Hh.
  cbn [trace] in Hin.
  change (resolvedInstance layer
            {| heap := heap w1; layerState := Started; trace := trace w1;
               nextInstance := nextInstance w1 |})
    with (resolvedInstance layer w1).
  destruct (HA s options result Hin) as [-> Hbuilt].
  assert (∀ d, d ∈ dependencies (repr layer s) → is_Some (resolvedInstance layer w1 d))
    as Hsome.
  { intros d Hd. destruct (Hres s d Hd) as [t Ht].
    unfold resolvedInstance. rewrite Ht.
    destruct (Hh t) as [_ Hc]. by destruct (Hc (Hbuilt d t Hd Ht)). }
  split; [done|]. split; [done|]. cbn [references optionsFor]. split.
  - intros key. rewrite wiringFrom_lastNamed by done.
    destruct (lastNamed key (dependencies (repr layer s))); [done|].
    by rewrite assigned_empty.
  - by rewrite wiringFrom_ownKeys_proto.
Qed.

(** ** The index of declared dependencies, without any assumption on names *)

Lemma buildDependencyIndex_last (packages : list PackageRepr)
    (index : gmap string (gmap string DependencyDeclarations)) (packageName : string) :
  fold_left
    (λ index pkg, <[name pkg := fold_left registerReference (uiReferences pkg) ∅]> index)
    packages index !! packageName
  = match lastPackage packageName packages with
    | Some pkg => Some (fold_left registerReference (uiReferences pkg) ∅)
    | None => index !! packageName
    end.
Proof.
  revert index. induction packages as [|pkg packages IH]; intros index; [done|].
  cbn [fold_left lastPackage]. rewrite IH.
  destruct (lastPackage packageName packages) as [pkg'|]; [done|].
  destruct (decide (name pkg = packageName)) as [<-|Hne].
  - by rewrite lookup_insert_eq.
  - by rewrite lookup_insert_ne.
Qed.

(** ** What destroyService() leaves alone *)

Section Frame.
Context (layer : ServiceLayer).

(** [destroyService(s)] changes no service but [s] and the services [s]
    depends on, directly or through others. *)
Lemma destroys_releases_frame :
  (∀ s w w', destroys layer s w w' →
     ∀ i, ¬ rtc (dependsOn layer) s i → cell w' i = cell w i)
  ∧ (∀ deps w w', releases layer deps w w' →
       ∀ i, (∀ d t, d ∈ deps → serviceLookup layer (required d) = Found t →
                    ¬ rtc (dependsOn layer) t i) →
            cell w' i = cell w i).
Proof.
  apply destroys_releases_ind.
  - done.
  - intros s w w' Hst _ IH i Hi.
    assert (i ≠ s) as Hne by (intros ->; by apply Hi).
    rewrite IH; [by apply release_ne|].
    intros d t Hd Hlook Hreach. apply Hi.
    eapply rtc_l; [|exact Hreach]. by exists d.
  - done.
  - intros d rest w w' _ _ IH i Hi. apply IH.
    intros d' t Hd'. apply Hi. by right.
  - intros d rest w t w1 w' Hlook _ IH1 _ IH2 i Hi.
    rewrite IH2 by (intros d' t' Hd'; apply Hi; by right).
    apply IH1. by apply (Hi d t ltac:(left)).
Qed.
End Frame.

Section EarlyRelease.
Context (layer : ServiceLayer).
Hypothesis Hvalid : lookupValid layer.

Let n := length (allServices layer).

(** The loop of [destroyService] costs the service of every resolved
    dependency a reference, or finds it destroyed. *)
Lemma releases_target deps w w' :
  releases layer deps w w' →
  length (heap w) = n →
  ∀ d t, d ∈ deps → serviceLookup layer (required d) = Found t →
    state (cell w' t) = Destroyed ∨ useCount (cell w' t) < useCount (cell w t).
Proof.
  induction 1 as [w|d0 rest w w' Hno Hrest IH|d0 rest w t0 w1 w' Hlook0 Hcall Hrest IH];
    intros Hlen d t Hd Hlook.
  - by apply elem_of_nil in Hd.
  - apply elem_of_cons in Hd as [->|Hd]; [by destruct (Hno t)|]. by apply (IH Hlen d t).
  - pose proof (Hvalid _ _ Hlook0) as Ht0.
    destruct (proj1 (destroys_releases_shrink layer Hvalid) _ _ _ Hcall Hlen Ht0)
      as [(Hl1 & _ & Hcells1) _].
    assert (length (heap w1) = n) as Hlen1 by lia.
    destruct (proj2 (destroys_releases_shrink layer Hvalid) _ _ _ Hrest Hlen1)
      as [(_ & _ & Hcells2) _].
    destruct (decide (state (cell w' t) = Destroyed)) as [|Halive]; [by left|].
    right. destruct (Hcells2 t) as [Hdead2 Hkeep2].
    destruct (Hkeep2 Halive) as (Hst2 & _ & Hu2 & _).
    assert (state (cell w1 t) ≠ Destroyed) as Halive1 by congruence.
    apply elem_of_cons in Hd as [->|Hd].
    + rewrite Hlook0 in Hlook. injection Hlook as ->.
      destruct (destroys_target layer Hvalid t w w1 Hcall Hlen Ht0) as [Hgone|Hless];
        [done|lia].
    + destruct (IH Hlen1 d t Hd Hlook) as [Hgone|Hless]; [done|].
      destruct (Hcells1 t) as [_ Hkeep1].
      destruct (Hkeep1 Halive1) as (_ & _ & Hu1 & _). lia.
Qed.
End EarlyRelease.

(** ** The order of destruction on a flat layer *)

Lemma edges_dependsOn layer s t : dependsOn layer s t ↔ 1 ≤ edges layer s t.
Proof.
  unfold dependsOn, edges, resolveCount. split.
  - intros (d & Hd & Hlook).
    assert (d ∈ filter (λ d, serviceLookup layer (required d) = Found t)
                  (dependencies (repr layer s))) as Hin
      by (by apply list_elem_of_filter).
    destruct (filter _ _) as [|d' l]; [by apply elem_of_nil in Hin|]. simpl. lia.
  - intros Hle.
    destruct (filter (λ d, serviceLookup layer (required d) = Found t)
                (dependencies (repr layer s))) as [|d l] eqn:Hf; [simpl in Hle; lia|].
    assert (d ∈ filter (λ d, serviceLookup layer (required d) = Found t)
                  (dependencies (repr layer s))) as Hin by (rewrite Hf; left).
    apply list_elem_of_filter in Hin as [Hlook Hd]. by exists d.
Qed.

Lemma edges_nonneg layer s t : 0 ≤ edges layer s t.
Proof. apply resolveCount_nonneg. Qed.

Lemma sumTo_nonneg n f : (∀ i, (i < n)%nat → 0 ≤ f i) → 0 ≤ sumTo n f.
Proof.
  induction n as [|n IH]; intros H; cbn [sumTo]; [lia|].
  specialize (IH ltac:(intros i Hi; apply H; lia)). specialize (H n ltac:(lia)). lia.
Qed.

Lemma sumTo_zero n f i :
  (∀ i, (i < n)%nat → 0 ≤ f i) → sumTo n f = 0 → (i < n)%nat → f i = 0.
Proof.
  induction n as [|n IH]; intros H Hsum Hi; [lia|]. cbn [sumTo] in Hsum.
  pose proof (sumTo_nonneg n f ltac:(intros j Hj; apply H; lia)) as Hpos.
  pose proof (H n ltac:(lia)) as Hn.
  destruct (decide (i = n)) as [->|Hne]; [lia|].
  apply IH; [intros j Hj; apply H; lia|lia|lia].
Qed.

Lemma liveEdges_nonneg layer w x : 0 ≤ liveEdges layer w x.
Proof.
  apply sumTo_nonneg. intros i _. pose proof (edges_nonneg layer i x).
  destruct (decide (state (cell w i) = Destroyed)); lia.
Qed.

(** A service without a live declaration that resolves to it has no live
    dependent. *)
Lemma liveEdges_zero layer w s t :
  liveEdges layer w t = 0 → dependsOn layer s t → state (cell w s) = Destroyed.
Proof.
  intros Hzero Hdep. pose proof (dependsOn_valid layer s t Hdep) as Hs.
  apply edges_dependsOn in Hdep.
  assert (∀ i, (i < length (allServices layer))%nat →
            0 ≤ (if decide (state (cell w i) = Destroyed) then 0 else edges layer i t))
    as Hpos.
  { intros i _. pose proof (edges_nonneg layer i t).
    destruct (decide (state (cell w i) = Destroyed)); lia. }
  pose proof (sumTo_zero _ _ s Hpos Hzero Hs) as Hterm.
  cbv beta in Hterm. destruct (decide (state (cell w s) = Destroyed)); [done|lia].
Qed.

Lemma liveEdges_release layer x w t :
  length (heap w) = length (allServices layer) →
  (x < length (allServices layer))%nat →
  state (cell w x) ≠ Destroyed →
  liveEdges layer (release x w) t
  = liveEdges layer w t
    - (if decide (useCount (cell w x) - 1 ≤ 0) then edges layer x t else 0).
Proof.
  intros Hlen Hx Hst. unfold liveEdges.
  rewrite (sumTo_update _
    (λ s, if decide (state (cell w s) = Destroyed) then 0 else edges layer s t)
    (λ s, if decide (state (cell (release x w) s) = Destroyed) then 0 else edges layer s t)
    x); [|done|].
  - rewrite release_eq_cell by lia. unfold releasedCell.
    rewrite (decide_False (P := state (cell w x) = Destroyed)) by done.
    destruct (decide (useCount (cell w x) - 1 ≤ 0)); cbn [state].
    + rewrite decide_True by done. lia.
    + rewrite decide_False by done. lia.
  - intros i Hne. by rewrite release_ne.
Qed.

Lemma dependentsFirst_snoc_other layer calls e :
  (∀ t, e ≠ CallDestroy t) →
  dependentsFirst layer calls → dependentsFirst layer (calls ++ [e]).
Proof.
  intros He Hcalls k t s Hk Hdep.
  apply lookup_app_Some in Hk as [Hk|[Hge Hk]].
  - destruct (Hcalls k t s Hk Hdep) as (j & Hj & Hcall).
    exists j. split; [done|]. by apply lookup_app_l_Some.
  - apply list_lookup_singleton_Some in Hk as [_ Heq]. by destruct (He t).
Qed.

Lemma dependentsFirst_snoc_destroy layer calls t :
  (∀ s, dependsOn layer s t → CallDestroy s ∈ calls) →
  dependentsFirst layer calls → dependentsFirst layer (calls ++ [CallDestroy t]).
Proof.
  intros Hdone Hcalls k t' s Hk Hdep.
  apply lookup_app_Some in Hk as [Hk|[Hge Hk]].
  - destruct (Hcalls k t' s Hk Hdep) as (j & Hj & Hcall).
    exists j. split; [done|]. by apply lookup_app_l_Some.
  - apply list_lookup_singleton_Some in Hk as [_ [= ->]].
    destruct (proj1 (list_elem_of_lookup _ _) (Hdone s Hdep)) as [j Hj].
    exists j. split; [|by apply lookup_app_l_Some].
    apply lookup_lt_Some in Hj. lia.
Qed.

Lemma filter_absent (x : nat) (l : list nat) :
  x ∉ l → filter (λ s, s = x) l = [].
Proof.
  induction l as [|y l IH]; intros Hx; [done|].
  apply not_elem_of_cons in Hx as [Hne Hx].
  rewrite filter_cons, decide_False by congruence. by apply IH.
Qed.

Lemma orderly_ext layer q q' w :
  (∀ t, q t = q' t) → orderly layer q w → orderly layer q' w.
Proof.
  intros Heq (Hcount & Hrest). split; [|done].
  intros t Ht Hst. rewrite <- Heq. by apply Hcount.
Qed.

Section Flat.
Context (layer : ServiceLayer).
Hypothesis Hvalid : lookupValid layer.
Hypothesis Hflat : flat layer.

Let n := length (allServices layer).

(** The first step of [destroyService(x)]: the call is no longer pending,
    and when it destroys [x] the releases of the dependencies of [x] are. *)
Lemma orderly_release x w q :
  length (heap w) = n → (x < n)%nat →
  state (cell w x) ≠ Destroyed →
  (∀ t, 0 ≤ q t) →
  (∀ t, dependsOn layer x t → q x = 0) →
  orderly layer (λ t, q t + indicator t x) w →
  orderly layer (λ t, q t + edges layer x t) (release x w).
Proof.
  intros Hlen Hx Halive Hq Hside (Hcount & Horder & Hcalled).
  pose proof (Hcount x Hx Halive) as Hcx. cbv beta in Hcx. unfold indicator in Hcx.
  rewrite decide_True in Hcx by done.
  pose proof (liveEdges_nonneg layer w x) as Hlive. pose proof (Hq x) as Hqx.
  assert (∀ t, dependsOn layer x t → liveEdges layer w x = 0) as Hnodep.
  { intros t Hdep. unfold liveEdges. rewrite (sumTo_ext _ _ (λ _, 0)).
    - generalize (length (allServices layer)) as m.
      induction m as [|m IH]; cbn [sumTo]; lia.
    - intros u _. destruct (decide (state (cell w u) = Destroyed)); [done|].
      pose proof (edges_nonneg layer u x).
      destruct (decide (edges layer u x = 0)) as [|Hne]; [done|].
      destruct (Hflat x t u Hdep). apply edges_dependsOn. lia. }
  assert (∀ t, edges layer x t = 0 ∨ dependsOn layer x t) as Hedge.
  { intros t. pose proof (edges_nonneg layer x t).
    destruct (decide (edges layer x t = 0)) as [|Hne]; [by left|].
    right. apply edges_dependsOn. lia. }
  split; [|split].
  - intros t Ht Hst.
    rewrite (liveEdges_release layer x w t) by done.
    destruct (decide (t = x)) as [->|Hne].
    + rewrite release_eq_cell in Hst |- * by lia. unfold releasedCell in *.
      destruct (decide (useCount (cell w x) - 1 ≤ 0)); cbn [state useCount] in *;
        [done|].
      destruct (Hedge x) as [Hz|Hdep]; [lia|].
      rewrite (Hnodep x Hdep), (Hside x Hdep) in Hcx. lia.
    + rewrite release_ne in Hst |- * by done.
      pose proof (Hcount t Ht Hst) as Hct. cbv beta in Hct. unfold indicator in Hct.
      rewrite decide_False in Hct by done.
      destruct (decide (useCount (cell w x) - 1 ≤ 0)); [lia|].
      destruct (Hedge t) as [Hz|Hdep]; [lia|].
      rewrite (Hnodep t Hdep), (Hside t Hdep) in Hcx. lia.
  - rewrite trace_release. unfold releaseEvents.
    destruct (decide (useCount (cell w x) - 1 ≤ 0)).
    + change (CallRemoveRef x (useCount (cell w x) - 1) :: [CallDestroy x])
        with ([CallRemoveRef x (useCount (cell w x) - 1)] ++ [CallDestroy x])%list.
      rewrite app_assoc. apply dependentsFirst_snoc_destroy.
      * intros s Hdep. apply elem_of_app. left. apply Hcalled.
        apply (liveEdges_zero layer w s x); [lia|done].
      * by apply dependentsFirst_snoc_other.
    + by apply dependentsFirst_snoc_other.
  - intros s Hs. rewrite trace_release. apply elem_of_app.
    destruct (decide (s = x)) as [->|Hne].
    + right. rewrite release_eq_cell in Hs by lia. unfold releasedCell, releaseEvents in *.
      destruct (decide (useCount (cell w x) - 1 ≤ 0)); cbn [state] in Hs; [|done].
      right. left.
    + left. apply Hcalled. by rewrite release_ne in Hs.
Qed.

Lemma destroys_releases_orderly :
  (∀ s w w', destroys layer s w w' →
     length (heap w) = n → (s < n)%nat →
     ∀ q, (∀ t, 0 ≤ q t) → (∀ t, dependsOn layer s t → q s = 0) →
          orderly layer (λ t, q t + indicator t s) w → orderly layer q w')
  ∧ (∀ deps w w', releases layer deps w w' →
       length (heap w) = n →
       ∀ q, (∀ t, 0 ≤ q t) →
            (∀ d t, d ∈ deps → serviceLookup layer (required d) = Found t →
                    ∀ v, ¬ dependsOn layer t v) →
            orderly layer (λ t, q t + resolveCount layer deps t) w → orderly layer q w').
Proof.
  apply destroys_releases_ind.
  - intros s w Hst _ _ q _ _ (Hcount & Hrest). split; [|done].
    intros t Ht Halive. rewrite (Hcount t Ht Halive). unfold indicator.
    rewrite decide_False by congruence. lia.
  - intros s w w' Hst _ IH Hlen Hs q Hq Hside Hw.
    apply (IH ltac:(rewrite length_release; lia) q Hq).
    + intros d t Hd Hlook v Hdep. apply (Hflat t v s Hdep). by exists d.
    + by apply orderly_release.
  - intros w _ q _ _ Hw. eapply orderly_ext; [|exact Hw].
    intros t. cbv beta. rewrite resolveCount_nil. lia.
  - intros d rest w w' Hno _ IH Hlen q Hq Hleaf Hw.
    apply (IH Hlen q Hq).
    + intros d' t Hd'. apply Hleaf. by right.
    + eapply orderly_ext; [|exact Hw]. intros t. cbv beta.
      by rewrite (resolveCount_cons_unresolved layer d rest t Hno).
  - intros d rest w t w1 w' Hlook Hcall IH1 _ IH2 Hlen q Hq Hleaf Hw.
    pose proof (Hvalid _ _ Hlook) as Ht.
    destruct (proj1 (destroys_releases_shrink layer Hvalid) _ _ _ Hcall Hlen Ht)
      as [(Hl1 & _) _].
    apply (IH2 ltac:(lia) q Hq).
    + intros d' t' Hd'. apply Hleaf. by right.
    + apply (IH1 Hlen Ht (λ x, q x + resolveCount layer rest x)).
      * intros x. pose proof (resolveCount_nonneg layer rest x). specialize (Hq x). lia.
      * intros v Hdep. by destruct (Hleaf d t ltac:(left) Hlook v).
      * eapply orderly_ext; [|exact Hw]. intros x. cbv beta.
        rewrite (resolveCount_cons_found layer d rest t x Hlook). lia.
Qed.

Lemma destroysAll_orderly refs w w' :
  destroysAll layer refs w w' →
  length (heap w) = n → Forall (λ s, (s < n)%nat) refs → NoDup refs →
  orderly layer (λ t, Z.of_nat (length (filter (λ s, s = t) refs))) w →
  orderly layer (λ _, 0) w'.
Proof.
  induction 1 as [w|s rest w w1 w' Hcall Hrest IH]; intros Hlen Hrefs Hnd Hw.
  - eapply orderly_ext; [|exact Hw]. done.
  - apply Forall_cons in Hrefs as [Hs Hrefs]. apply NoDup_cons in Hnd as [Hnotin Hnd].
    destruct (proj1 (destroys_releases_shrink layer Hvalid) _ _ _ Hcall Hlen Hs)
      as [(Hl1 & _) _].
    apply (IH ltac:(lia) Hrefs Hnd).
    apply (proj1 destroys_releases_orderly _ _ _ Hcall Hlen Hs
             (λ t, Z.of_nat (length (filter (λ s, s = t) rest)))).
    + intros t. lia.
    + intros t _. by rewrite filter_absent.
    + eapply orderly_ext; [|exact Hw]. intros t. cbv beta.
      rewrite filter_cons. unfold indicator.
      destruct (decide (s = t)) as [->|Hne].
      * rewrite decide_True by done. simpl length. lia.
      * rewrite decide_False by congruence. lia.
Qed.
End Flat.

Lemma releasesOf_no_destroy s calls :
  releasesOf s calls = [] → CallDestroy s ∉ calls.
Proof.
  induction calls as [|e rest IH]; intros Hnil Hin; [by apply elem_of_nil in Hin|].
  apply elem_of_cons in Hin as [<-|Hin].
  - cbn [releasesOf] in Hnil. by rewrite bool_decide_eq_true_2 in Hnil.
  - apply IH; [|done]. destruct e as [| | |s' r|s']; cbn [releasesOf] in Hnil; try done;
      by destruct (bool_decide (s' = s)).
Qed.

Lemma flatChecked_flat layer : flatChecked layer = true → flat layer.
Proof.
  intros Hcheck s t u (d & Hd & Hlook) Hus.
  pose proof (dependsOn_valid layer u s Hus) as Hu.
  destruct Hus as (d' & Hd' & Hlook').
  unfold flatChecked in Hcheck. rewrite forallb_forall in Hcheck.
  specialize (Hcheck u ltac:(apply list_elem_of_In, elem_of_seq; lia)).
  rewrite forallb_forall in Hcheck.
  specialize (Hcheck d' ltac:(by apply list_elem_of_In)).
  rewrite Hlook' in Hcheck. unfold isLeaf in Hcheck. rewrite forallb_forall in Hcheck.
  specialize (Hcheck d ltac:(by apply list_elem_of_In)).
  by rewrite Hlook in Hcheck.
Qed.

(** The store a successful first start() leaves is orderly, with one call
    of [destroyService] pending for every service. *)
Lemma start_Done_orderly layer fuel w :
  lookupValid layer →
  start fuel layer (initialWorld layer) = Done tt w →
  orderly layer
    (λ t, Z.of_nat (length (filter (λ s, s = t) (serviceRefs layer)))) w.
Proof.
  intros Hvalid Hstart.
  destruct (start_counts layer fuel w Hvalid Hstart) as [_ Hcounts].
  apply start_Done in Hstart as (_ & w1 & Hall & ->).
  pose proof (constructsAll_releasesOf layer _ _ _ Hall) as Hnone. simpl in Hnone.
  assert (∀ s, CallDestroy s ∉ trace w1) as Hquiet.
  { intros s. apply releasesOf_no_destroy. by rewrite Hnone. }
  assert (∀ s, (s < length (allServices layer))%nat → state (cell w1 s) = Constructed)
    as Hbuilt by (intros s Hs; by destruct (Hcounts s Hs)).
  split; [|split].
  - intros t Ht _. destruct (Hcounts t Ht) as [_ ->].
    unfold serviceRefs. rewrite count_in_seq, decide_True by done.
    assert (liveEdges layer
              {| heap := heap w1; layerState := Started; trace := trace w1;
                 nextInstance := nextInstance w1 |} t = dependents layer t) as ->; [|lia].
    apply sumTo_ext. intros s Hs.
    change (cell {| heap := heap w1; layerState := Started; trace := trace w1;
                    nextInstance := nextInstance w1 |} s) with (cell w1 s).
    rewrite (Hbuilt s Hs). by rewrite decide_False.
  - intros k t s Hk _. cbn [trace] in Hk. destruct (Hquiet t).
    by eapply list_elem_of_lookup_2.
  - intros s Hs.
    change (cell {| heap := heap w1; layerState := Started; trace := trace w1;
                    nextInstance := nextInstance w1 |} s) with (cell w1 s) in Hs.
    destruct (decide (s < length (allServices layer))%nat) as [Hlt|Hge].
    + rewrite (Hbuilt s Hlt) in Hs. done.
    + pose proof (constructsAll_grows layer _ _ _ Hvalid Hall (length_initialWorld layer)
                    (serviceRefs_valid layer)) as Hg. simpl in Hg.
      by destruct (grows_healthy _ _ (healthy_initialWorld layer) Hg s) as [Hnd _].
Qed.

(** ** Sessions: any sequence of calls *)

Lemma start_storeOf layer fuel w w1 :
  storeOf (start fuel layer w) = Some w1 →
  w1 = w
  ∨ ∃ out w0,
      constructsAll layer (serviceRefs layer) w out
      ∧ storeOf out = Some w0
      ∧ heap w1 = heap w0 ∧ trace w1 = trace w0
      ∧ (layerRank (layerState w0) ≤ layerRank (layerState w1))%nat.
Proof.
  unfold start. rewrite bind_eq. unfold getLayerState.
  destruct (decide (layerState w ≠ NotStarted)) as [|Hst].
  { intros [= <-]. by left. }
  rewrite bind_eq.
  destruct (forEach_constructsAll layer fuel (serviceRefs layer) w) as [Hout|Hc].
  { by rewrite Hout. }
  pose proof (constructsAll_layerState layer _ _ _ Hc) as Hls.
  destruct (forEach (serviceRefs layer) _ w) as [[] w0|e w0|] eqn:Hloop; [| |done].
  - intros [= <-]. right. exists (Done tt w0), w0. do 4 (split; [done|]).
    cbn [layerState]. rewrite Hls.
    destruct (decide (layerState w = NotStarted)) as [->|Hne]; [simpl; lia|].
    by destruct Hst.
  - intros [= <-]. right. by exists (Throw e w0), w0.
Qed.

Lemma destroy_storeOf layer fuel w w1 :
  storeOf (destroy fuel layer w) = Some w1 →
  ∃ w0, destroysAll layer (serviceRefs layer) w w0
        ∧ heap w1 = heap w0 ∧ trace w1 = trace w0
        ∧ layerState w1 = LayerDestroyed.
Proof.
  intros Hstore.
  destruct (destroy fuel layer w) as [[] w2|e w2|] eqn:Hdestroy; [| |done].
  - injection Hstore as ->. apply destroy_Done in Hdestroy as (w0 & Hall & ->).
    by exists w0.
  - exfalso. unfold destroy in Hdestroy. rewrite bind_eq in Hdestroy.
    pose proof (forEach_destroysAll layer fuel (serviceRefs layer) w) as Hd.
    by destruct (forEach (serviceRefs layer) _ w) as [[] w0|e0 w0|].
Qed.

Lemma getService_storeOf layer packageName spec w w1 :
  storeOf (getService layer packageName spec w) = Some w1 → w1 = w.
Proof.
  unfold getService. rewrite bind_eq. unfold getLayerState.
  destruct (decide (layerState w ≠ Started)); [by intros [= <-]|].
  destruct (negb (isDeclaredDependency layer packageName spec)); by intros [= <-].
Qed.

Lemma cell_same_heap w w' : heap w' = heap w → cell w' = cell w.
Proof. intros Hheap. unfold cell. by rewrite Hheap. Qed.

Lemma constructorCalls_le_app s calls e :
  isCreateOf s e = false →
  constructorCalls s (calls ++ [e]) = constructorCalls s calls.
Proof. intros He. rewrite constructorCalls_app, He. lia. Qed.

Lemma destructorRuns_app l l' :
  destructorRuns (l ++ l') = (destructorRuns l + destructorRuns l')%nat.
Proof. unfold destructorRuns. by rewrite filter_app, length_app. Qed.

Lemma destructorRuns_remaining w s :
  destructorRuns (remaining w s)
  = if decide (state (cell w s) = Destroyed) then 0%nat else 1%nat.
Proof.
  unfold remaining. destruct (decide (state (cell w s) = Destroyed)); [done|].
  apply countdownFrom_destructorRuns.
Qed.

Lemma calledOnce_initialWorld layer : calledOnce (initialWorld layer).
Proof. intros s. split; [|done]. unfold constructorCalls. cbn. lia. Qed.

Lemma destroyedOnce_initialWorld layer : destroyedOnce (initialWorld layer).
Proof. intros s. by rewrite cell_initialWorld. Qed.

Section Sessions.
Context (layer : ServiceLayer).
Hypothesis Hvalid : lookupValid layer.

Let n := length (allServices layer).

Lemma calledOnce_silent w w' e :
  trace w' = (trace w ++ [e])%list →
  (∀ s, isCreateOf s e = false) →
  (∀ s, state (cell w' s) = NotConstructed ∨ state (cell w' s) = Constructing →
        state (cell w s) = NotConstructed ∨ state (cell w s) = Constructing) →
  calledOnce w → calledOnce w'.
Proof.
  intros Htr He Hst Hw s. rewrite Htr, constructorCalls_le_app by done.
  destruct (Hw s) as [Hle Hzero]. split; [done|]. intros Hs. by apply Hzero, Hst.
Qed.

Lemma calledOnce_markConstructing s w :
  (s < length (heap w))%nat → state (cell w s) = NotConstructed →
  calledOnce w → calledOnce (markConstructing s w).
Proof.
  intros Hs Hst. apply (calledOnce_silent w _ (CallBeforeCreate s)); [done..|].
  intros i Hi. destruct (decide (i = s)) as [->|Hne]; [by left|].
  by rewrite markConstructing_ne in Hi.
Qed.

Lemma creates_injects_calledOnce :
  (∀ s w out, creates layer s w out →
     length (heap w) = n → (s < n)%nat → calledOnce w →
     match out with
     | Done _ w' | Throw _ w' => calledOnce w'
     | OutOfFuel => True
     end)
  ∧ (∀ deps acc w out, injects layer deps acc w out →
       length (heap w) = n → calledOnce w →
       match out with
       | Done _ w' | Throw _ w' => calledOnce w'
       | OutOfFuel => True
       end).
Proof.
  apply creates_injects_ind.
  - intros s w inst Hst _ Hlen Hs. simpl.
    apply (calledOnce_silent w _ (CallAddRef s)); [done..|].
    intros i. by rewrite state_incrementRef.
  - done.
  - done.
  - done.
  - intros s w instances w2 Hst Hloop IH Hlen Hs Hw.
    pose proof (grows_markConstructing s w Hst) as Hg1.
    assert (length (heap (markConstructing s w)) = n) as Hlen1
      by (destruct Hg1 as [Hl _]; lia).
    specialize (IH Hlen1 (calledOnce_markConstructing s w ltac:(lia) Hst Hw)).
    simpl in IH.
    destruct (proj2 (creates_injects_grow layer Hvalid) _ _ _ _ Hloop Hlen1)
      as (Hg2 & _ & _).
    assert (length (heap w2) = n) as Hlen2 by (destruct Hg2 as [Hl _]; lia).
    assert (state (cell w2 s) = Constructing) as Hst2.
    { destruct Hg2 as (_ & _ & _ & Hc). specialize (Hc s).
      rewrite markConstructing_eq in Hc by lia. cbn [state] in Hc. by rewrite Hc. }
    intros i.
    assert (trace (construct s (optionsFor layer s instances) w2)
            = (trace w2
               ++ [CallCreate s (optionsFor layer s instances) (nextInstance w2)])%list)
      as -> by reflexivity.
    rewrite constructorCalls_app. cbn [isCreateOf]. destruct (IH i) as [Hle Hzero].
    destruct (decide (i = s)) as [->|Hne].
    + rewrite construct_eq by lia. cbn [state].
      rewrite bool_decide_eq_true_2 by done.
      rewrite (Hzero ltac:(by right)). split; [lia|]. by intros [|].
    + rewrite construct_ne by done. rewrite bool_decide_eq_false_2 by done.
      split; [lia|]. intros Hi. rewrite (Hzero Hi). lia.
  - intros s w e w' Hst _ IH Hlen Hs Hw.
    pose proof (grows_markConstructing s w Hst) as Hg1.
    apply IH; [destruct Hg1 as [Hl _]; lia|].
    apply calledOnce_markConstructing; [lia|done..].
  - done.
  - done.
  - intros d rest acc w t e w' Hlook _ IH Hlen Hw.
    apply IH; [done|by eapply Hvalid|done].
  - intros d rest acc w t inst w' out Hlook Hcall IH1 _ IH2 Hlen Hw.
    pose proof (proj1 (creates_injects_grow layer Hvalid) _ _ _ Hcall Hlen
                  (Hvalid _ _ Hlook)) as (Hg & _).
    apply IH2; [destruct Hg as [Hl _]; lia|].
    by apply (IH1 Hlen (Hvalid _ _ Hlook) Hw).
Qed.

Lemma constructsAll_calledOnce refs w out :
  constructsAll layer refs w out →
  length (heap w) = n → Forall (λ s, (s < n)%nat) refs → calledOnce w →
  match out with
  | Done _ w' | Throw _ w' => calledOnce w'
  | OutOfFuel => True
  end.
Proof.
  induction 1 as [w|s rest w e w' Hcall|s rest w inst w' out Hcall Hrest IH];
    intros Hlen Hrefs Hw.
  - done.
  - apply Forall_cons in Hrefs as [Hs _].
    by apply (proj1 creates_injects_calledOnce _ _ _ Hcall).
  - apply Forall_cons in Hrefs as [Hs Hrefs].
    pose proof (proj1 (creates_injects_grow layer Hvalid) _ _ _ Hcall Hlen Hs)
      as (Hg & _).
    apply IH; [destruct Hg as [Hl _]; lia|done|].
    by apply (proj1 creates_injects_calledOnce _ _ _ Hcall).
Qed.

(** Destruction calls no constructor. *)
Lemma constructorCalls_release x w s :
  constructorCalls s (trace (release x w)) = constructorCalls s (trace w).
Proof.
  rewrite trace_release. unfold releaseEvents.
  destruct (decide (useCount (cell w x) - 1 ≤ 0)).
  - change (CallRemoveRef x (useCount (cell w x) - 1) :: [CallDestroy x])
      with ([CallRemoveRef x (useCount (cell w x) - 1)] ++ [CallDestroy x])%list.
    by rewrite app_assoc, !constructorCalls_le_app.
  - by rewrite constructorCalls_le_app.
Qed.

Lemma destroys_releases_constructorCalls :
  (∀ s w w', destroys layer s w w' →
     ∀ i, constructorCalls i (trace w') = constructorCalls i (trace w))
  ∧ (∀ deps w w', releases layer deps w w' →
       ∀ i, constructorCalls i (trace w') = constructorCalls i (trace w)).
Proof.
  apply destroys_releases_ind.
  - done.
  - intros s w w' _ _ IH i. by rewrite IH, constructorCalls_release.
  - done.
  - intros d rest w w' _ _ IH. exact IH.
  - intros d rest w t w1 w' _ _ IH1 _ IH2 i. by rewrite IH2, IH1.
Qed.

Lemma destroysAll_constructorCalls refs w w' :
  destroysAll layer refs w w' →
  ∀ i, constructorCalls i (trace w') = constructorCalls i (trace w).
Proof.
  induction 1 as [w|s rest w w1 w' Hcall Hrest IH]; intros i; [done|].
  by rewrite IH, (proj1 destroys_releases_constructorCalls _ _ _ Hcall).
Qed.

(** What every call keeps: the length of the heap, and the two counts of
    calls. *)
Let kept (w : World) : Prop :=
  length (heap w) = n ∧ calledOnce w ∧ destroyedOnce w.

Lemma kept_constructsAll w out w0 :
  constructsAll layer (serviceRefs layer) w out → storeOf out = Some w0 →
  kept w → kept w0 ∧ grows w w0.
Proof.
  intros Hall Hstore (Hlen & Hcalled & Hdestroyed).
  pose proof (constructsAll_grows layer _ _ _ Hvalid Hall Hlen (serviceRefs_valid layer))
    as Hg.
  pose proof (constructsAll_calledOnce _ _ _ Hall Hlen (serviceRefs_valid layer) Hcalled)
    as Hc.
  pose proof (constructsAll_releasesOf layer _ _ _ Hall) as Hr.
  assert (grows w w0 ∧ calledOnce w0
          ∧ ∀ i, releasesOf i (trace w0) = releasesOf i (trace w)) as (Hg0 & Hc0 & Hr0).
  { destruct out as [[] w2|e w2|]; [| |done]; injection Hstore as ->; done. }
  split; [|done]. split; [destruct Hg0 as [Hl _]; lia|]. split; [done|].
  intros s. rewrite destructorCalls_releasesOf, Hr0, <- destructorCalls_releasesOf.
  rewrite (Hdestroyed s). destruct Hg0 as (_ & _ & _ & Hcells). specialize (Hcells s).
  destruct (state (cell w s)) eqn:Hst.
  - destruct Hcells as [Hnd _]. by rewrite !decide_False.
  - by rewrite Hcells, Hst.
  - destruct Hcells as [-> _]. done.
  - by rewrite Hcells, Hst.
Qed.

Lemma kept_destroysAll w w0 :
  destroysAll layer (serviceRefs layer) w w0 → kept w → kept w0 ∧ shrinks w w0.
Proof.
  intros Hall (Hlen & Hcalled & Hdestroyed).
  destruct (destroysAll_count layer Hvalid _ _ _ Hall Hlen (serviceRefs_valid layer))
    as (Hlen0 & Hsh & _).
  split; [|done]. split; [done|]. split.
  - intros s. rewrite (destroysAll_constructorCalls _ _ _ Hall s).
    destruct (Hcalled s) as [Hle Hzero]. split; [done|]. intros Hs. apply Hzero.
    destruct Hsh as (_ & _ & Hcells). destruct (Hcells s) as [_ Hkeep].
    destruct (Hkeep ltac:(destruct Hs as [Hs|Hs]; rewrite Hs; done)) as (<- & _). done.
  - intros s.
    pose proof (destroysAll_remaining layer Hvalid _ _ _ Hall Hlen
                  (serviceRefs_valid layer) s) as Hrem.
    apply (f_equal destructorRuns) in Hrem.
    rewrite !destructorRuns_app, !destructorRuns_remaining in Hrem.
    rewrite <- !destructorCalls_releasesOf in Hrem. rewrite (Hdestroyed s) in Hrem.
    destruct Hsh as (_ & _ & Hcells). destruct (Hcells s) as [Hdead _].
    destruct (decide (state (cell w s) = Destroyed)) as [Hgone|Halive].
    + rewrite (Hdead Hgone), decide_True in Hrem |- * by done. lia.
    + destruct (decide (state (cell w0 s) = Destroyed)); lia.
Qed.

(** Every request keeps the counts of calls right and moves no state
    backwards. *)
Lemma session_kept requests w w' :
  session layer requests w w' → kept w →
  kept w'
  ∧ (layerRank (layerState w) ≤ layerRank (layerState w'))%nat
  ∧ ∀ s, (stateRank (state (cell w s)) ≤ stateRank (state (cell w' s)))%nat.
Proof.
  induction 1 as [w|fuel rest w w1 w' Hcall Hrest IH|fuel rest w w1 w' Hcall Hrest IH
                  |packageName spec rest w w1 w' Hcall Hrest IH]; intros Hw.
  - done.
  - apply start_storeOf in Hcall as [->|(out & w0 & Hall & Hstore & Hheap & Htrace & Hls)];
      [by apply IH|].
    destruct (kept_constructsAll w out w0 Hall Hstore Hw)
      as [(Hlen0 & Hc0 & Hd0) Hg].
    assert (kept w1) as Hw1.
    { split; [by rewrite Hheap|]. split.
      - intros s. rewrite (cell_same_heap w0 w1 Hheap), Htrace. apply Hc0.
      - intros s. rewrite (cell_same_heap w0 w1 Hheap), Htrace. apply Hd0. }
    destruct (IH Hw1) as (Hw' & Hrank & Hstates). split; [done|]. split.
    + destruct Hg as (_ & Hsame & _). rewrite Hsame in Hls. lia.
    + intros s. specialize (Hstates s). rewrite (cell_same_heap w0 w1 Hheap) in Hstates.
      destruct Hg as (_ & _ & _ & Hcells). specialize (Hcells s).
      destruct (state (cell w s)) eqn:Hst; simpl in *.
      * lia.
      * rewrite Hcells, Hst in Hstates. done.
      * destruct Hcells as [Hst0 _]. rewrite Hst0 in Hstates. done.
      * rewrite Hcells, Hst in Hstates. done.
  - apply destroy_storeOf in Hcall as (w0 & Hall & Hheap & Htrace & Hls).
    destruct (kept_destroysAll w w0 Hall Hw) as [(Hlen0 & Hc0 & Hd0) Hsh].
    assert (kept w1) as Hw1.
    { split; [by rewrite Hheap|]. split.
      - intros s. rewrite (cell_same_heap w0 w1 Hheap), Htrace. apply Hc0.
      - intros s. rewrite (cell_same_heap w0 w1 Hheap), Htrace. apply Hd0. }
    destruct (IH Hw1) as (Hw' & Hrank & Hstates). split; [done|]. split.
    + rewrite Hls in Hrank. simpl in Hrank. destruct (layerState w); simpl; lia.
    + intros s. specialize (Hstates s). rewrite (cell_same_heap w0 w1 Hheap) in Hstates.
      destruct Hsh as (_ & _ & Hcells). destruct (Hcells s) as [_ Hkeep].
      destruct (decide (state (cell w0 s) = Destroyed)) as [Hgone|Halive].
      * rewrite Hgone in Hstates. simpl in Hstates.
        destruct (state (cell w s)); simpl; lia.
      * destruct (Hkeep Halive) as (Hsame & _). by rewrite <- Hsame.
  - apply getService_storeOf in Hcall as ->. by apply IH.
Qed.
End Sessions.

(** The store after a list of requests is the store of a session. *)
Lemma afterRequests_session fuel layer requests w w' :
  afterRequests fuel layer requests w = Some w' → session layer requests w w'.
Proof.
  revert w. induction requests as [|request rest IH]; intros w Hrun.
  - injection Hrun as ->. constructor.
  - cbn [afterRequests] in Hrun.
    destruct (answer fuel layer request w) as [w1|] eqn:Hanswer; [|done].
    destruct request as [| |packageName spec]; cbn [answer] in Hanswer.
    + apply (session_start layer fuel rest w w1); [done|by apply IH].
    + apply (session_destroy layer fuel rest w w1); [done|by apply IH].
    + apply (session_service layer packageName spec rest w w1); [done|by apply IH].
Qed.

(** ** Services on which nothing depends *)

Section NoDependents.
Context (layer : ServiceLayer).

Lemma dependents_zero s :
  (∀ u, ¬ dependsOn layer u s) → dependents layer s = 0.
Proof.
  intros Hnone. unfold dependents. rewrite (sumTo_ext _ _ (λ _, 0)).
  - generalize (length (allServices layer)) as m.
    induction m as [|m IH]; cbn [sumTo]; lia.
  - intros u _. pose proof (edges_nonneg layer u s).
    destruct (decide (edges layer u s = 0)) as [|Hne]; [done|].
    destruct (Hnone u). apply edges_dependsOn. lia.
Qed.

(** destroy() reaches a service on which nothing depends only by the call
    on that service, which takes one reference. *)
Lemma destroys_no_dependents x w w' s :
  destroys layer x w w' →
  (∀ u, ¬ dependsOn layer u s) →
  (s < length (heap w))%nat →
  cell w' s
  = if decide (x = s)
    then (if decide (state (cell w s) = Destroyed) then cell w s
          else releasedCell (cell w s))
    else cell w s.
Proof.
  intros Hcall Hnone Hs. destruct (decide (x = s)) as [->|Hne].
  - inversion Hcall as [s' w0 Hst|s' w0 w0' Hst Hloop]; subst.
    + by rewrite decide_True.
    + rewrite decide_False by done. rewrite <- (release_eq_cell s w Hs).
      apply (proj2 (destroys_releases_frame layer) _ _ _ Hloop).
      intros d t Hd Hlook Hreach. apply rtc_no_dependents in Hreach; [|done].
      subst t. apply (Hnone s). by exists d.
  - apply (proj1 (destroys_releases_frame layer) _ _ _ Hcall).
    intros Hreach. by apply rtc_no_dependents in Hreach.
Qed.

Lemma destroysAll_no_dependents refs w w' s :
  destroysAll layer refs w w' →
  lookupValid layer →
  length (heap w) = length (allServices layer) →
  Forall (λ x, (x < length (allServices layer))%nat) refs →
  (∀ u, ¬ dependsOn layer u s) →
  (s < length (allServices layer))%nat →
  NoDup refs → s ∈ refs →
  state (cell w s) ≠ Destroyed →
  cell w' s = releasedCell (cell w s).
Proof.
  intros Hall Hvalid. revert s.
  assert (Hout : ∀ refs w w', destroysAll layer refs w w' →
            ∀ s, (∀ u, ¬ dependsOn layer u s) → s ∉ refs → cell w' s = cell w s).
  { clear. intros refs w w' Hall.
    induction Hall as [w|x rest w w1 w' Hcall Hrest IH]; intros s Hnone Hs; [done|].
    apply not_elem_of_cons in Hs as [Hne Hs]. rewrite (IH s Hnone Hs).
    apply (proj1 (destroys_releases_frame layer) _ _ _ Hcall).
    intros Hreach. by apply rtc_no_dependents in Hreach. }
  induction Hall as [w|x rest w w1 w' Hcall Hrest IH];
    intros s Hlen Hrefs Hnone Hs Hnd Hin Halive.
  - by apply elem_of_nil in Hin.
  - apply Forall_cons in Hrefs as [Hx Hrefs]. apply NoDup_cons in Hnd as [Hnotin Hnd].
    destruct (proj1 (destroys_releases_shrink layer Hvalid) _ _ _ Hcall Hlen Hx)
      as [(Hl1 & _) _].
    pose proof (destroys_no_dependents x w w1 s Hcall Hnone ltac:(lia)) as Hstep.
    apply elem_of_cons in Hin as [->|Hin].
    + rewrite decide_True, decide_False in Hstep by done.
      rewrite <- Hstep. by apply (Hout rest w1 w' Hrest).
    + assert (x ≠ s) as Hne by (intros ->; done).
      rewrite decide_False in Hstep by done. rewrite <- Hstep.
      apply IH; try done; [lia|by rewrite Hstep].
Qed.
End NoDependents.

(** ** Destructors and the decrements before them *)






(** A call of [destroyService] that returns, on a service that is not
    destroyed, costs the service and the target of each of its resolved
    dependencies a reference, or leaves them destroyed. *)
Lemma destroys_live_targets layer s w w' :
  lookupValid layer →
  destroys layer s w w' →
  length (heap w) = length (allServices layer) →
  (s < length (allServices layer))%nat →
  state (cell w s) ≠ Destroyed →
  (state (cell w' s) = Destroyed ∨ useCount (cell w' s) < useCount (cell w s))
  ∧ ∀ d t, d ∈ dependencies (repr layer s) →
      serviceLookup layer (required d) = Found t →
      state (cell w' t) = Destroyed ∨ useCount (cell w' t) < useCount (cell w t).
Proof.
  intros Hvalid Hd Hlen Hs Halive.
  split; [by apply (destroys_target layer Hvalid s w w')|].
  inversion Hd as [s' w0 Hst|s' w0 w0' Hst Hloop]; subst; [done|].
  intros d t Hin Hlook.
  destruct (releases_target layer Hvalid _ _ _ Hloop
              ltac:(by rewrite length_release) d t Hin Hlook) as [Hgone|Hless];
    [by left|].
  right. destruct (decide (t = s)) as [->|Hne].
  - rewrite release_eq_cell in Hless by lia. unfold releasedCell in Hless.
    destruct (decide (useCount (cell w s) - 1 ≤ 0)); cbn [useCount] in Hless; lia.
  - by rewrite release_ne in Hless.
Qed.

(** ** start() again and again *)

Lemma layerState_addRefs refs w : layerState (addRefs refs w) = layerState w.
Proof.
  revert w. induction refs as [|s rest IH]; intros w; [done|].
  unfold addRefs in *. cbn [fold_left]. by rewrite IH.
Qed.

Lemma state_addRefs refs w i : state (cell (addRefs refs w) i) = state (cell w i).
Proof.
  revert w. induction refs as [|s rest IH]; intros w; [done|].
  unfold addRefs in *. cbn [fold_left]. by rewrite IH, state_incrementRef.
Qed.

Lemma instance_addRefs refs w i : instance (cell (addRefs refs w) i) = instance (cell w i).
Proof.
  revert w. induction refs as [|s rest IH]; intros w; [done|].
  unfold addRefs in *. cbn [fold_left]. by rewrite IH, instance_incrementRef.
Qed.

Lemma iter_zero {A} (f : A → A) (x : A) : Nat.iter 0 f x = x.
Proof. done. Qed.

Lemma iter_next {A} (f : A → A) (x : A) m : Nat.iter (S m) f x = f (Nat.iter m f x).
Proof. done. Qed.

(** The store after [m] passes of [addRef] over the first [k] services. *)
Lemma cell_retries k m w s :
  (k ≤ length (heap w))%nat →
  cell (Nat.iter m (addRefs (seq 0 k)) w) s
  = if decide (s < k)%nat
    then {| state := state (cell w s);
            useCount := useCount (cell w s) + Z.of_nat m;
            instance := instance (cell w s) |}
    else cell w s.
Proof.
  intros Hk. induction m as [|m IH].
  - rewrite iter_zero. destruct (decide (s < k)%nat); [|done].
    destruct (cell w s) as [st c inst]. cbn [state useCount instance]. f_equal. lia.
  - rewrite iter_next. rewrite cell_addRefs.
    + rewrite count_in_seq, IH. destruct (decide (s < k)%nat) as [Hs|Hs].
      * cbn [state useCount instance]. f_equal. lia.
      * destruct (cell w s) as [st c inst]. cbn [state useCount instance]. f_equal. lia.
    + intros s' Hs'. apply elem_of_seq in Hs'.
      assert (length (heap (Nat.iter m (addRefs (seq 0 k)) w)) = length (heap w)) as ->.
      { clear. induction m as [|m IHm]; [done|]. rewrite iter_next.
        by rewrite length_addRefs. }
      lia.
Qed.

(** Once the loop of start() has left a service under construction behind
    constructed ones, every further start() takes a reference to each of
    those and throws the cycle error, however often it is called. *)
Lemma start_retries layer k fuel' w m :
  (k < length (allServices layer))%nat →
  layerState w = NotStarted →
  (∀ s, (s < k)%nat → state (cell w s) = Constructed ∧ is_Some (instance (cell w s))) →
  state (cell w k) = Constructing →
  start (S fuel') layer (Nat.iter m (addRefs (seq 0 k)) w)
  = Throw cycleError (Nat.iter (S m) (addRefs (seq 0 k)) w).
Proof.
  intros Hk Hls Hpre Hx.
  assert (layerState (Nat.iter m (addRefs (seq 0 k)) w) = NotStarted
          ∧ (∀ s, state (cell (Nat.iter m (addRefs (seq 0 k)) w) s) = state (cell w s))
          ∧ ∀ s, instance (cell (Nat.iter m (addRefs (seq 0 k)) w) s) = instance (cell w s))
    as (Hls' & Hst' & Hinst').
  { induction m as [|m IH]; [done|]. destruct IH as (IH1 & IH2 & IH3).
    rewrite iter_next. split; [by rewrite layerState_addRefs|].
    split; intros s; [by rewrite state_addRefs|by rewrite instance_addRefs]. }
  rewrite iter_next. set (w' := Nat.iter m (addRefs (seq 0 k)) w) in *.
  unfold start. rewrite bind_eq. unfold getLayerState. rewrite Hls'.
  destruct (decide (NotStarted ≠ NotStarted)) as [|_]; [done|].
  rewrite bind_eq.
  assert (serviceRefs layer
          = (seq 0 k ++ k :: seq (S k) (length (allServices layer) - S k))%list) as ->.
  { unfold serviceRefs.
    replace (length (allServices layer))
      with (k + S (length (allServices layer) - S k))%nat at 1 by lia.
    rewrite seq_app. by cbn [seq Nat.add]. }
  rewrite (forEach_constructed layer fuel' (seq 0 k) k _ w'); [done| |].
  - intros s Hs. apply elem_of_seq in Hs. rewrite Hst', Hinst'. apply Hpre. lia.
  - by rewrite Hst'.
Qed.

(** * Main results *)

(** C1, as the code has it: after a successful start() of a freshly built
    layer in which S1 and S2 both declare a dependency that resolves to P
    (each declaration being the last one its service makes under its
    reference name, as a later declaration under a name replaces an earlier
    one), the constructors of S1 and of S2 were both called, each was handed
    the instance that P holds under the declared name, and the count of P is
    one more than the number of dependency declarations that resolve to P: 3
    when those of S1 and S2 are the only ones. *)
Theorem shared_provider_instance_and_count layer fuel w s1 s2 p d1 d2 :
  lookupValid layer →
  start fuel layer (initialWorld layer) = Done tt w →
  lastNamed (referenceName d1) (dependencies (repr layer s1)) = Some d1 →
  lastNamed (referenceName d2) (dependencies (repr layer s2)) = Some d2 →
  serviceLookup layer (required d1) = Found p →
  serviceLookup layer (required d2) = Found p →
  ∃ inst,
    instance (cell w p) = Some inst
    ∧ (∃ options r, CallCreate s1 options r ∈ trace w)
    ∧ (∀ options r, CallCreate s1 options r ∈ trace w →
         assigned (references options) (referenceName d1) = Some inst)
    ∧ (∃ options r, CallCreate s2 options r ∈ trace w)
    ∧ (∀ options r, CallCreate s2 options r ∈ trace w →
         assigned (references options) (referenceName d2) = Some inst)
    ∧ useCount (cell w p) = 1 + dependents layer p
    ∧ (dependents layer p = 2 → useCount (cell w p) = 3).
Proof.
  intros Hvalid Hstart Hd1 Hd2 Hp1 Hp2.
  destruct (start_counts layer fuel w Hvalid Hstart) as [Hlen Hbuilt].
  pose proof (Hvalid _ _ Hp1) as Hp.
  destruct (Hbuilt p Hp) as [Hstp Hcount].
  assert (∃ inst, instance (cell w p) = Some inst) as [inst Hinst].
  { pose proof (lastNamed_Some _ _ _ Hd1) as [Hin _].
    assert (s1 < length (allServices layer))%nat as Hs.
    { apply (dependsOn_valid layer s1 p). by exists d1. }
    destruct (Hbuilt s1 Hs) as [Hsts _].
    pose proof Hstart as Hrun.
    apply start_Done in Hrun as (_ & w1 & Hall & Hw).
    pose proof (constructsAll_wired layer Hvalid _ _ _ Hall (length_initialWorld layer)
                  (serviceRefs_valid layer) (wired_initialWorld layer)) as [_ HB].
    rewrite Hw in Hsts. destruct (HB s1 Hsts) as (o & r & Hcall & _).
    assert (CallCreate s1 o r ∈ trace w) as Hcall' by (by rewrite Hw).
    destruct (start_Done_references layer fuel w s1 o r Hvalid Hstart Hcall')
      as (_ & Hsome & _).
    destruct (Hsome d1 Hin) as [inst Hinst]. exists inst.
    unfold resolvedInstance in Hinst. by rewrite Hp1 in Hinst. }
  assert (∀ s d, lastNamed (referenceName d) (dependencies (repr layer s)) = Some d →
                 serviceLookup layer (required d) = Found p →
                 (∃ options r, CallCreate s options r ∈ trace w)
                 ∧ ∀ options r, CallCreate s options r ∈ trace w →
                     assigned (references options) (referenceName d) = Some inst) as Hboth.
  { intros s d Hlast Hlook.
    pose proof (lastNamed_Some _ _ _ Hlast) as [Hin _].
    assert (s < length (allServices layer))%nat as Hs.
    { apply (dependsOn_valid layer s p). by exists d. }
    destruct (Hbuilt s Hs) as [Hsts _]. split.
    - pose proof Hstart as Hrun.
      apply start_Done in Hrun as (_ & w1 & Hall & Hw).
      pose proof (constructsAll_wired layer Hvalid _ _ _ Hall (length_initialWorld layer)
                    (serviceRefs_valid layer) (wired_initialWorld layer)) as [_ HB].
      rewrite Hw in Hsts. destruct (HB s Hsts) as (o & r & Hcall & _).
      exists o, r. by rewrite Hw.
    - intros o r Hcall.
      destruct (start_Done_references layer fuel w s o r Hvalid Hstart Hcall)
        as (_ & _ & Hrefs & _).
      rewrite Hrefs, Hlast. cbn. unfold resolvedInstance. by rewrite Hlook. }
  exists inst. split; [done|].
  destruct (Hboth s1 d1 Hd1 Hp1) as [Hcall1 Hrefs1].
  destruct (Hboth s2 d2 Hd2 Hp2) as [Hcall2 Hrefs2].
  do 4 (split; [done|]). split; [done|]. intros Htwo. lia.
Qed.

Lemma shared_provider_instance_and_count_witness :
  ∃ inst,
    instance (cell (afterStart 4 (sharingLayer sharingServices)) 2) = Some inst
    ∧ (∃ options r, CallCreate 0 options r ∈ trace (afterStart 4 (sharingLayer sharingServices)))
    ∧ (∀ options r,
         CallCreate 0 options r ∈ trace (afterStart 4 (sharingLayer sharingServices)) →
         ownKeys (references options) !! "provider" = Some inst)
    ∧ (∃ options r, CallCreate 1 options r ∈ trace (afterStart 4 (sharingLayer sharingServices)))
    ∧ (∀ options r,
         CallCreate 1 options r ∈ trace (afterStart 4 (sharingLayer sharingServices)) →
         ownKeys (references options) !! "provider" = Some inst)
    ∧ useCount (cell (afterStart 4 (sharingLayer sharingServices)) 2) = 3.
Proof.
  pose proof (layerOf_valid (sharingPackages sharingServices)) as Hvalid.
  destruct (shared_provider_instance_and_count
              (sharingLayer sharingServices) 4
              (afterStart 4 (sharingLayer sharingServices)) 0 1 2
              (mkReferenceSpec "provider" providerSpec)
              (mkReferenceSpec "provider" providerSpec) Hvalid)
    as (inst & Hinst & Hc1 & Hr1 & Hc2 & Hr2 & _ & Hthree).
  - vm_compute. reflexivity.
  - vm_compute. reflexivity.
  - vm_compute. reflexivity.
  - vm_compute. reflexivity.
  - vm_compute. reflexivity.
  - exists inst. split; [done|]. split; [done|].
    split; [intros o r Hin; exact (Hr1 o r Hin)|]. split; [done|].
    split; [intros o r Hin; exact (Hr2 o r Hin)|].
    apply Hthree. vm_compute. reflexivity.
Defined.

(** C1, as the specification has it, fails: in the layer of S1, S2 and P the
    count of P after start() is 3, not 2.  And a declaration that a later
    one of the same name replaces hands nothing over: when S1 declares P
    and then Q under one name, and S2 declares P, start() succeeds, the
    constructor of S2 receives the instance of P, and the record that the
    constructor of S1 receives holds the instance of Q under that name and
    the instance of P under no name. *)
Lemma shared_provider_count_is_not_two :
  newServiceLayer (sharingPackages sharingServices) = inr (sharingLayer sharingServices)
  ∧ start 4 (sharingLayer sharingServices) (initialWorld (sharingLayer sharingServices))
    = Done tt (afterStart 4 (sharingLayer sharingServices))
  ∧ refOf (sharingLayer sharingServices) "P" = 2%nat
  ∧ useCount (cell (afterStart 4 (sharingLayer sharingServices)) 2) = 3
  ∧ useCount (cell (afterStart 4 (sharingLayer sharingServices)) 2) ≠ 2
  ∧ newServiceLayer replacedPackages = inr replacedLayer
  ∧ start 5 replacedLayer (initialWorld replacedLayer) = Done tt (afterStart 5 replacedLayer)
  ∧ dependencies (repr replacedLayer 2)
    = [mkReferenceSpec "dep" providerSpec;
       mkReferenceSpec "dep" (mkInterfaceSpec "example.Q" None)]
  ∧ dependencies (repr replacedLayer 3) = [mkReferenceSpec "dep" providerSpec]
  ∧ serviceLookup replacedLayer providerSpec = Found 0%nat
  ∧ instance (cell (afterStart 5 replacedLayer) 0) = Some 0%nat
  ∧ instance (cell (afterStart 5 replacedLayer) 1) = Some 1%nat
  ∧ constructorCall 3 (trace (afterStart 5 replacedLayer))
    = Some ({| references := {| ownKeys := {["dep" := 0%nat]}; prototype := None |};
               optProperties := [] |}, 3%nat)
  ∧ constructorCall 2 (trace (afterStart 5 replacedLayer))
    = Some ({| references := {| ownKeys := {["dep" := 1%nat]}; prototype := None |};
               optProperties := [] |}, 2%nat)
  ∧ useCount (cell (afterStart 5 replacedLayer) 0) = 3.
Proof.
  split; [vm_compute; reflexivity|]. split; [vm_compute; reflexivity|].
  split; [vm_compute; reflexivity|]. split; [vm_compute; reflexivity|].
  split; [vm_compute; discriminate|].
  split; [vm_compute; reflexivity|]. split; [vm_compute; reflexivity|].
  split; [vm_compute; reflexivity|]. split; [vm_compute; reflexivity|].
  split; [vm_compute; reflexivity|]. split; [vm_compute; reflexivity|].
  split; [vm_compute; reflexivity|]. split; [vm_compute; reflexivity|].
  split; [vm_compute; reflexivity|]. vm_compute. reflexivity.
Qed.




(** C3: on a freshly built layer whose declared dependencies all resolve
    to one service of the layer, and whose dependency graph has no cycle,
    start() returns (with any fuel above the number of services), the layer
    is started, and every service is constructed with a count of at least
    one. *)
Theorem start_succeeds_when_acyclic layer fuel :
  lookupValid layer →
  resolvable layer →
  acyclic layer →
  (length (allServices layer) < fuel)%nat →
  ∃ w', start fuel layer (initialWorld layer) = Done tt w'
        ∧ layerState w' = Started
        ∧ ∀ s, (s < length (allServices layer))%nat →
            state (cell w' s) = Constructed ∧ 1 ≤ useCount (cell w' s).
Proof.
  intros Hvalid Hres Hacyclic Hfuel.
  destruct (start_acyclic_from layer Hvalid Hres fuel (initialWorld layer) Hacyclic)
    as (w' & Hstart & Hst & _ & Hall).
  - apply length_initialWorld.
  - apply healthy_initialWorld.
  - intros c. by rewrite cell_initialWorld.
  - done.
  - by rewrite notConstructedCount_initialWorld.
  - by exists w'.
Qed.

Lemma start_succeeds_when_acyclic_witness :
  ∃ w', start 4 (sharingLayer sharingServices) (initialWorld (sharingLayer sharingServices))
        = Done tt w'
        ∧ layerState w' = Started
        ∧ ∀ s, (s < length (allServices (sharingLayer sharingServices)))%nat →
            state (cell w' s) = Constructed ∧ 1 ≤ useCount (cell w' s).
Proof.
  apply (start_succeeds_when_acyclic (sharingLayer sharingServices) 4).
  - apply layerOf_valid.
  - apply resolvedAll_resolvable. vm_compute. reflexivity.
  - apply (rankedBy_acyclic _ (λ s, match s with 2%nat => 0%nat | _ => 1%nat end)).
    vm_compute. reflexivity.
  - vm_compute. lia.
Defined.

(** C4: when createService() constructs a service, the loop over its
    dependencies has completed before its constructor is called, and in the
    store in which the constructor is called every declared dependency
    resolves to a service that is constructed. *)
Theorem dependencies_constructed_first layer fuel service w inst w' :
  lookupValid layer →
  length (heap w) = length (allServices layer) →
  (service < length (allServices layer))%nat →
  state (cell w service) = NotConstructed →
  createService (S fuel) layer service w = Done inst w' →
  ∃ instances w1,
    forEachAcc (dependencies (repr layer service))
      (injectDependency (createService fuel layer) layer) ∅
      (markConstructing service w)
    = Done instances w1
    ∧ create service (optionsFor layer service instances) w1 = Done inst w'
    ∧ state (cell w1 service) = Constructing
    ∧ ∀ d, d ∈ dependencies (repr layer service) →
        ∃ t, serviceLookup layer (required d) = Found t
             ∧ state (cell w1 t) = Constructed.
Proof.
  intros Hvalid Hlen Hs Hst Hcall.
  cbn [createService] in Hcall. rewrite bind_eq in Hcall. unfold getState in Hcall.
  rewrite Hst in Hcall. rewrite bind_eq in Hcall. unfold beforeCreate, perform in Hcall.
  rewrite bind_eq in Hcall.
  destruct (forEachAcc_injects layer fuel (createService_creates layer fuel)
              (dependencies (repr layer service)) ∅ (markConstructing service w))
    as [Hout|Hinj].
  { by rewrite Hout in Hcall. }
  destruct (forEachAcc _ _ _ (markConstructing service w)) as [instances w1|e w1|]
    eqn:Hloop; [|done..].
  exists instances, w1. split; [done|]. split; [exact Hcall|].
  assert (length (heap (markConstructing service w)) = length (allServices layer))
    as Hlen1.
  { unfold markConstructing. cbn [heap record setCell]. by rewrite length_insert. }
  destruct (proj2 (creates_injects_grow layer Hvalid) _ _ _ _ Hinj Hlen1)
    as (Hg & _ & Hall).
  split.
  - destruct Hg as (_ & _ & _ & Hc). specialize (Hc service).
    rewrite markConstructing_eq in Hc by lia. cbn [state] in Hc. by rewrite Hc.
  - intros d Hd. destruct (injects_resolved layer _ _ _ _ _ Hinj d Hd) as [t Ht].
    exists t. split; [done|]. rewrite Forall_forall in Hall. by apply (Hall d).
Qed.

Lemma dependencies_constructed_first_witness :
  ∃ inst w' instances w1,
    createService 3 (sharingLayer sharingServices) 0
      (initialWorld (sharingLayer sharingServices)) = Done inst w'
    ∧ forEachAcc (dependencies (repr (sharingLayer sharingServices) 0))
        (injectDependency (createService 2 (sharingLayer sharingServices))
           (sharingLayer sharingServices)) ∅
        (markConstructing 0 (initialWorld (sharingLayer sharingServices)))
      = Done instances w1
    ∧ create 0 (optionsFor (sharingLayer sharingServices) 0 instances) w1 = Done inst w'
    ∧ state (cell w1 0) = Constructing
    ∧ ∀ d, d ∈ dependencies (repr (sharingLayer sharingServices) 0) →
        ∃ t, serviceLookup (sharingLayer sharingServices) (required d) = Found t
             ∧ state (cell w1 t) = Constructed.
Proof.
  eexists _, _.
  pose proof (layerOf_valid (sharingPackages sharingServices)) as Hvalid.
  destruct (dependencies_constructed_first (sharingLayer sharingServices) 2 0
              (initialWorld (sharingLayer sharingServices))
              (nextInstance
                 (afterCreate 2 (sharingLayer sharingServices) 2
                    (markConstructing 0 (initialWorld (sharingLayer sharingServices)))))
              (afterCreate 3 (sharingLayer sharingServices) 0
                 (initialWorld (sharingLayer sharingServices)))
              Hvalid)
    as (instances & w1 & H).
  - vm_compute. reflexivity.
  - vm_compute. lia.
  - vm_compute. reflexivity.
  - vm_compute. reflexivity.
  - exists instances, w1. split; [vm_compute; reflexivity|]. exact H.
Defined.

(** C5: createService() on a service under construction throws the cycle
    error.  On a freshly built layer whose declared dependencies all resolve
    and whose dependency graph has a cycle, start() throws that error (with
    any fuel above the number of services) and leaves a service of a cycle
    under construction; no service on a cycle is constructed, and the
    constructor of none of them was ever called. *)
Theorem start_fails_on_cycle layer fuel :
  lookupValid layer →
  resolvable layer →
  (∃ s, onCycle layer s) →
  (length (allServices layer) < fuel)%nat →
  (∀ fuel' s w, state (cell w s) = Constructing →
     createService (S fuel') layer s w
     = Throw (internal "Cycle during service construction.") w)
  ∧ ∃ w', start fuel layer (initialWorld layer)
          = Throw (internal "Cycle during service construction.") w'
          ∧ (∃ c, onCycle layer c ∧ state (cell w' c) = Constructing)
          ∧ ∀ s, onCycle layer s →
              state (cell w' s) ≠ Constructed
              ∧ ∀ options inst, CallCreate s options inst ∉ trace w'.
Proof.
  intros Hvalid Hres Hcycle Hfuel. split.
  { intros fuel' s w Hst. cbn [createService]. rewrite bind_eq. unfold getState.
    by rewrite Hst. }
  destruct (start_cyclic_from layer Hvalid Hres fuel (initialWorld layer) Hcycle)
    as (w' & Hstart & _ & Hfree & Hc).
  - apply length_initialWorld.
  - apply healthy_initialWorld.
  - intros c. by rewrite cell_initialWorld.
  - intros s _. rewrite cell_initialWorld. split; [done|].
    intros o r Hin. by apply elem_of_nil in Hin.
  - done.
  - by rewrite notConstructedCount_initialWorld.
  - exists w'. split; [exact Hstart|]. split; [exact Hc|]. exact Hfree.
Qed.

Lemma start_fails_on_cycle_witness :
  ∃ w', start 4 cyclicLayer (initialWorld cyclicLayer)
        = Throw (internal "Cycle during service construction.") w'
        ∧ (∃ c, onCycle cyclicLayer c ∧ state (cell w' c) = Constructing)
        ∧ ∀ s, onCycle cyclicLayer s →
            state (cell w' s) ≠ Constructed
            ∧ ∀ options inst, CallCreate s options inst ∉ trace w'.
Proof.
  apply (start_fails_on_cycle cyclicLayer 4).
  - apply layerOf_valid.
  - apply resolvedAll_resolvable. vm_compute. reflexivity.
  - exists 1%nat. eapply tc_l; [|apply tc_once].
    + exists (mkReferenceSpec "b" (mkInterfaceSpec "example.B" None)).
      split; [vm_compute; left|vm_compute; reflexivity].
    + exists (mkReferenceSpec "a" (mkInterfaceSpec "example.A" None)).
      split; [vm_compute; left|vm_compute; reflexivity].
  - vm_compute. lia.
Defined.

(** C6: in a started layer getService() never throws.  It answers
    "undeclared" exactly when the requesting package declared no consumer
    reference that matches the specification by the exact-qualifier rule,
    and otherwise hands on the answer of the lookup index unchanged. *)
Theorem getService_checks_declarations packages layer w packageName spec :
  NoDup (map name packages) →
  declaredDependencies layer = buildDependencyIndex packages →
  layerState w = Started →
  (getService layer packageName spec w = Done Undeclared w
   ↔ ¬ declaredBy packages packageName spec)
  ∧ (declaredBy packages packageName spec →
       getService layer packageName spec w = Done (Looked (serviceLookup layer spec)) w)
  ∧ ∃ result, getService layer packageName spec w = Done result w.
Proof.
  intros Hnd Hindex Hst.
  pose proof (isDeclaredDependency_declaredBy packages layer packageName spec Hnd Hindex)
    as Hiff.
  assert (getService layer packageName spec w
          = if isDeclaredDependency layer packageName spec
            then Done (Looked (serviceLookup layer spec)) w
            else Done Undeclared w) as Hget.
  { unfold getService. rewrite bind_eq. unfold getLayerState. rewrite Hst.
    destruct (decide (Started ≠ Started)) as [|_]; [done|].
    by destruct (isDeclaredDependency layer packageName spec). }
  rewrite Hget.
  destruct (isDeclaredDependency layer packageName spec) eqn:Hdecl.
  - assert (declaredBy packages packageName spec) as Hyes by (by apply Hiff).
    split; [split; [done|by intros Hno]|]. split; [done|]. by eexists.
  - assert (¬ declaredBy packages packageName spec) as Hno.
    { intros Hyes. apply Hiff in Hyes. congruence. }
    split; [done|]. split; [done|]. by eexists.
Qed.

Lemma getService_checks_declarations_witness :
  getService qualifiedLayer "pkgA" (mkInterfaceSpec "X" (Some "v2"))
    (afterStart 2 qualifiedLayer)
  = Done Undeclared (afterStart 2 qualifiedLayer)
  ∧ getService qualifiedLayer "pkgA" (mkInterfaceSpec "X" None)
      (afterStart 2 qualifiedLayer)
    = Done Undeclared (afterStart 2 qualifiedLayer)
  ∧ getService qualifiedLayer "pkgA" (mkInterfaceSpec "X" (Some "v1"))
      (afterStart 2 qualifiedLayer)
    = Done (Looked (Found 0%nat)) (afterStart 2 qualifiedLayer).
Proof.
  assert (NoDup (map name qualifiedPackages)) as Hnd.
  { simpl. apply NoDup_cons. split; [|apply NoDup_singleton].
    intros Hin. apply list_elem_of_singleton in Hin. discriminate Hin. }
  assert (layerState (afterStart 2 qualifiedLayer) = Started) as Hst
    by (vm_compute; reflexivity).
  assert (∀ spec, spec ≠ mkInterfaceSpec "X" (Some "v1") →
                  ¬ declaredBy qualifiedPackages "pkgA" spec) as Hno.
  { intros spec Hne (pkg & declared & Hin & Hname & Hd & Hi & Hq).
    apply elem_of_cons in Hin as [->|Hin].
    - apply list_elem_of_singleton in Hd as ->. apply Hne.
      destruct spec as [i [q|]]; simpl in *; congruence.
    - apply list_elem_of_singleton in Hin as ->. by apply elem_of_nil in Hd. }
  split; [|split].
  - apply (getService_checks_declarations qualifiedPackages qualifiedLayer
             (afterStart 2 qualifiedLayer) "pkgA"
             (mkInterfaceSpec "X" (Some "v2")) Hnd eq_refl Hst).
    apply Hno. discriminate.
  - apply (getService_checks_declarations qualifiedPackages qualifiedLayer
             (afterStart 2 qualifiedLayer) "pkgA"
             (mkInterfaceSpec "X" None) Hnd eq_refl Hst).
    apply Hno. discriminate.
  - destruct (getService_checks_declarations qualifiedPackages qualifiedLayer
                (afterStart 2 qualifiedLayer) "pkgA"
                (mkInterfaceSpec "X" (Some "v1")) Hnd eq_refl Hst)
      as (_ & Hyes & _).
    apply Hyes.
    exists (mkPackageRepr "pkgA" [] [mkInterfaceSpec "X" (Some "v1")]),
           (mkInterfaceSpec "X" (Some "v1")).
    split; [left|]. split; [done|]. split; [left|]. by split.
Defined.

(** C7: start() in any state but not-started (so also a second start()) and
    getService() in any state but started throw the internal error of the
    invalid state, and leave the store as it was. *)
Theorem invalid_state_errors fuel fuel' layer w packageName spec :
  (layerState w ≠ NotStarted →
     start fuel layer w = Throw (internal "Service layer was already started.") w)
  ∧ (layerState w ≠ Started →
       getService layer packageName spec w
       = Throw (internal "Service layer is not started.") w)
  ∧ (∀ w', start fuel layer w = Done tt w' →
       start fuel' layer w' = Throw (internal "Service layer was already started.") w').
Proof.
  assert (∀ f w0, layerState w0 ≠ NotStarted →
            start f layer w0 = Throw (internal "Service layer was already started.") w0)
    as Hguard.
  { intros f w0 Hst. unfold start. rewrite bind_eq. unfold getLayerState.
    by destruct (decide (layerState w0 ≠ NotStarted)). }
  split; [apply Hguard|]. split.
  - intros Hst. unfold getService. rewrite bind_eq. unfold getLayerState.
    by destruct (decide (layerState w ≠ Started)).
  - intros w' Hstart. apply Hguard.
    apply start_Done in Hstart as (_ & w1 & _ & ->). done.
Qed.

Lemma invalid_state_errors_witness :
  start 4 (sharingLayer sharingServices)
    {| heap := []; layerState := Started; trace := []; nextInstance := 0 |}
  = Throw (internal "Service layer was already started.")
      {| heap := []; layerState := Started; trace := []; nextInstance := 0 |}
  ∧ getService (sharingLayer sharingServices) "app" providerSpec
      (initialWorld (sharingLayer sharingServices))
    = Throw (internal "Service layer is not started.")
        (initialWorld (sharingLayer sharingServices)).
Proof.
  split.
  - destruct (invalid_state_errors 4 4 (sharingLayer sharingServices)
                {| heap := []; layerState := Started; trace := []; nextInstance := 0 |}
                "app" providerSpec) as (Hstart & _ & _).
    apply Hstart. simpl. discriminate.
  - destruct (invalid_state_errors 4 4 (sharingLayer sharingServices)
                (initialWorld (sharingLayer sharingServices)) "app" providerSpec)
      as (_ & Hget & _).
    apply Hget. simpl. discriminate.
Defined.

(** C8, as the code has it: destroy() never throws, in any state of the
    layer and whatever the services are in: with fuel above the number of
    pending decrements it returns and the layer is destroyed.  Every service
    is then destroyed, or has lost a reference and still holds one; a
    destroyed service stays destroyed.  On the store of a freshly built
    layer, and on the store that its first start() left, whether start()
    returned or threw, destroy() destroys every service. *)
Theorem destroy_always_succeeds layer w fuel :
  lookupValid layer →
  length (heap w) = length (allServices layer) →
  (pendingReleases w < fuel)%nat →
  ∃ w', destroy fuel layer w = Done tt w'
        ∧ layerState w' = LayerDestroyed
        ∧ (∀ s, (s < length (allServices layer))%nat →
             state (cell w' s) = Destroyed
             ∨ 1 ≤ useCount (cell w' s) < useCount (cell w s))
        ∧ (∀ s, state (cell w s) = Destroyed → state (cell w' s) = Destroyed)
        ∧ (∀ fuel0,
             w = initialWorld layer
             ∨ start fuel0 layer (initialWorld layer) = Done tt w
             ∨ (∃ e, start fuel0 layer (initialWorld layer) = Throw e w) →
             ∀ s, (s < length (allServices layer))%nat → state (cell w' s) = Destroyed).
Proof.
  intros Hvalid Hlen Hfuel.
  destruct (destroy_succeeds layer Hvalid fuel w Hlen Hfuel)
    as (w' & Hdestroy & Hst & Hsh & Hall).
  exists w'. split; [done|]. split; [done|]. split; [|split].
  - intros s Hs. destruct (Hall s Hs) as [Hgone|Hless]; [by left|].
    destruct (decide (state (cell w' s) = Destroyed)) as [|Halive]; [by left|].
    right. destruct Hsh as (_ & _ & Hcells).
    destruct (Hcells s) as [_ Hkeep]. destruct (Hkeep Halive) as (_ & _ & _ & [Heq|Hpos]).
    + rewrite Heq in Hless. lia.
    + lia.
  - intros s Hgone. destruct Hsh as (_ & _ & Hcells).
    destruct (Hcells s) as [Hdead _]. by rewrite (Hdead Hgone).
  - intros fuel0 Hfrom.
    apply (destroy_balanced layer Hvalid fuel w w'); [done| |done].
    destruct Hfrom as [->|[Hstart|[e Hstart]]].
    + apply balanced_initialWorld.
    + apply start_Done in Hstart as (_ & w1 & Hrun & ->).
      exact (proj1 (constructsAll_balanced layer _ Hvalid Hrun)).
    + apply start_Throw in Hstart; [|done].
      exact (proj1 (constructsAll_balanced layer _ Hvalid Hstart)).
Qed.

Lemma destroy_always_succeeds_witness :
  (∃ w', destroy 6 (sharingLayer sharingServices) (afterStart 4 (sharingLayer sharingServices))
         = Done tt w'
         ∧ layerState w' = LayerDestroyed
         ∧ ∀ s, (s < 3)%nat → state (cell w' s) = Destroyed)
  ∧ (∃ w', destroy 4 cyclicLayer (afterStart 4 cyclicLayer) = Done tt w'
           ∧ layerState w' = LayerDestroyed
           ∧ ∀ s, (s < 3)%nat → state (cell w' s) = Destroyed)
  ∧ (∃ w', destroy 1 (sharingLayer sharingServices)
             (afterDestroy 6 (sharingLayer sharingServices)) = Done tt w'
           ∧ layerState w' = LayerDestroyed).
Proof.
  pose proof layerOf_valid as Hvalid.
  split; [|split].
  - destruct (destroy_always_succeeds (sharingLayer sharingServices)
                (afterStart 4 (sharingLayer sharingServices)) 6 (Hvalid _))
      as (w' & Hdestroy & Hst & _ & _ & Hall).
    + vm_compute. reflexivity.
    + vm_compute. lia.
    + exists w'. split; [done|]. split; [done|].
      apply (Hall 4%nat). right. left. vm_compute. reflexivity.
  - destruct (destroy_always_succeeds cyclicLayer (afterStart 4 cyclicLayer) 4 (Hvalid _))
      as (w' & Hdestroy & Hst & _ & _ & Hall).
    + vm_compute. reflexivity.
    + vm_compute. lia.
    + exists w'. split; [done|]. split; [done|].
      apply (Hall 4%nat). right. right. eexists. vm_compute. reflexivity.
  - destruct (destroy_always_succeeds (sharingLayer sharingServices)
                (afterDestroy 6 (sharingLayer sharingServices)) 1 (Hvalid _))
      as (w' & Hdestroy & Hst & _).
    + vm_compute. reflexivity.
    + vm_compute. lia.
    + by exists w'.
Defined.

(** C8, as the specification has it, fails: destroy() does not always tear
    down whatever was constructed.  In the layer of P, A and B, where A and
    B require each other, the first start() constructs P and throws the
    cycle error; a second start() adds a reference to P and throws again;
    destroy() then returns and the layer is destroyed, but P is still
    constructed, holds a reference and its instance, and its destructor was
    never called. *)
Lemma destroy_leaves_constructed_service :
  newServiceLayer cyclicPackages = inr cyclicLayer
  ∧ refOf cyclicLayer "P" = 0%nat
  ∧ start 5 cyclicLayer (initialWorld cyclicLayer) = Throw cycleError (afterStart 5 cyclicLayer)
  ∧ cell (afterStart 5 cyclicLayer) 0
    = {| state := Constructed; useCount := 1; instance := Some 0%nat |}
  ∧ start 5 cyclicLayer (afterStart 5 cyclicLayer) = Throw cycleError (afterRetry 5 cyclicLayer)
  ∧ cell (afterRetry 5 cyclicLayer) 0
    = {| state := Constructed; useCount := 2; instance := Some 0%nat |}
  ∧ (pendingReleases (afterRetry 5 cyclicLayer) < 5)%nat
  ∧ destroy 5 cyclicLayer (afterRetry 5 cyclicLayer) = Done tt (afterLeak 5 cyclicLayer)
  ∧ layerState (afterLeak 5 cyclicLayer) = LayerDestroyed
  ∧ cell (afterLeak 5 cyclicLayer) 0
    = {| state := Constructed; useCount := 1; instance := Some 0%nat |}
  ∧ destructorCalls 0 (trace (afterLeak 5 cyclicLayer)) = 0%nat
  ∧ teardownCalls (trace (afterLeak 5 cyclicLayer))
    = [CallRemoveRef 0 1;
       CallRemoveRef 1 (-1); CallDestroy 1;
       CallRemoveRef 2 (-1); CallDestroy 2].
Proof.
  split; [vm_compute; reflexivity|]. split; [vm_compute; reflexivity|].
  split; [vm_compute; reflexivity|]. split; [vm_compute; reflexivity|].
  split; [vm_compute; reflexivity|]. split; [vm_compute; reflexivity|].
  split; [vm_compute; lia|]. split; [vm_compute; reflexivity|].
  split; [vm_compute; reflexivity|]. split; [vm_compute; reflexivity|].
  split; [vm_compute; reflexivity|]. vm_compute. reflexivity.
Qed.

(** C9: when start() throws, the state of the layer is still not-started
    and the store is the one the failing construction left: nothing is
    rolled back, services stay as construction left them.  The layer becomes
    started only when the loop has constructed every service. *)
Theorem start_failure_keeps_not_started fuel layer w :
  lookupValid layer →
  length (heap w) = length (allServices layer) →
  layerState w = NotStarted →
  (∀ e w', start fuel layer w = Throw e w' →
     layerState w' = NotStarted
     ∧ forEach (serviceRefs layer) (λ value, createService fuel layer value ;; ret tt) w
       = Throw e w'
     ∧ keeps w w')
  ∧ (∀ w', start fuel layer w = Done tt w' →
       layerState w' = Started
       ∧ ∀ s, (s < length (allServices layer))%nat → state (cell w' s) = Constructed).
Proof.
  intros Hvalid Hlen Hst. split.
  - intros e w' Hstart. unfold start in Hstart. rewrite bind_eq in Hstart.
    unfold getLayerState in Hstart. rewrite Hst in Hstart.
    destruct (decide (NotStarted ≠ NotStarted)) as [|_]; [done|].
    rewrite bind_eq in Hstart.
    destruct (forEach_constructsAll layer fuel (serviceRefs layer) w) as [Hout|Hall].
    { by rewrite Hout in Hstart. }
    destruct (forEach (serviceRefs layer) _ w) as [[] w1|e1 w1|] eqn:Hloop; [done| |done].
    injection Hstart as -> ->. split; [|split; [done|]].
    + pose proof (constructsAll_layerState layer _ _ _ Hall) as H. simpl in H. congruence.
    + exact (constructsAll_keeps layer _ _ _ Hvalid Hall Hlen (serviceRefs_valid layer)).
  - intros w' Hstart. apply start_Done in Hstart as (_ & w1 & Hall & ->).
    split; [done|]. intros s Hs.
    assert (Forall (λ s, (s < length (allServices layer))%nat) (serviceRefs layer))
      as Hrefs.
    { apply Forall_forall. intros s' Hs'. apply elem_of_seq in Hs'. lia. }
    destruct (constructsAll_count layer Hvalid _ _ _ Hall Hlen Hrefs)
      as (_ & _ & _ & Hbuilt & _).
    rewrite Forall_forall in Hbuilt. apply (Hbuilt s). apply elem_of_seq. lia.
Qed.

Lemma start_failure_keeps_not_started_witness :
  ∃ e w',
    start 4 cyclicLayer (initialWorld cyclicLayer) = Throw e w'
    ∧ state (cell w' (refOf cyclicLayer "P")) = Constructed
    ∧ layerState w' = NotStarted
    ∧ forEach (serviceRefs cyclicLayer)
        (λ value, createService 4 cyclicLayer value ;; ret tt) (initialWorld cyclicLayer)
      = Throw e w'
    ∧ keeps (initialWorld cyclicLayer) w'.
Proof.
  eexists _, _. split; [vm_compute; reflexivity|]. split; [vm_compute; reflexivity|].
  pose proof (layerOf_valid cyclicPackages) as Hvalid.
  destruct (start_failure_keeps_not_started 4 cyclicLayer (initialWorld cyclicLayer)
              Hvalid ltac:(reflexivity) ltac:(reflexivity)) as [Hthrow _].
  apply Hthrow. vm_compute. reflexivity.
Defined.

(** C10: destroyService() never throws.  A dependency whose lookup is not
    "found" is skipped and the loop goes on with the next one: with enough
    fuel the call returns whatever the lookups answer, and when the service
    was not destroyed, the service itself and the target of every dependency
    that does resolve, also of one listed after an unresolved one, has then
    lost a reference or is destroyed.  createService() on a service that is
    not constructed throws through mustGet() as soon as one of its
    dependencies is unresolved, and never returns. *)
Theorem destruction_skips_unresolved layer :
  (∀ fuel s w e w', destroyService fuel layer s w ≠ Throw e w')
  ∧ (∀ fuel d rest w,
       (∀ t, serviceLookup layer (required d) ≠ Found t) →
       forEach (d :: rest) (releaseDependency (destroyService fuel layer) layer) w
       = forEach rest (releaseDependency (destroyService fuel layer) layer) w)
  ∧ (lookupValid layer →
     ∀ fuel s w,
       length (heap w) = length (allServices layer) →
       (s < length (allServices layer))%nat →
       (pendingReleases w < fuel)%nat →
       ∃ w', destroyService fuel layer s w = Done tt w'
             ∧ (state (cell w s) ≠ Destroyed →
                (state (cell w' s) = Destroyed
                 ∨ useCount (cell w' s) < useCount (cell w s))
                ∧ ∀ d t, d ∈ dependencies (repr layer s) →
                    serviceLookup layer (required d) = Found t →
                    state (cell w' t) = Destroyed
                    ∨ useCount (cell w' t) < useCount (cell w t)))
  ∧ (∀ spec w,
       (∀ t, serviceLookup layer spec ≠ Found t) →
       mustGet layer spec w = Throw (notFoundError layer spec) w)
  ∧ (∀ fuel s d w,
       state (cell w s) = NotConstructed →
       d ∈ dependencies (repr layer s) →
       (∀ t, serviceLookup layer (required d) ≠ Found t) →
       ∀ inst w', createService fuel layer s w ≠ Done inst w').
Proof.
  split; [|split; [|split; [|split]]].
  - intros fuel s w e w' Hthrow.
    pose proof (destroyService_destroys layer fuel s w) as Hd.
    by rewrite Hthrow in Hd.
  - intros fuel d rest w Hno. cbn [forEach]. rewrite bind_eq, releaseDependency_eq.
    destruct (serviceLookup layer (required d)) as [t| |] eqn:Hlook; [|done..].
    by destruct (Hno t).
  - intros Hvalid fuel s w Hlen Hs Hfuel.
    destruct (destroyService_fuel layer Hvalid fuel s w Hlen Hs Hfuel) as [w' Hcall].
    exists w'. split; [done|]. intros Halive.
    pose proof (destroyService_destroys layer fuel s w) as Hd.
    rewrite Hcall in Hd.
    by apply (destroys_live_targets layer s w w').
  - intros spec w Hno. unfold mustGet, notFoundError.
    destruct (serviceLookup layer spec) as [t| |] eqn:Hlook; [|done..].
    by destruct (Hno t).
  - intros fuel s d w Hst Hd Hno inst w' Hcall.
    destruct (createService_creates layer fuel s w) as [Hout|Hc]; [congruence|].
    rewrite Hcall in Hc.
    inversion Hc as [| | | |s' w0 instances w2 Hst' Hloop|]; subst; [congruence|].
    destruct (injects_resolved layer _ _ _ _ _ Hloop d Hd) as [t Ht].
    by destruct (Hno t).
Qed.

Lemma destruction_skips_unresolved_witness :
  dependencies (repr brokenLayer (refOf brokenLayer "X"))
  = [mkReferenceSpec "missing" (mkInterfaceSpec "example.Missing" None);
     mkReferenceSpec "provider" providerSpec]
  ∧ serviceLookup brokenLayer (mkInterfaceSpec "example.Missing" None) = NotFound
  ∧ (∃ w',
       destroyService 5 brokenLayer (refOf brokenLayer "X") providedWorld = Done tt w'
       ∧ (state (cell w' (refOf brokenLayer "X")) = Destroyed
          ∨ useCount (cell w' (refOf brokenLayer "X"))
            < useCount (cell providedWorld (refOf brokenLayer "X")))
       ∧ (state (cell w' (refOf brokenLayer "P")) = Destroyed
          ∨ useCount (cell w' (refOf brokenLayer "P"))
            < useCount (cell providedWorld (refOf brokenLayer "P")))
       ∧ cell providedWorld (refOf brokenLayer "P")
         = {| state := Constructed; useCount := 1; instance := Some 0%nat |}
       ∧ cell w' (refOf brokenLayer "P")
         = {| state := Destroyed; useCount := 0; instance := None |})
  ∧ mustGet brokenLayer (mkInterfaceSpec "example.Missing" None) (initialWorld brokenLayer)
    = Throw (notFoundError brokenLayer (mkInterfaceSpec "example.Missing" None))
        (initialWorld brokenLayer)
  ∧ ∀ inst w',
      createService 3 brokenLayer (refOf brokenLayer "X") (initialWorld brokenLayer)
      ≠ Done inst w'.
Proof.
  destruct (destruction_skips_unresolved brokenLayer) as (_ & _ & Hfuel & Hmust & Hnever).
  assert (∀ t, serviceLookup brokenLayer (mkInterfaceSpec "example.Missing" None) ≠ Found t)
    as Hno by (intros t; vm_compute; discriminate).
  split; [vm_compute; reflexivity|]. split; [vm_compute; reflexivity|].
  split; [|split].
  - pose proof (layerOf_valid brokenPackages) as Hvalid.
    destruct (Hfuel Hvalid 5%nat (refOf brokenLayer "X") providedWorld)
      as (w' & Hcall & Hreleased).
    + vm_compute. reflexivity.
    + vm_compute. lia.
    + vm_compute. lia.
    + destruct Hreleased as [Hown Hdeps]; [vm_compute; discriminate|].
      specialize (Hdeps (mkReferenceSpec "provider" providerSpec)
                    (refOf brokenLayer "P")
                    ltac:(vm_compute; right; left) ltac:(vm_compute; reflexivity)).
      exists w'. do 3 (split; [done|]).
      assert (w' = afterRelease 5 brokenLayer (refOf brokenLayer "X") providedWorld)
        as Hw' by (unfold afterRelease; by rewrite Hcall).
      split; [vm_compute; reflexivity|].
      rewrite Hw'. vm_compute. reflexivity.
  - by apply Hmust.
  - apply (Hnever 3%nat (refOf brokenLayer "X")
             (mkReferenceSpec "missing" (mkInterfaceSpec "example.Missing" None))).
    + vm_compute. reflexivity.
    + vm_compute. left.
    + exact Hno.
Defined.

(** * Further results *)

(** X1: on a freshly built layer whose lookup answers with services of the
    layer, start() returns (with any fuel above the number of services)
    exactly when every declared dependency resolves and the dependency graph
    has no cycle. *)
Theorem start_succeeds_iff layer fuel :
  lookupValid layer →
  (length (allServices layer) < fuel)%nat →
  (∃ w', start fuel layer (initialWorld layer) = Done tt w')
  ↔ resolvable layer ∧ acyclic layer.
Proof.
  intros Hvalid Hfuel. split.
  - intros [w' Hstart].
    pose proof (start_Done_resolvable layer Hvalid fuel w' Hstart) as Hres.
    split; [done|]. intros s Hs.
    destruct (start_from layer Hvalid Hres fuel (initialWorld layer))
      as [(w2 & Hrun & _ & _ & Hfree & Hall)|(w2 & Hrun & _)].
    + apply length_initialWorld.
    + apply healthy_initialWorld.
    + intros c. by rewrite cell_initialWorld.
    + intros x _. rewrite cell_initialWorld. split; [done|].
      intros o r Hin. by apply elem_of_nil in Hin.
    + done.
    + by rewrite notConstructedCount_initialWorld.
    + destruct (onCycle_step layer s Hs) as (t & Hdep & _).
      apply dependsOn_valid in Hdep.
      destruct (Hfree s Hs) as [Hnc _]. apply Hnc. by apply Hall.
    + congruence.
  - intros [Hres Hacyclic].
    destruct (start_acyclic_from layer Hvalid Hres fuel (initialWorld layer) Hacyclic)
      as (w' & Hstart & _).
    + apply length_initialWorld.
    + apply healthy_initialWorld.
    + intros c. by rewrite cell_initialWorld.
    + done.
    + by rewrite notConstructedCount_initialWorld.
    + by exists w'.
Qed.

Lemma start_succeeds_iff_witness :
  (∃ w', start 4 cyclicLayer (initialWorld cyclicLayer) = Done tt w')
  ↔ resolvable cyclicLayer ∧ acyclic cyclicLayer.
Proof.
  apply (start_succeeds_iff cyclicLayer 4).
  - apply layerOf_valid.
  - vm_compute. lia.
Defined.

(** X2: the first start() of a layer always ends (with any fuel above the
    number of services) and leaves the layer started or not-started.  When
    it throws, the error is accurate: the cycle error is only raised when a
    service of a dependency cycle is under construction, the error of
    mustGet() only for a declared dependency that the lookup does not
    resolve; "Invalid service state." is never raised. *)
Theorem first_start_errors_are_accurate layer fuel :
  lookupValid layer →
  (length (allServices layer) < fuel)%nat →
  (∃ w', start fuel layer (initialWorld layer) = Done tt w'
         ∧ layerState w' = Started)
  ∨ (∃ e w', start fuel layer (initialWorld layer) = Throw e w'
             ∧ layerState w' = NotStarted
             ∧ accurate layer e w'
             ∧ e ≠ internal "Invalid service state.").
Proof.
  intros Hvalid Hfuel.
  destruct (first_start layer Hvalid fuel Hfuel)
    as [(w' & Hstart & Hst & _)|(e & w' & Hstart & Hst & Hacc)].
  - left. by exists w'.
  - right. exists e, w'. do 3 (split; [done|]).
    destruct Hacc as [[-> _]|(s & d & _ & _ & -> & _)]; discriminate.
Qed.

Lemma first_start_errors_are_accurate_witness :
  (∃ w', start 3 brokenLayer (initialWorld brokenLayer) = Done tt w'
         ∧ layerState w' = Started)
  ∨ (∃ e w', start 3 brokenLayer (initialWorld brokenLayer) = Throw e w'
             ∧ layerState w' = NotStarted
             ∧ accurate brokenLayer e w'
             ∧ e ≠ internal "Invalid service state.").
Proof.
  apply (first_start_errors_are_accurate brokenLayer 3).
  - apply layerOf_valid.
  - vm_compute. lia.
Defined.

(** X3: a start() that threw cannot be retried.  The first start() of a
    layer that throws, whatever the error, leaves the service it was
    constructing under construction, with the services listed before it
    constructed.  From then on, as long as destroy() is not called, every
    start() adds a reference to each of those services and then throws the
    cycle error, also when the dependency graph has no cycle: after [m]
    such calls the store is the one the first start() left, with [m]
    references more on each of those services, and the next start() throws
    again. *)
Theorem start_retry_throws_cycle_error layer fuel e w :
  lookupValid layer →
  start fuel layer (initialWorld layer) = Throw e w →
  ∃ k, (k < length (allServices layer))%nat
       ∧ state (cell w k) = Constructing
       ∧ (∀ s, (s < k)%nat → state (cell w s) = Constructed)
       ∧ (∀ m fuel',
            start (S fuel') layer (Nat.iter m (addRefs (seq 0 k)) w)
            = Throw (internal "Cycle during service construction.")
                (Nat.iter (S m) (addRefs (seq 0 k)) w))
       ∧ ∀ m s, cell (Nat.iter m (addRefs (seq 0 k)) w) s
                = if decide (s < k)%nat
                  then {| state := Constructed;
                          useCount := useCount (cell w s) + Z.of_nat m;
                          instance := instance (cell w s) |}
                  else cell w s.
Proof.
  intros Hvalid Hstart.
  destruct (start_after_failure layer fuel 0 e w Hvalid Hstart)
    as (k & Hlt & Hk & Hbefore & _ & Hh & Hlen & Hls & _).
  exists k. do 3 (split; [done|]). split.
  - intros m fuel'. apply start_retries; try done.
    intros s Hs. split; [by apply Hbefore|].
    destruct (Hh s) as [_ Hc]. by destruct (Hc (Hbefore s Hs)).
  - intros m s. rewrite cell_retries by lia.
    destruct (decide (s < k)%nat) as [Hs|Hs]; [|done]. by rewrite (Hbefore s Hs).
Qed.

Lemma start_retry_throws_cycle_error_witness :
  acyclic strandedLayer
  ∧ ∃ k, (k < length (allServices strandedLayer))%nat
         ∧ state (cell (afterStart 3 strandedLayer) k) = Constructing
         ∧ (∀ s, (s < k)%nat → state (cell (afterStart 3 strandedLayer) s) = Constructed)
         ∧ (∀ m fuel',
              start (S fuel') strandedLayer
                (Nat.iter m (addRefs (seq 0 k)) (afterStart 3 strandedLayer))
              = Throw (internal "Cycle during service construction.")
                  (Nat.iter (S m) (addRefs (seq 0 k)) (afterStart 3 strandedLayer)))
         ∧ ∀ m s, cell (Nat.iter m (addRefs (seq 0 k)) (afterStart 3 strandedLayer)) s
                  = if decide (s < k)%nat
                    then {| state := Constructed;
                            useCount := useCount (cell (afterStart 3 strandedLayer) s)
                                        + Z.of_nat m;
                            instance := instance (cell (afterStart 3 strandedLayer) s) |}
                    else cell (afterStart 3 strandedLayer) s.
Proof.
  split.
  - apply (rankedBy_acyclic _ (λ s, match s with 0%nat => 0%nat | _ => 1%nat end)).
    vm_compute. reflexivity.
  - apply (start_retry_throws_cycle_error strandedLayer 3
             (notFoundError strandedLayer (mkInterfaceSpec "example.Missing" None))).
    + apply layerOf_valid.
    + vm_compute. reflexivity.
Defined.

(** X4: the first start() of a layer calls the constructor of a service at
    most once, however many services depend on it.  When start() returns,
    the constructor of every service was called exactly once; when it
    throws, the constructors that were called are those of the services that
    are constructed. *)
Theorem constructors_run_once layer fuel :
  lookupValid layer →
  (∀ w, start fuel layer (initialWorld layer) = Done tt w →
     ∀ s, (s < length (allServices layer))%nat →
       constructorCalls s (trace w) = 1%nat)
  ∧ (∀ e w, start fuel layer (initialWorld layer) = Throw e w →
       ∀ s, constructorCalls s (trace w)
            = if decide (state (cell w s) = Constructed) then 1%nat else 0%nat).
Proof.
  intros Hvalid. split.
  - intros w Hstart s Hs.
    apply start_Done in Hstart as (_ & w1 & Hall & ->).
    pose proof (constructsAll_once layer Hvalid _ _ _ Hall (length_initialWorld layer)
                  (serviceRefs_valid layer) (constructedOnce_initialWorld layer)) as Hw.
    destruct (constructsAll_count layer Hvalid _ _ _ Hall (length_initialWorld layer)
                (serviceRefs_valid layer)) as (_ & _ & _ & Hbuilt & _).
    rewrite Forall_forall in Hbuilt. simpl in Hw. cbn [trace]. rewrite (Hw s).
    rewrite decide_True; [done|]. apply Hbuilt, elem_of_seq. lia.
  - intros e w Hstart s. apply start_Throw in Hstart; [|done].
    exact (constructsAll_once layer Hvalid _ _ _ Hstart (length_initialWorld layer)
             (serviceRefs_valid layer) (constructedOnce_initialWorld layer) s).
Qed.

Lemma constructors_run_once_witness :
  (∀ s, (s < 3)%nat →
     constructorCalls s (trace (afterStart 4 (sharingLayer sharingServices))) = 1%nat)
  ∧ constructorCalls 0 (trace (afterStart 4 cyclicLayer)) = 1%nat
  ∧ constructorCalls 1 (trace (afterStart 4 cyclicLayer)) = 0%nat.
Proof.
  split; [|split].
  - destruct (constructors_run_once (sharingLayer sharingServices) 4 (layerOf_valid _))
      as [Hdone _].
    apply Hdone. vm_compute. reflexivity.
  - destruct (constructors_run_once cyclicLayer 4 (layerOf_valid _)) as [_ Hthrow].
    rewrite (Hthrow cycleError (afterStart 4 cyclicLayer)); vm_compute; reflexivity.
  - destruct (constructors_run_once cyclicLayer 4 (layerOf_valid _)) as [_ Hthrow].
    rewrite (Hthrow cycleError (afterStart 4 cyclicLayer)); vm_compute; reflexivity.
Defined.

(** X5: what a constructor receives.  After a successful first start(),
    every recorded constructor call of a service was handed the properties
    of the service and a record of references whose keys are exactly the
    reference names the service declares, the name [__proto__] apart.  Each
    key is bound to the instance of the service that the last declaration
    under that name resolves to: of two dependencies declared under one
    name, only the later one reaches the constructor.  A dependency declared
    under the name [__proto__] adds no key: the instance of the last such
    declaration becomes the prototype of the record, which is left alone
    when the service declares none. *)
Theorem constructor_receives_declared_references layer fuel w s options result :
  lookupValid layer →
  start fuel layer (initialWorld layer) = Done tt w →
  CallCreate s options result ∈ trace w →
  optProperties options = properties (repr layer s)
  ∧ (∀ key, is_Some (ownKeys (references options) !! key)
            ↔ key ∈ map referenceName (dependencies (repr layer s)) ∧ key ≠ "__proto__")
  ∧ (∀ key, key ≠ "__proto__" →
       ownKeys (references options) !! key
       = lastNamed key (dependencies (repr layer s)) ≫= resolvedInstance layer w)
  ∧ prototype (references options)
    = lastNamed "__proto__" (dependencies (repr layer s)) ≫= resolvedInstance layer w.
Proof.
  intros Hvalid Hstart Hin.
  destruct (start_Done_references layer fuel w s options result Hvalid Hstart Hin)
    as (Hprops & Hsome & Hrefs & Hproto).
  assert (∀ key, key ≠ "__proto__" →
            ownKeys (references options) !! key
            = lastNamed key (dependencies (repr layer s)) ≫= resolvedInstance layer w)
    as Hkeys.
  { intros key Hkey. rewrite ownKeys_assigned by done. apply Hrefs. }
  split; [done|]. split; [|split; [done|]].
  - intros key. destruct (decide (key = "__proto__")) as [->|Hkey].
    + rewrite Hproto. split; [by intros [x Hx]|by intros [_ Hne]].
    + rewrite Hkeys by done. rewrite <- lastNamed_is_Some.
      destruct (lastNamed key (dependencies (repr layer s))) as [d|] eqn:Hlast; cbn.
      * apply lastNamed_Some in Hlast as [Hd _].
        split; [intros _; split; [by eexists|done]|intros _; by apply Hsome].
      * split; [by intros [x Hx]|by intros [[x Hx] _]].
  - specialize (Hrefs "__proto__"). unfold assigned in Hrefs.
    by rewrite decide_True in Hrefs.
Qed.

Lemma constructor_receives_declared_references_witness :
  (∃ options result,
     CallCreate 2 options result ∈ trace (afterStart 4 shadowLayer)
     ∧ optProperties options = [("mode", "test")]
     ∧ ownKeys (references options) !! "dep" = instance (cell (afterStart 4 shadowLayer) 1)
     ∧ ownKeys (references options) !! "provider"
       = instance (cell (afterStart 4 shadowLayer) 0)
     ∧ ownKeys (references options) !! "other" = None
     ∧ prototype (references options) = None)
  ∧ (∃ options result,
       CallCreate 2 options result ∈ trace (afterStart 4 protoLayer)
       ∧ ownKeys (references options) !! "__proto__" = None
       ∧ ownKeys (references options) !! "q" = instance (cell (afterStart 4 protoLayer) 1)
       ∧ prototype (references options) = instance (cell (afterStart 4 protoLayer) 0)).
Proof.
  split.
  - destruct (constructorCall 2 (trace (afterStart 4 shadowLayer)))
      as [[options result]|] eqn:Hcall; [|vm_compute in Hcall; discriminate Hcall].
    apply constructorCall_elem in Hcall.
    exists options, result. split; [done|].
    destruct (constructor_receives_declared_references shadowLayer 4
                (afterStart 4 shadowLayer) 2 options result (layerOf_valid _))
      as (Hprops & _ & Hrefs & Hproto).
    + vm_compute. reflexivity.
    + done.
    + split; [rewrite Hprops; vm_compute; reflexivity|].
      rewrite !Hrefs by discriminate. rewrite Hproto.
      repeat split; vm_compute; reflexivity.
  - destruct (constructorCall 2 (trace (afterStart 4 protoLayer)))
      as [[options result]|] eqn:Hcall; [|vm_compute in Hcall; discriminate Hcall].
    apply constructorCall_elem in Hcall.
    exists options, result. split; [done|].
    destruct (constructor_receives_declared_references protoLayer 4
                (afterStart 4 protoLayer) 2 options result (layerOf_valid _))
      as (_ & Hkeys & Hrefs & Hproto).
    + vm_compute. reflexivity.
    + done.
    + split.
      * destruct (ownKeys (references options) !! "__proto__") as [x|] eqn:Hx; [|done].
        destruct (proj1 (Hkeys "__proto__") ltac:(by eexists)) as [_ Hne]. done.
      * rewrite Hrefs by discriminate. rewrite Hproto.
        split; vm_compute; reflexivity.
Defined.

(** X6: after a successful first start(), destroy() brings every service
    down by counting: a service receives as many calls of removeRef() as it
    held references, one more than the number of dependency declarations
    that resolve to it; they return that number, ..., 1, 0, and its
    destructor is called once, right after the call that returned 0. *)
Theorem teardown_counts_down layer fuel fuel' w1 w2 :
  lookupValid layer →
  start fuel layer (initialWorld layer) = Done tt w1 →
  destroy fuel' layer w1 = Done tt w2 →
  ∀ s, (s < length (allServices layer))%nat →
    state (cell w2 s) = Destroyed
    ∧ releasesOf s (trace w2) = countdown (1 + dependents layer s)
    ∧ destructorCalls s (trace w2) = 1%nat.
Proof.
  intros Hvalid Hstart Hdestroy s Hs.
  destruct (fresh_balanced layer fuel w1 Hvalid ltac:(right; by left)) as [Hbal Hlen].
  destruct (start_counts layer fuel w1 Hvalid Hstart) as [_ Hcounts].
  destruct (Hcounts s Hs) as [_ <-].
  apply (destroy_countdown layer Hvalid fuel' w1 w2); try done.
  apply start_Done in Hstart as (_ & w0 & Hall & ->). cbn [trace].
  intros i. exact (constructsAll_releasesOf layer _ _ _ Hall i).
Qed.

Lemma teardown_counts_down_witness :
  state (cell (afterDestroy 4 chainLayer) 0) = Destroyed
  ∧ releasesOf 0 (trace (afterDestroy 4 chainLayer))
    = [Decremented 1; Decremented 0; DestructorRan]
  ∧ destructorCalls 0 (trace (afterDestroy 4 chainLayer)) = 1%nat.
Proof.
  destruct (teardown_counts_down chainLayer 4 4 (afterStart 4 chainLayer)
              (afterDestroy 4 chainLayer) (layerOf_valid _)) with (s := 0%nat)
    as (Hgone & Hcalls & Honce).
  - vm_compute. reflexivity.
  - vm_compute. reflexivity.
  - vm_compute. lia.
  - split; [done|]. split; [|done]. rewrite Hcalls. vm_compute. reflexivity.
Defined.

(** X7: destroy() does not ask whether a service was ever constructed.  On
    a layer that was never started, and on a layer whose first start()
    threw, destroy() calls removeRef() on every service that is not
    constructed, which returns -1, and then its destroy(), although its
    constructor was never called. *)
Theorem destroy_reaches_unconstructed_services layer fuel0 fuel w w' :
  lookupValid layer →
  w = initialWorld layer
  ∨ (∃ e, start fuel0 layer (initialWorld layer) = Throw e w) →
  destroy fuel layer w = Done tt w' →
  ∀ s, (s < length (allServices layer))%nat →
    state (cell w s) ≠ Constructed →
    constructorCalls s (trace w) = 0%nat
    ∧ state (cell w' s) = Destroyed
    ∧ releasesOf s (trace w') = [Decremented (-1); DestructorRan].
Proof.
  intros Hvalid Hfrom Hdestroy s Hs Hst.
  destruct (fresh_balanced layer fuel0 w Hvalid
              ltac:(destruct Hfrom as [->|H]; [by left|right; by right]))
    as [Hbal Hlen].
  assert (constructedOnce w ∧ idle w ∧ ∀ i, releasesOf i (trace w) = [])
    as (Honce & Hidle & Hnone).
  { destruct Hfrom as [->|[e Hstart]].
    - split; [apply constructedOnce_initialWorld|]. split; [apply idle_initialWorld|done].
    - apply start_Throw in Hstart; [|done]. split; [|split].
      + exact (constructsAll_once layer Hvalid _ _ _ Hstart (length_initialWorld layer)
                 (serviceRefs_valid layer) (constructedOnce_initialWorld layer)).
      + exact (constructsAll_idle layer Hvalid _ _ _ Hstart (length_initialWorld layer)
                 (serviceRefs_valid layer) (idle_initialWorld layer)).
      + intros i. exact (constructsAll_releasesOf layer _ _ _ Hstart i). }
  split.
  - rewrite (Honce s). by rewrite decide_False.
  - destruct (destroy_countdown layer Hvalid fuel w w' Hlen Hbal Hnone Hdestroy s Hs)
      as (Hgone & Hrel & _).
    split; [done|]. by rewrite Hrel, (Hidle s Hst).
Qed.

Lemma destroy_reaches_unconstructed_services_witness :
  (∀ s, (s < length (allServices chainLayer))%nat →
     state (cell (initialWorld chainLayer) s) ≠ Constructed →
     constructorCalls s (trace (initialWorld chainLayer)) = 0%nat
     ∧ state (cell (afterCleanup 4 chainLayer (initialWorld chainLayer)) s) = Destroyed
     ∧ releasesOf s (trace (afterCleanup 4 chainLayer (initialWorld chainLayer)))
       = [Decremented (-1); DestructorRan])
  ∧ (∀ s, (s < length (allServices strandedLayer))%nat →
       state (cell (afterStart 3 strandedLayer) s) ≠ Constructed →
       constructorCalls s (trace (afterStart 3 strandedLayer)) = 0%nat
       ∧ state (cell (afterDestroy 3 strandedLayer) s) = Destroyed
       ∧ releasesOf s (trace (afterDestroy 3 strandedLayer))
         = [Decremented (-1); DestructorRan]).
Proof.
  split.
  - apply (destroy_reaches_unconstructed_services chainLayer 0 4).
    + apply layerOf_valid.
    + by left.
    + vm_compute. reflexivity.
  - apply (destroy_reaches_unconstructed_services strandedLayer 3 3).
    + apply layerOf_valid.
    + right. eexists. vm_compute. reflexivity.
    + vm_compute. reflexivity.
Defined.

(** X8: a second destroy() changes nothing.  After the first start() of a
    layer, whether it returned or threw, or without any start(), destroy()
    leaves a store on which a further destroy() returns at once: no
    removeRef(), no destructor is called again, and no count changes. *)
Theorem destroy_twice_changes_nothing layer fuel0 fuel fuel' w1 w2 :
  lookupValid layer →
  w1 = initialWorld layer
  ∨ start fuel0 layer (initialWorld layer) = Done tt w1
  ∨ (∃ e, start fuel0 layer (initialWorld layer) = Throw e w1) →
  destroy fuel layer w1 = Done tt w2 →
  destroy (S fuel') layer w2 = Done tt w2.
Proof.
  intros Hvalid Hfrom Hdestroy.
  destruct (fresh_balanced layer fuel0 w1 Hvalid Hfrom) as [Hbal Hlen].
  apply destroy_destroyed.
  - intros s Hs. by apply (destroy_balanced layer Hvalid fuel w1 w2).
  - apply destroy_Done in Hdestroy as (w & _ & ->). done.
Qed.

Lemma destroy_twice_changes_nothing_witness :
  destroy 1 chainLayer (afterDestroy 4 chainLayer) = Done tt (afterDestroy 4 chainLayer).
Proof.
  apply (destroy_twice_changes_nothing chainLayer 4 4 0 (afterStart 4 chainLayer)).
  - apply layerOf_valid.
  - right. left. vm_compute. reflexivity.
  - vm_compute. reflexivity.
Defined.

(** X9: on a flat layer, where no service that has a dependency is itself
    a dependency, destroy() after a successful first start() calls the
    destructors in dependency order: the destructor of a service is called
    only after the destructors of all the services that depend on it. *)
Theorem flat_layers_are_destroyed_in_order layer fuel fuel' w1 w2 :
  lookupValid layer →
  flat layer →
  start fuel layer (initialWorld layer) = Done tt w1 →
  destroy fuel' layer w1 = Done tt w2 →
  dependentsFirst layer (trace w2).
Proof.
  intros Hvalid Hflat Hstart Hdestroy.
  pose proof (start_Done_orderly layer fuel w1 Hvalid Hstart) as Hw1.
  destruct (fresh_balanced layer fuel w1 Hvalid ltac:(right; by left)) as [_ Hlen].
  apply destroy_Done in Hdestroy as (w & Hall & ->). cbn [trace].
  destruct (destroysAll_orderly layer Hvalid Hflat _ _ _ Hall Hlen
              (serviceRefs_valid layer) (NoDup_seq _ _) Hw1) as (_ & Horder & _).
  exact Horder.
Qed.

Lemma flat_layers_are_destroyed_in_order_witness :
  flat (sharingLayer sharingServices)
  ∧ dependentsFirst (sharingLayer sharingServices)
      (trace (afterDestroy 4 (sharingLayer sharingServices))).
Proof.
  assert (flat (sharingLayer sharingServices)) as Hflat.
  { apply flatChecked_flat. vm_compute. reflexivity. }
  split; [done|].
  apply (flat_layers_are_destroyed_in_order (sharingLayer sharingServices) 4 4
           (afterStart 4 (sharingLayer sharingServices))).
  - apply layerOf_valid.
  - done.
  - vm_compute. reflexivity.
  - vm_compute. reflexivity.
Defined.

(** X10: destroyService() gives up the dependencies of a service that stays
    alive.  Called on a service that is not destroyed, holds more than one
    reference and is on no dependency cycle, it takes one reference from the
    service, which keeps its state and its instance, and still walks its
    dependencies: every service it depends on loses a reference or is found
    destroyed, and one that held a single reference is destroyed while the
    service that uses it lives on. *)
Theorem destroyService_releases_dependencies_of_live_service layer fuel s t w w' :
  lookupValid layer →
  length (heap w) = length (allServices layer) →
  state (cell w s) ≠ Destroyed →
  1 < useCount (cell w s) →
  ¬ onCycle layer s →
  dependsOn layer s t →
  destroyService fuel layer s w = Done tt w' →
  state (cell w' s) = state (cell w s)
  ∧ instance (cell w' s) = instance (cell w s)
  ∧ useCount (cell w' s) = useCount (cell w s) - 1
  ∧ (state (cell w' t) = Destroyed ∨ useCount (cell w' t) < useCount (cell w t))
  ∧ (useCount (cell w t) ≤ 1 → state (cell w' t) = Destroyed).
Proof.
  intros Hvalid Hlen Halive Hcount Hcycle Hdep Hcall.
  pose proof (dependsOn_valid layer s t Hdep) as Hs.
  pose proof (destroyService_destroys layer fuel s w) as Hd.
  rewrite Hcall in Hd. simpl in Hd.
  inversion Hd as [s' w0 Hst|s' w0 w0' Hst Hloop]; subst; [done|].
  assert (length (heap (release s w)) = length (allServices layer)) as Hlen1
    by (rewrite length_release; lia).
  assert (cell w' s = cell (release s w) s) as Hself.
  { apply (proj2 (destroys_releases_frame layer) _ _ _ Hloop).
    intros d t' Hd' Hlook Hreach. apply Hcycle.
    eapply tc_rtc_r; [|exact Hreach]. apply tc_once. by exists d. }
  rewrite Hself, release_eq_cell by lia. unfold releasedCell.
  destruct (decide (useCount (cell w s) - 1 ≤ 0)) as [|_]; [lia|].
  cbn [state instance useCount]. do 3 (split; [done|]).
  destruct Hdep as (d & Hd' & Hlook).
  assert (t ≠ s) as Hne.
  { intros ->. apply Hcycle, tc_once. by exists d. }
  pose proof (releases_target layer Hvalid _ _ _ Hloop Hlen1 d t Hd' Hlook) as Htarget.
  rewrite (release_ne s w t Hne) in Htarget. split; [done|].
  intros Hone. destruct Htarget as [Hgone|Hless]; [done|].
  destruct (decide (state (cell w' t) = Destroyed)) as [|Hlive]; [done|].
  destruct (proj2 (destroys_releases_shrink layer Hvalid) _ _ _ Hloop Hlen1)
    as [(_ & _ & Hcells) _].
  destruct (Hcells t) as [_ Hkeep].
  destruct (Hkeep Hlive) as (_ & _ & _ & [Heq|Hpos]).
  - rewrite Heq, (release_ne s w t Hne) in Hless. lia.
  - lia.
Qed.

Lemma destroyService_releases_dependencies_of_live_service_witness :
  state (cell (afterRelease 4 chainLayer 0 (afterStart 4 chainLayer)) 1) = Constructed
  ∧ state (cell (afterRelease 4 chainLayer 0 (afterStart 4 chainLayer)) 0) = Constructed
  ∧ state (cell (afterRelease 4 chainLayer 1
                   (afterRelease 4 chainLayer 0 (afterStart 4 chainLayer))) 1)
    = Constructed
  ∧ useCount (cell (afterRelease 4 chainLayer 1
                      (afterRelease 4 chainLayer 0 (afterStart 4 chainLayer))) 1) = 1
  ∧ state (cell (afterRelease 4 chainLayer 1
                   (afterRelease 4 chainLayer 0 (afterStart 4 chainLayer))) 0)
    = Destroyed
  ∧ ¬ dependentsFirst chainLayer (trace (afterDestroy 4 chainLayer)).
Proof.
  assert (dependsOn chainLayer 1 0) as Hdep.
  { exists (mkReferenceSpec "c" (mkInterfaceSpec "example.C" None)).
    split; [vm_compute; left|vm_compute; reflexivity]. }
  destruct (destroyService_releases_dependencies_of_live_service chainLayer 4 1 0
              (afterRelease 4 chainLayer 0 (afterStart 4 chainLayer))
              (afterRelease 4 chainLayer 1
                 (afterRelease 4 chainLayer 0 (afterStart 4 chainLayer)))
              (layerOf_valid _))
    as (Hst & _ & Hcount & _ & Hgone).
  - vm_compute. reflexivity.
  - vm_compute. discriminate.
  - vm_compute. reflexivity.
  - assert (acyclic chainLayer) as Hacyclic.
    { apply (rankedBy_acyclic _ (λ s, s)). vm_compute. reflexivity. }
    apply Hacyclic.
  - exact Hdep.
  - vm_compute. reflexivity.
  - split; [vm_compute; reflexivity|]. split; [vm_compute; reflexivity|].
    split; [rewrite Hst; vm_compute; reflexivity|].
    split; [rewrite Hcount; vm_compute; reflexivity|].
    split; [apply Hgone; vm_compute; discriminate|].
    intros Horder.
    destruct (Horder 11%nat 0%nat 1%nat ltac:(vm_compute; reflexivity) Hdep)
      as (j & Hj & Hcall).
    do 11 (destruct j as [|j]; [vm_compute in Hcall; discriminate Hcall|]). lia.
Defined.

(** X11: in a layer that start() has started, a service that getService()
    answers with is constructed and holds its instance.  getService() takes
    no reference for the caller: the store is unchanged, and the count of
    the service stays one more than the number of dependency declarations
    that resolve to it. *)
Theorem getService_answers_with_constructed_services
    layer fuel w packageName spec s w' :
  lookupValid layer →
  start fuel layer (initialWorld layer) = Done tt w →
  getService layer packageName spec w = Done (Looked (Found s)) w' →
  w' = w
  ∧ state (cell w s) = Constructed
  ∧ is_Some (instance (cell w s))
  ∧ useCount (cell w s) = 1 + dependents layer s.
Proof.
  intros Hvalid Hstart Hget.
  assert (w' = w ∧ serviceLookup layer spec = Found s) as [-> Hlook].
  { unfold getService in Hget. rewrite bind_eq in Hget. unfold getLayerState in Hget.
    destruct (decide (layerState w ≠ Started)); [done|].
    destruct (negb (isDeclaredDependency layer packageName spec)); [done|].
    by injection Hget as -> ->. }
  split; [done|].
  destruct (start_counts layer fuel w Hvalid Hstart) as [_ Hcounts].
  destruct (Hcounts s (Hvalid _ _ Hlook)) as [Hst Hcount].
  split; [done|]. split; [|done].
  apply start_Done in Hstart as (_ & w1 & Hall & ->).
  pose proof (constructsAll_grows layer _ _ _ Hvalid Hall (length_initialWorld layer)
                (serviceRefs_valid layer)) as Hg. simpl in Hg.
  destruct (grows_healthy _ _ (healthy_initialWorld layer) Hg s) as [_ Hc].
  by destruct (Hc Hst).
Qed.

Lemma getService_answers_with_constructed_services_witness :
  state (cell (afterStart 4 (sharingLayer sharingServices)) 2) = Constructed
  ∧ is_Some (instance (cell (afterStart 4 (sharingLayer sharingServices)) 2))
  ∧ useCount (cell (afterStart 4 (sharingLayer sharingServices)) 2)
    = 1 + dependents (sharingLayer sharingServices) 2.
Proof.
  apply (getService_answers_with_constructed_services
           (sharingLayer sharingServices) 4 (afterStart 4 (sharingLayer sharingServices))
           "app" providerSpec 2 (afterStart 4 (sharingLayer sharingServices))).
  - apply layerOf_valid.
  - vm_compute. reflexivity.
  - vm_compute. reflexivity.
Defined.

(** X12: the index of declared dependencies keeps one entry per package
    name.  For any list of packages, distinct names or not,
    isDeclaredDependency() holds exactly when the last package of that name
    declares a consumer reference that matches the specification by the
    exact-qualifier rule; a name that no package carries declares nothing,
    and the declarations of an earlier package of the same name are lost. *)
Theorem declarations_of_last_package packages layer packageName spec :
  declaredDependencies layer = buildDependencyIndex packages →
  isDeclaredDependency layer packageName spec = true
  ↔ ∃ pkg declared,
      lastPackage packageName packages = Some pkg
      ∧ declared ∈ uiReferences pkg
      ∧ matchesDeclaration declared spec.
Proof.
  intros Hindex.
  assert (isDeclaredDependency layer packageName spec =
          match declaredDependencies layer !! packageName with
          | Some packageEntry => entryDeclares packageEntry spec
          | None => false
          end) as -> by reflexivity.
  rewrite Hindex. unfold buildDependencyIndex. rewrite buildDependencyIndex_last.
  destruct (lastPackage packageName packages) as [pkg|].
  - rewrite entryDeclares_fold. split.
    + intros [H|(d & Hd & Hm)]; [done|]. by exists pkg, d.
    + intros (pkg' & d & [= <-] & Hd & Hm). right. by exists d.
  - rewrite lookup_empty. split; [done|]. by intros (pkg' & d & H & _).
Qed.

Lemma declarations_of_last_package_witness :
  isDeclaredDependency duplicateLayer "pkgA" (mkInterfaceSpec "Y" None) = true
  ∧ isDeclaredDependency duplicateLayer "pkgA" (mkInterfaceSpec "X" None) = false
  ∧ isDeclaredDependency duplicateLayer "pkgC" (mkInterfaceSpec "X" None) = false.
Proof.
  assert (∀ packageName spec,
    (¬ ∃ pkg declared,
         lastPackage packageName duplicatePackages = Some pkg
         ∧ declared ∈ uiReferences pkg
         ∧ matchesDeclaration declared spec) →
    isDeclaredDependency duplicateLayer packageName spec = false) as Hno.
  { intros packageName spec Hnone.
    destruct (isDeclaredDependency duplicateLayer packageName spec) eqn:Hyes; [|done].
    destruct Hnone.
    by apply (declarations_of_last_package duplicatePackages duplicateLayer
                packageName spec eq_refl). }
  split; [|split].
  - apply (declarations_of_last_package duplicatePackages duplicateLayer "pkgA"
             (mkInterfaceSpec "Y" None) eq_refl).
    exists (mkPackageRepr "pkgA" [] [mkInterfaceSpec "Y" None]), (mkInterfaceSpec "Y" None).
    split; [vm_compute; reflexivity|]. split; [left|]. by split.
  - apply Hno. intros (pkg & declared & Hlast & Hd & Hname & _).
    vm_compute in Hlast. injection Hlast as <-.
    apply list_elem_of_singleton in Hd as ->. discriminate Hname.
  - apply Hno. intros (pkg & declared & Hlast & _).
    vm_compute in Hlast. discriminate Hlast.
Defined.

(** X13: whatever calls of start(), destroy() and getService() a client
    makes on a layer, in whatever order and whether they return or throw,
    the constructor of a service is called at most once and its destructor
    at most once; the destructor was called exactly when the service is
    destroyed. *)
Theorem sessions_construct_and_destroy_at_most_once layer requests w :
  lookupValid layer →
  session layer requests (initialWorld layer) w →
  ∀ s, (constructorCalls s (trace w) ≤ 1)%nat
       ∧ (destructorCalls s (trace w) ≤ 1)%nat
       ∧ (destructorCalls s (trace w) = 1%nat ↔ state (cell w s) = Destroyed).
Proof.
  intros Hvalid Hrun s.
  destruct (session_kept layer Hvalid requests _ _ Hrun) as ((_ & Hcalled & Hdestroyed) & _).
  { split; [apply length_initialWorld|].
    split; [apply calledOnce_initialWorld|apply destroyedOnce_initialWorld]. }
  destruct (Hcalled s) as [Hle _]. split; [done|]. rewrite (Hdestroyed s).
  destruct (decide (state (cell w s) = Destroyed)); split; try lia; split; done.
Qed.

Lemma sessions_construct_and_destroy_at_most_once_witness :
  afterRequests 4 strandedLayer strandedRequests (initialWorld strandedLayer)
  = Some afterStranded
  ∧ ∀ s, (constructorCalls s (trace afterStranded) ≤ 1)%nat
         ∧ (destructorCalls s (trace afterStranded) ≤ 1)%nat
         ∧ (destructorCalls s (trace afterStranded) = 1%nat
            ↔ state (cell afterStranded s) = Destroyed).
Proof.
  assert (afterRequests 4 strandedLayer strandedRequests (initialWorld strandedLayer)
          = Some afterStranded) as Hrun by (vm_compute; reflexivity).
  split; [done|].
  apply (sessions_construct_and_destroy_at_most_once strandedLayer strandedRequests).
  - apply layerOf_valid.
  - by apply (afterRequests_session 4).
Defined.

(** X14: the life cycle is one-way.  Between any two points of any sequence
    of start(), destroy() and getService() calls on a layer, the state of
    the layer never moves back (not-started, started, destroyed) and neither
    does the state of any service (not-constructed, constructing,
    constructed, destroyed): a destroyed layer is never started again, and a
    destroyed service is never constructed again. *)
Theorem sessions_never_move_a_state_back layer before after w w' :
  lookupValid layer →
  session layer before (initialWorld layer) w →
  session layer after w w' →
  (layerRank (layerState w) ≤ layerRank (layerState w'))%nat
  ∧ ∀ s, (stateRank (state (cell w s)) ≤ stateRank (state (cell w' s)))%nat.
Proof.
  intros Hvalid Hbefore Hafter.
  destruct (session_kept layer Hvalid before _ _ Hbefore) as (Hw & _).
  { split; [apply length_initialWorld|].
    split; [apply calledOnce_initialWorld|apply destroyedOnce_initialWorld]. }
  destruct (session_kept layer Hvalid after _ _ Hafter Hw) as (_ & Hrank & Hstates).
  by split.
Qed.

Lemma sessions_never_move_a_state_back_witness :
  (layerRank (layerState (afterStart 4 strandedLayer)) ≤ layerRank (layerState afterStranded))%nat
  ∧ ∀ s, (stateRank (state (cell (afterStart 4 strandedLayer) s))
          ≤ stateRank (state (cell afterStranded s)))%nat.
Proof.
  apply (sessions_never_move_a_state_back strandedLayer
           [RequestService "app" providerSpec; RequestStart]
           [RequestStart; RequestDestroy; RequestStart; RequestDestroy]).
  - apply layerOf_valid.
  - apply (afterRequests_session 4). vm_compute. reflexivity.
  - apply (afterRequests_session 4). vm_compute. reflexivity.
Defined.

(** X15: retrying a failed start() makes destroy() leak.  When the first
    start() of a layer threw and a second start() was tried, destroy()
    leaves every service that the first start() had constructed and on which
    nothing depends alive: the layer is destroyed, but the service is still
    constructed, holds its instance and one reference, and its destructor
    was never called. *)
Theorem retried_start_leaks_services layer fuel1 fuel2 fuel3 e1 e2 w1 w2 w3 s :
  lookupValid layer →
  start fuel1 layer (initialWorld layer) = Throw e1 w1 →
  start fuel2 layer w1 = Throw e2 w2 →
  destroy fuel3 layer w2 = Done tt w3 →
  state (cell w1 s) = Constructed →
  (∀ u, ¬ dependsOn layer u s) →
  layerState w3 = LayerDestroyed
  ∧ state (cell w3 s) = Constructed
  ∧ instance (cell w3 s) = instance (cell w1 s)
  ∧ useCount (cell w3 s) = 1
  ∧ destructorCalls s (trace w3) = 0%nat.
Proof.
  intros Hvalid H1 H2 H3 Hst Hnone.
  assert (session layer [RequestStart; RequestStart; RequestDestroy]
            (initialWorld layer) w3) as Hsession.
  { eapply session_start; [by rewrite H1|]. eapply session_start; [by rewrite H2|].
    eapply session_destroy; [by rewrite H3|]. constructor. }
  destruct (session_kept layer Hvalid _ _ _ Hsession) as ((_ & _ & Hdestroyed) & _).
  { split; [apply length_initialWorld|].
    split; [apply calledOnce_initialWorld|apply destroyedOnce_initialWorld]. }
  destruct (fresh_balanced layer fuel1 w1 Hvalid ltac:(right; right; by exists e1))
    as [[_ Hbal] _].
  destruct (start_after_failure layer fuel1 (pred fuel2) e1 w1 Hvalid H1)
    as (k & Hlt & Hk & Hbefore & Hreached & Hh & Hlen & Hls & Hretry).
  pose proof (Hreached s Hnone Hst) as Hsk.
  assert (fuel2 = S (pred fuel2)) as Hfuel.
  { destruct fuel2 as [|f]; [exfalso|done].
    unfold start in H2. rewrite bind_eq in H2. unfold getLayerState in H2.
    rewrite Hls in H2. destruct (decide (NotStarted ≠ NotStarted)) as [|_]; [done|].
    rewrite bind_eq in H2. unfold serviceRefs in H2.
    destruct (length (allServices layer)) as [|m]; [lia|]. done. }
  rewrite Hfuel, Hretry in H2. injection H2 as _ <-.
  assert (useCount (cell w1 s) = 1) as Hone.
  { destruct (Hbal s ltac:(lia)) as [_ Hle].
    rewrite (dependents_zero layer s Hnone) in Hle.
    destruct (Hh s) as [_ Hc]. destruct (Hc Hst) as [_ Hpos]. lia. }
  pose proof (Hdestroyed s) as Hcalls. clear Hdestroyed Hsession.
  apply destroy_Done in H3 as (w & Hall & ->).
  change (cell {| heap := heap w; layerState := LayerDestroyed; trace := trace w;
                  nextInstance := nextInstance w |} s) with (cell w s) in *.
  cbn [layerState trace] in *. split; [done|].
  assert (cell (addRefs (seq 0 k) w1) s
          = {| state := Constructed; useCount := 2; instance := instance (cell w1 s) |})
    as Hcell.
  { rewrite cell_addRefs by (intros s' Hs'; apply elem_of_seq in Hs'; lia).
    rewrite count_in_seq, decide_True, Hst, Hone by done. done. }
  assert (cell w s = releasedCell (cell (addRefs (seq 0 k) w1) s)) as Hfinal.
  { apply (destroysAll_no_dependents layer (serviceRefs layer)); try done.
    - by rewrite length_addRefs.
    - apply serviceRefs_valid.
    - lia.
    - apply NoDup_seq.
    - apply elem_of_seq. lia.
    - by rewrite Hcell. }
  rewrite Hcell in Hfinal. unfold releasedCell in Hfinal. cbn [useCount] in Hfinal.
  destruct (decide (2 - 1 ≤ 0)) as [|_]; [lia|].
  cbn [state instance useCount] in Hfinal.
  rewrite Hcalls, Hfinal. cbn [state instance useCount].
  do 3 (split; [done|]). by rewrite decide_False.
Qed.

Lemma retried_start_leaks_services_witness :
  (∀ u, ¬ dependsOn leakingLayer u 0)
  ∧ state (cell (afterStart 4 leakingLayer) 0) = Constructed
  ∧ layerState (afterLeak 4 leakingLayer) = LayerDestroyed
  ∧ state (cell (afterLeak 4 leakingLayer) 0) = Constructed
  ∧ useCount (cell (afterLeak 4 leakingLayer) 0) = 1
  ∧ destructorCalls 0 (trace (afterLeak 4 leakingLayer)) = 0%nat.
Proof.
  assert (∀ u, ¬ dependsOn leakingLayer u 0) as Hnone.
  { intros u Hdep. apply edges_dependsOn in Hdep.
    pose proof (dependsOn_valid leakingLayer u 0 ltac:(by apply edges_dependsOn)) as Hu.
    do 3 (destruct u as [|u]; [vm_compute in Hdep; by destruct Hdep|]).
    vm_compute in Hu. lia. }
  assert (state (cell (afterStart 4 leakingLayer) 0) = Constructed) as Hst
    by (vm_compute; reflexivity).
  split; [done|]. split; [done|].
  destruct (retried_start_leaks_services leakingLayer 4 4 4
              (notFoundError leakingLayer (mkInterfaceSpec "example.Missing" None))
              cycleError
              (afterStart 4 leakingLayer)
              (afterRetry 4 leakingLayer)
              (afterLeak 4 leakingLayer) 0 (layerOf_valid _))
    as (Hls & Halive & _ & Hcount & Hcalls).
  - vm_compute. reflexivity.
  - vm_compute. reflexivity.
  - vm_compute. reflexivity.
  - done.
  - done.
  - done.
Defined.
